(** * nginx-api: the configuration pipeline

    A shallow embedding of the text <-> tree <-> schema pipeline of the
    repository:

    - [src/libs/nginx-config-parser.ts]: the [Parser] class ([resolve],
      [resolveSet], [resolveAppendSet], [appendValue], [toJSON],
      [handleInclude], [toConf]);
    - [tools/nginx2json.ts]: [NginxParser.parseBlock] and the extractor
      [NginxToJSON] ([parseSSLConfig], [parseLocation], [parseServer],
      [convert]);
    - [src/generator.ts]: [generateNginxConfig].

    Modelling conventions.
    - Text is a list of ASCII characters; [\s] and [trim] use the ASCII
      white-space characters.
    - A JavaScript object is an association list in property order
      (array-index keys first, ascending, then the other keys in insertion
      order); an array is a list.  Only own properties (and [length] of an
      array) are modelled, not members inherited from the prototypes.
    - JavaScript exceptions are the [Throw] results of the [res] monad.
    - Schema numbers are integers (or NaN). *)

From Stdlib Require Import List Ascii Bool Arith PeanoNat ZArith Lia.
Import ListNotations.

(* ================================================================= *)
(** * Text *)

Definition str := list ascii.

Inductive lit := LNil | LCons (a : ascii) (r : lit).

Fixpoint lit_of_bytes (l : list Byte.byte) : lit :=
  match l with
  | [] => LNil
  | b :: r => LCons (ascii_of_byte b) (lit_of_bytes r)
  end.

Fixpoint bytes_of_lit (l : lit) : list Byte.byte :=
  match l with
  | LNil => []
  | LCons a r => byte_of_ascii a :: bytes_of_lit r
  end.

Declare Scope str_scope.
Delimit Scope str_scope with str.
#[warnings="-via-type-mismatch,-via-type-remapping"]
String Notation str lit_of_bytes bytes_of_lit
  (via lit mapping [[nil] => LNil, [cons] => LCons]) : str_scope.
Bind Scope str_scope with str.
Open Scope str_scope.

Module Text.

Definition ceq (a b : ascii) : bool := Ascii.eqb a b.

(** [\s] restricted to ASCII: TAB, LF, VT, FF, CR, SPACE. *)
Definition is_ws (c : ascii) : bool :=
  ceq c " "%char || ceq c "009"%char || ceq c "010"%char || ceq c "011"%char
  || ceq c "012"%char || ceq c "013"%char.

Definition is_digit (c : ascii) : bool :=
  (48 <=? nat_of_ascii c)%nat && (nat_of_ascii c <=? 57)%nat.

Definition digit_val (c : ascii) : nat := nat_of_ascii c - 48.

Fixpoint seqb (a b : str) : bool :=
  match a, b with
  | [], [] => true
  | x :: a', y :: b' => ceq x y && seqb a' b'
  | _, _ => false
  end.

Fixpoint dropWhile (p : ascii -> bool) (l : str) : str :=
  match l with
  | [] => []
  | c :: r => if p c then dropWhile p r else l
  end.

Fixpoint takeWhile (p : ascii -> bool) (l : str) : str :=
  match l with
  | [] => []
  | c :: r => if p c then c :: takeWhile p r else []
  end.

Definition trimStart (l : str) : str := dropWhile is_ws l.
Definition trimEnd (l : str) : str := rev (dropWhile is_ws (rev l)).
(** [String.prototype.trim] *)
Definition trim (l : str) : str := trimEnd (trimStart l).

(** [String.prototype.startsWith] *)
Fixpoint startsWith (p l : str) : bool :=
  match p, l with
  | [], _ => true
  | x :: p', y :: l' => ceq x y && startsWith p' l'
  | _ :: _, [] => false
  end.

(** [String.prototype.endsWith] *)
Definition endsWith (p l : str) : bool := startsWith (rev p) (rev l).

(** [String.prototype.includes] *)
Fixpoint includes (p l : str) : bool :=
  startsWith p l ||
  match l with
  | [] => false
  | _ :: r => includes p r
  end.

(** [String.prototype.split] with a one-character separator. *)
Fixpoint split (sep : ascii) (l : str) : list str :=
  match l with
  | [] => [[]]
  | c :: r =>
      if ceq c sep then [] :: split sep r
      else match split sep r with
           | h :: t => (c :: h) :: t
           | [] => [[c]]
           end
  end.

(** [s.split(sep, n)] *)
Definition splitLimit (sep : ascii) (n : nat) (l : str) : list str :=
  firstn n (split sep l).

(** [Array.prototype.join] on strings. *)
Fixpoint join (sep : str) (ls : list str) : str :=
  match ls with
  | [] => []
  | x :: r =>
      match r with
      | [] => x
      | _ :: _ => x ++ sep ++ join sep r
      end
  end.

(** [s.replace(pat, rep)] with a string pattern: the first occurrence only. *)
Fixpoint replaceFirst (pat rep l : str) : str :=
  if startsWith pat l then rep ++ skipn (length pat) l
  else match l with
       | [] => []
       | c :: r => c :: replaceFirst pat rep r
       end.

(** [s.replace(/c/g, d)] for single characters. *)
Definition replaceAllChar (c d : ascii) (l : str) : str :=
  map (fun x => if ceq x c then d else x) l.

(** [s.replace(/[...]/g, '')] for a character class. *)
Definition removeChars (p : ascii -> bool) (l : str) : str :=
  filter (fun x => negb (p x)) l.

(** [s.repeat(n)] *)
Fixpoint repeatStr (s : str) (n : nat) : str :=
  match n with
  | O => []
  | S n' => s ++ repeatStr s n'
  end.

(** [s.slice(0, s.length - 1)] *)
Definition dropLast (l : str) : str := removelast l.

(** Decimal rendering of a natural number. *)
Fixpoint digits_of_uint (u : Decimal.uint) : str :=
  match u with
  | Decimal.Nil => []
  | Decimal.D0 r => "0"%char :: digits_of_uint r
  | Decimal.D1 r => "1"%char :: digits_of_uint r
  | Decimal.D2 r => "2"%char :: digits_of_uint r
  | Decimal.D3 r => "3"%char :: digits_of_uint r
  | Decimal.D4 r => "4"%char :: digits_of_uint r
  | Decimal.D5 r => "5"%char :: digits_of_uint r
  | Decimal.D6 r => "6"%char :: digits_of_uint r
  | Decimal.D7 r => "7"%char :: digits_of_uint r
  | Decimal.D8 r => "8"%char :: digits_of_uint r
  | Decimal.D9 r => "9"%char :: digits_of_uint r
  end.

Definition str_of_N (n : N) : str := digits_of_uint (N.to_uint n).
Definition str_of_nat (n : nat) : str := str_of_N (N.of_nat n).
Definition str_of_Z (z : Z) : str :=
  match z with
  | Z0 => "0"
  | Zpos p => str_of_N (Npos p)
  | Zneg p => "-"%char :: str_of_N (Npos p)
  end.

(** Value of a string of decimal digits. *)
Definition N_of_digits (l : str) : N :=
  fold_left (fun acc c => (acc * 10 + N.of_nat (digit_val c))%N) l 0%N.

End Text.
Import Text.

(* ================================================================= *)
(** * JavaScript values and exceptions *)

Module Js.

Inductive error :=
| TypeError
| RangeError
| IncludeResolutionError
| NotFound
| Unsupported.

Inductive res (A : Type) : Type :=
| Ok (a : A)
| Throw (e : error).
Arguments Ok {A} a.
Arguments Throw {A} e.

Definition bind {A B : Type} (m : res A) (k : A -> res B) : res B :=
  match m with
  | Ok a => k a
  | Throw e => Throw e
  end.

(** [ConfigValue]: string | object | Array; [VNum] is the [length] of an
    array, the only number a path can reach. *)
#[warnings="-register-all"]
Inductive value :=
| VStr (s : str)
| VNum (n : nat)
| VObj (props : list (str * value))
| VArr (elems : list value).

(** [typeof v === 'object'] *)
Definition isObject (v : value) : bool :=
  match v with
  | VObj _ | VArr _ => true
  | _ => false
  end.

(** [Array.isArray(v)] *)
Definition isArray (v : value) : bool :=
  match v with
  | VArr _ => true
  | _ => false
  end.

(** A canonical array index: decimal digits without a leading zero, below
    2^32 - 1. *)
Definition arrayIndex (k : str) : option N :=
  match k with
  | [] => None
  | c :: r =>
      if forallb is_digit k
         && (negb (ceq c "0"%char) || match r with [] => true | _ => false end)
      then let n := N_of_digits k in
           if (n <? 4294967295)%N then Some n else None
      else None
  end.

Fixpoint assoc (k : str) (o : list (str * value)) : option value :=
  match o with
  | [] => None
  | (k', v) :: r => if seqb k k' then Some v else assoc k r
  end.

(** [v[k]] on an object or an array; [None] is [undefined]. *)
Definition get_prop (v : value) (k : str) : option value :=
  match v with
  | VObj o => assoc k o
  | VArr a =>
      match arrayIndex k with
      | Some i =>
          if (i <? N.of_nat (length a))%N then nth_error a (N.to_nat i)
          else None
      | None => if seqb k "length" then Some (VNum (length a)) else None
      end
  | _ => None
  end.

(** Property order of an object: array indices ascending, then the rest. *)
Definition key_before (k k' : str) : bool :=
  match arrayIndex k, arrayIndex k' with
  | Some i, Some j => (i <? j)%N
  | Some _, None => true
  | None, _ => false
  end.

Fixpoint obj_replace (k : str) (v : value) (o : list (str * value))
  : list (str * value) :=
  match o with
  | [] => []
  | (k', v') :: r =>
      if seqb k k' then (k', v) :: r else (k', v') :: obj_replace k v r
  end.

Fixpoint obj_insert (k : str) (v : value) (o : list (str * value))
  : list (str * value) :=
  match o with
  | [] => [(k, v)]
  | (k', v') :: r =>
      if key_before k k' then (k, v) :: o else (k', v') :: obj_insert k v r
  end.

(** [o[k] = v] on an object. *)
Definition obj_set (k : str) (v : value) (o : list (str * value))
  : list (str * value) :=
  match assoc k o with
  | Some _ => obj_replace k v o
  | None => obj_insert k v o
  end.

Fixpoint list_set (i : nat) (v : value) (a : list value) : list value :=
  match a, i with
  | [], _ => []
  | _ :: r, O => v :: r
  | x :: r, S i' => x :: list_set i' v r
  end.

(** [cur[k] = v].  On an array, a write at an index below the length
    replaces, a write at the length appends; sparse writes and writes of
    named properties (including [length]) are outside the model. *)
Definition set_prop (cur : value) (k : str) (v : value) : res value :=
  match cur with
  | VObj o => Ok (VObj (obj_set k v o))
  | VArr a =>
      match arrayIndex k with
      | Some i =>
          if (i <? N.of_nat (length a))%N
          then Ok (VArr (list_set (N.to_nat i) v a))
          else if (i =? N.of_nat (length a))%N then Ok (VArr (a ++ [v]))
          else Throw Unsupported
      | None => Throw Unsupported
      end
  | _ => Throw TypeError
  end.

(** [String(v)], as used by string concatenation and [Array.join]. *)
Fixpoint toStr (v : value) : str :=
  match v with
  | VStr s => s
  | VNum n => str_of_nat n
  | VObj _ => "[object Object]"
  | VArr a => join "," (map toStr a)
  end.

End Js.
Import Js.

Notation "x <- m ;; k" := (Js.bind m (fun x => k))
  (at level 61, m at next level, right associativity).
Notation "' p <- m ;; k" := (Js.bind m (fun p => k))
  (at level 61, p pattern, m at next level, right associativity).

(* ================================================================= *)
(** * Number arithmetic for [parent += '.' + len - 1]

    The expression parses as [('.' + len) - 1]: the string ['.' + len] is
    converted to a binary64 number, 1 is subtracted, and the result is
    converted back to a string.  This module computes that string with
    exact integer arithmetic (round to nearest, ties to even; shortest
    decimal that reads back as the same number). *)

Module JsNumber.

Local Open Scope Z_scope.

(** Bit length of a positive integer. *)
Definition bits (n : Z) : Z := Z.log2 n + 1.

(** Round half to even of [n / d], for [n >= 0] and [d > 0]. *)
Definition divRound (n d : Z) : Z :=
  let q := n / d in
  let r := n mod d in
  match 2 * r ?= d with
  | Lt => q
  | Gt => q + 1
  | Eq => if Z.even q then q else q + 1
  end.

(** The binary64 number nearest to [n / d] (both positive), as a pair
    [(m, e)] with [2^52 <= m < 2^53] and value [m * 2^e]. *)
Definition toDouble (n d : Z) : Z * Z :=
  let e0 := bits n - bits d - 53 in
  let scaled (e : Z) := if e <? 0 then (n * 2 ^ (- e), d) else (n, d * 2 ^ e) in
  let q0 := let '(a, b) := scaled e0 in a / b in
  let e := if q0 <? 2 ^ 52 then e0 - 1
           else if 2 ^ 53 <=? q0 then e0 + 1 else e0 in
  let q1 := let '(a, b) := scaled e in a / b in
  let e := if q1 <? 2 ^ 52 then e - 1
           else if 2 ^ 53 <=? q1 then e + 1 else e in
  let m := let '(a, b) := scaled e in divRound a b in
  if m =? 2 ^ 53 then (2 ^ 52, e + 1) else (m, e).

(** The value [m * 2^e] as a fraction. *)
Definition fracOf (me : Z * Z) : Z * Z :=
  let '(m, e) := me in
  if e <? 0 then (m, 2 ^ (- e)) else (m * 2 ^ e, 1).

(** The decimal exponent [k] of a fraction in (0, 1):
    [10^(k-1) <= n/d < 10^k], searched downwards from 0. *)
Fixpoint decExp (fuel : nat) (n d : Z) (k : Z) : Z :=
  match fuel with
  | O => k
  | S f => if d <=? n * 10 then k else decExp f (n * 10) d (k - 1)
  end.

Fixpoint stripZeros (rev_digits : str) : str :=
  match rev_digits with
  | c :: r => if ceq c "0"%char then stripZeros r else rev_digits
  | [] => []
  end.

(** Shortest digits: the first precision [p] (from 1) at which one of the
    two neighbouring [p]-digit decimals reads back as [me]. *)
Fixpoint shortest (fuel : nat) (p : Z) (me : Z * Z) (n d k : Z)
  : str * Z :=
  match fuel with
  | O => ([], k)
  | S f =>
      (* v * 10^(p-k), with p - k >= 1 *)
      let sc := 10 ^ (p - k) in
      let lo := (n * sc) / d in
      let hi := lo + 1 in
      let ok (s : Z) :=
        let '(m', e') := toDouble s sc in
        let '(m, e) := me in (m' =? m) && (e' =? e) in
      let pick (s : Z) :=
        (rev (stripZeros (rev (str_of_Z s))),
         if s =? 10 ^ p then k + 1 else k) in
      let dlo := n * sc - lo * d in
      let dhi := hi * d - n * sc in
      match ok lo, ok hi with
      | true, true =>
          if dlo <? dhi then pick lo
          else if dhi <? dlo then pick hi
          else if Z.even lo then pick lo else pick hi
      | true, false => pick lo
      | false, true => pick hi
      | false, false => shortest f (p + 1) me n d k
      end
  end.

(** [Number.prototype.toString] of a positive number below 1, given its
    shortest digits [ds] and decimal exponent [k] (value [0.ds * 10^k]). *)
Definition render (ds : str) (k : Z) : str :=
  if -6 <? k then
    "0." ++ repeatStr "0" (Z.to_nat (- k)) ++ ds
  else
    let e := str_of_Z (1 - k) in
    match ds with
    | [] => "0"
    | [c] => c :: "e-" ++ e
    | c :: r => c :: "." ++ r ++ "e-" ++ e
    end.

(** [String(Number('.' + len) - 1)] *)
Definition dotMinusOne (len : nat) : str :=
  let digits := str_of_nat len in
  let x_n := Z.of_nat len in
  let x_d := 10 ^ Z.of_nat (length digits) in
  if x_n =? 0 then "-1"
  else
    let '(m, e) := toDouble x_n x_d in
    (* x < 1, so e < 0 and 1 - x = (2^-e - m) / 2^-e *)
    let y_n := 2 ^ (- e) - m in
    let y_d := 2 ^ (- e) in
    if y_n <=? 0 then "0"
    else
      let me := toDouble y_n y_d in
      let '(n, d) := fracOf me in
      let k := decExp 400 n d 0 in
      let '(ds, k') := shortest 17 1 me n d k in
      "-" ++ render ds k'.

End JsNumber.

(* ================================================================= *)
(** * The generic tree: [src/libs/nginx-config-parser.ts] *)

Module Parser.

(** [unsafeKey]: every [!] back to [.] *)
Definition unsafeKey (key : str) : str := replaceAllChar "!"%char "."%char key.

(** [safeKey]: every [.] to [!] *)
Definition safeKey (key : str) : str := replaceAllChar "."%char "!"%char key.

(** [prev[key]]: reading a property of [undefined] throws. *)
Definition readProp (prev : option value) (key : str) : res (option value) :=
  match prev with
  | Some p => Ok (get_prop p key)
  | None => Throw TypeError
  end.

(** [typeof prev === 'object' && prev] *)
Definition isObjectValue (prev : option value) : bool :=
  match prev with
  | Some p => isObject p
  | None => false
  end.

(** The reducer of [resolve]. *)
Definition resolveStep (prev : option value) (curr : str)
  : res (option value) :=
  if isObjectValue prev then readProp prev (unsafeKey curr) else Ok None.

(** [forEach] and [reduce] with exceptions. *)
Fixpoint forEach {A S : Type} (f : S -> A -> res S) (l : list A) (st : S)
  : res S :=
  match l with
  | [] => Ok st
  | x :: r => st' <- f st x ;; forEach f r st'
  end.

(** [resolve(obj, path)]; [None] is [undefined]. *)
Definition resolve (obj : value) (path : str) : res (option value) :=
  forEach resolveStep (split "."%char path) (Some obj).

(** The [while] loop of [resolveSet] on the remaining [components].  [Some v]
    is [current] after the assignment was made below it ([return true]);
    [None] is the [break] or the end of the loop ([return false]). *)
Fixpoint resolveSetLoop (current : option value) (components : list str)
  (val : value) : res (option value) :=
  match components with
  | [] => Ok None
  | k :: rest =>
      match current with
      | None => Ok None
      | Some cur =>
          if isObject cur then
            match rest with
            | [] =>
                cur' <- set_prop cur (unsafeKey k) val ;;
                Ok (Some cur')
            | _ :: _ =>
                r <- resolveSetLoop (get_prop cur (unsafeKey k)) rest val ;;
                match r with
                | Some child =>
                    cur' <- set_prop cur (unsafeKey k) child ;;
                    Ok (Some cur')
                | None => Ok None
                end
            end
          else Ok None
      end
  end.

(** [resolveSet(obj, path, val)]: the object after the call and the
    returned boolean. *)
Definition resolveSet (obj : value) (path : str) (val : value)
  : res (value * bool) :=
  r <- resolveSetLoop (Some obj) (split "."%char path) val ;;
  match r with
  | Some obj' => Ok (obj', true)
  | None => Ok (obj, false)
  end.

(** [resolveAppendSet(json, key, val)] *)
Definition resolveAppendSet (json : value) (key : str) (val : value)
  : res (value * bool) :=
  existing <- resolve json key ;;
  match existing with
  | Some existingVal =>
      let mergedValues :=
        match existingVal with
        | VArr a => a
        | _ => [existingVal]
        end in
      let mergedValues :=
        match val with
        | VArr vs => mergedValues ++ vs
        | _ => mergedValues ++ [val]
        end in
      '(json', _) <- resolveSet json key (VArr mergedValues) ;;
      Ok (json', true)
  | None =>
      '(json', _) <- resolveSet json key val ;;
      Ok (json', false)
  end.

(** [appendValue(json, key, val, parent)]; an omitted [parent] is [""]. *)
Definition appendValue (json : value) (key : str) (val : value)
  (parent : str) : res (value * bool) :=
  match parent with
  | _ :: _ => resolveAppendSet json (parent ++ "." ++ key) val
  | [] => resolveAppendSet json key val
  end.

(** ** [toJSON] *)

Record ParserOptions := {
  parseIncludes : bool;
  includesRoot : option str;
  ignoreIncludeErrors : bool
}.

(** [options = {}] *)
Definition noOptions : ParserOptions :=
  {| parseIncludes := false; includesRoot := None;
     ignoreIncludeErrors := false |}.

(** A call [this.handleInclude(line, json, parent, options)] whose promise
    [toJSON] drops: the arguments it captured. *)
Record includeCall := {
  ic_line : str;
  ic_parent : str
}.

Record state := {
  json : value;
  parent : str;
  chunkedLine : option str;
  countOfParentsThatAreArrays : nat;
  isInLuaBlock : bool;
  luaBlockValue : list str;
  detached : list includeCall
}.

Definition initState : state :=
  {| json := VObj []; parent := ""; chunkedLine := None;
     countOfParentsThatAreArrays := 0; isInLuaBlock := false;
     luaBlockValue := []; detached := [] |}.

(** [.replace(/(\s+{)/g, '\n$1\n')]; [ws] is the white-space run read so
    far. *)
Fixpoint braceLines (ws : str) (l : str) : str :=
  match l with
  | [] => ws
  | c :: r =>
      if is_ws c then braceLines (ws ++ [c]) r
      else if ceq c "{"%char && negb (seqb ws "")
      then "010"%char :: ws ++ "{"%char :: "010"%char :: braceLines [] r
      else ws ++ c :: braceLines [] r
  end.

(** The second replacement: a [;], white space and a closing brace become
    the [;] and the white space, a line feed, the brace, a line feed.
    [pend] is a [;] and the white space read after it. *)
Fixpoint closeLines (pend : option str) (l : str) : str :=
  match l with
  | [] => match pend with Some b => b | None => [] end
  | c :: r =>
      match pend with
      | Some b =>
          if is_ws c then closeLines (Some (b ++ [c])) r
          else if ceq c "}"%char
          then b ++ "010"%char :: "}"%char :: "010"%char :: closeLines None r
          else if ceq c ";"%char then b ++ closeLines (Some ";") r
          else b ++ c :: closeLines None r
      | None =>
          if ceq c ";"%char then closeLines (Some ";") r
          else c :: closeLines None r
      end
  end.

(** [.replace(/;\s*?$/g, ';\n')]: [$] is the end of the string. *)
Fixpoint endLine (l : str) : str :=
  match l with
  | [] => []
  | c :: r =>
      if ceq c ";"%char && forallb is_ws r then ";" ++ ["010"%char]
      else c :: endLine r
  end.

(** [!isNaN(parseInt(s, 10))]: leading white space, an optional sign, then
    a digit. *)
Definition parsesAsInt (s : str) : bool :=
  match trimStart s with
  | c :: r =>
      if ceq c "+"%char || ceq c "-"%char
      then match r with d :: _ => is_digit d | [] => false end
      else is_digit c
  | [] => false
  end.

(** [handlePropertyLine(line, json, parent)] *)
Definition handlePropertyLine (line : str) (json : value) (parent : str)
  : res value :=
  let parts := split " "%char line in
  let key := safeKey (hd "" parts) in
  let val := trim (join " " (tl parts)) in
  let key := if endsWith ";" key then dropLast key else key in
  let val := dropLast val in
  '(json', _) <- appendValue json key (VStr val) parent ;;
  Ok json'.

(** [handleClosingBrace(json, parent, isInLuaBlock, luaBlockValue)] *)
Definition handleClosingBrace (json : value) (parent : str)
  (isInLuaBlock : bool) (luaBlockValue : list str) : res value :=
  if isInLuaBlock then
    '(json', _) <- appendValue json "_lua" (VArr (map VStr luaBlockValue))
                     parent ;;
    Ok json'
  else Ok json.

(** [(x as any[]).length] *)
Definition lengthOf (x : option value) : res nat :=
  match x with
  | None => Throw TypeError
  | Some (VArr a) => Ok (length a)
  | Some (VStr s) => Ok (length s)
  | Some _ => Throw Unsupported
  end.

(** The parent path after a closing brace. *)
Definition popParent (parent : str) (count : nat) : str * nat :=
  let comps := split "."%char parent in
  let '(comps, count) :=
    if (0 <? count)%nat && parsesAsInt (last comps "")
    then (removelast comps, count - 1)
    else (comps, count) in
  (join "." (removelast comps), count).

(** The body of [innerLines.forEach]. *)
Definition innerLine (options : ParserOptions) (st : state) (line : str)
  : res state :=
  let line := trim line in
  match line with
  | [] => Ok st
  | _ :: _ =>
  if isInLuaBlock st && negb (endsWith "}" line) then
    Ok {| json := json st; parent := parent st;
          chunkedLine := chunkedLine st;
          countOfParentsThatAreArrays := countOfParentsThatAreArrays st;
          isInLuaBlock := isInLuaBlock st;
          luaBlockValue := luaBlockValue st ++ [line];
          detached := detached st |}
  else
  let line :=
    match chunkedLine st with
    | Some (c :: cs) => (c :: cs) ++ " " ++ line
    | _ => line
    end in
  if endsWith "{" line then
    let key := safeKey (trim (dropLast line)) in
    let lua := if endsWith "by_lua_block" key then true
               else isInLuaBlock st in
    let parent1 :=
      match parent st with
      | _ :: _ => parent st ++ "." ++ key
      | [] => key
      end in
    '(json', inArray) <- appendValue (json st) parent1 (VObj []) "" ;;
    if inArray then
      array <- resolve json' parent1 ;;
      len <- lengthOf array ;;
      Ok {| json := json';
            parent := parent1 ++ JsNumber.dotMinusOne len;
            chunkedLine := None;
            countOfParentsThatAreArrays :=
              countOfParentsThatAreArrays st + 1;
            isInLuaBlock := lua;
            luaBlockValue := luaBlockValue st;
            detached := detached st |}
    else
      Ok {| json := json'; parent := parent1; chunkedLine := None;
            countOfParentsThatAreArrays := countOfParentsThatAreArrays st;
            isInLuaBlock := lua;
            luaBlockValue := luaBlockValue st;
            detached := detached st |}
  else if startsWith "include" line && parseIncludes options then
    Ok {| json := json st; parent := parent st;
          chunkedLine := chunkedLine st;
          countOfParentsThatAreArrays := countOfParentsThatAreArrays st;
          isInLuaBlock := isInLuaBlock st;
          luaBlockValue := luaBlockValue st;
          detached := detached st
                      ++ [{| ic_line := line; ic_parent := parent st |}] |}
  else if endsWith ";" line then
    json' <- handlePropertyLine line (json st) (parent st) ;;
    Ok {| json := json'; parent := parent st; chunkedLine := None;
          countOfParentsThatAreArrays := countOfParentsThatAreArrays st;
          isInLuaBlock := isInLuaBlock st;
          luaBlockValue := luaBlockValue st;
          detached := detached st |}
  else if endsWith "}" line then
    json' <- handleClosingBrace (json st) (parent st) (isInLuaBlock st)
               (luaBlockValue st) ;;
    let '(parent', count') :=
      popParent (parent st) (countOfParentsThatAreArrays st) in
    Ok {| json := json'; parent := parent'; chunkedLine := None;
          countOfParentsThatAreArrays := count';
          isInLuaBlock := false;
          luaBlockValue := [];
          detached := detached st |}
  else
    Ok {| json := json st; parent := parent st; chunkedLine := Some line;
          countOfParentsThatAreArrays := countOfParentsThatAreArrays st;
          isInLuaBlock := isInLuaBlock st;
          luaBlockValue := luaBlockValue st;
          detached := detached st |}
  end.

(** The three replacements and the split that give [innerLines]. *)
Definition innerLinesOf (lineRaw : str) : list str :=
  split "010"%char (endLine (closeLines None (braceLines [] lineRaw))).

(** The body of [lines.forEach]. *)
Definition outerLine (options : ParserOptions) (st : state) (lineRaw : str)
  : res state :=
  let lineRaw := trim lineRaw in
  match lineRaw with
  | [] => Ok st
  | _ :: _ =>
      if startsWith "#" lineRaw then Ok st
      else
        let lineRaw := trim (hd "" (split "#"%char lineRaw)) in
        forEach (innerLine options) (innerLinesOf lineRaw) st
  end.

(** [conf.replace('\t', '').split('\n')] *)
Definition linesOf (conf : str) : list str :=
  split "010"%char (replaceFirst ["009"%char] "" conf).

Definition runLines (options : ParserOptions) (conf : str) : res state :=
  forEach (outerLine options) (linesOf conf) initState.

(** [toJSON(conf, options)]: the returned object, and the [handleInclude]
    calls left running when it returns. *)
Definition toJSON (conf : str) (options : ParserOptions)
  : res (value * list includeCall) :=
  st <- runLines options conf ;;
  Ok (json st, detached st).

(** [parse(mixed, options)] on a string. *)
Definition parse (conf : str) (options : option ParserOptions)
  : res (value * list includeCall) :=
  toJSON conf (match options with Some o => o | None => noOptions end).

(** ** [toConf] *)

(** The keys [for (const key in obj)] visits. *)
Definition keysOf (obj : value) : list str :=
  match obj with
  | VObj o => map fst o
  | VArr a => map str_of_nat (seq 0 (length a))
  | _ => []
  end.

Definition longestKeyLenOf (obj : value) : nat :=
  fold_left (fun acc key => Nat.max acc (length key)) (keysOf obj) 1.

Section Entry.
(** [recurse(., depth + 1)], the indentation and the longest key length
    of the enclosing call. *)
Variable recurseDeeper : value -> str.
Variable indent : str.
Variable longestKeyLen : nat.

(** One element of an array value. *)
Definition emitElement (key keyValIndent : str) (subVal : value) : str :=
  if isObject subVal then
    let subText := " {" ++ ["010"%char] ++ recurseDeeper subVal
                   ++ indent ++ "}" ++ ["010"%char; "010"%char] in
    indent ++ trim (key ++ " " ++ subText) ++ ["010"%char]
  else
    indent ++ trim (key ++ keyValIndent ++ toStr subVal)
    ++ ";" ++ ["010"%char].

(** The body of the loop over [Object.entries(obj)]. *)
Definition emitEntry (key : str) (val : value) : str :=
  let keyValSpacing := longestKeyLen - length key + 4 in
  let keyValIndent := repeatStr " " keyValSpacing in
  match val with
  | VArr elems =>
      if seqb key "_lua" then
        (match elems with _ :: _ => indent | [] => "" end)
        ++ join ("010"%char :: indent) (map toStr elems)
        ++ ["010"%char]
      else concat (map (emitElement key keyValIndent) elems)
  | VObj _ =>
      indent ++ key ++ " {" ++ ["010"%char]
      ++ recurseDeeper val
      ++ indent ++ "}" ++ ["010"%char; "010"%char]
  | _ =>
      indent ++ trim (key ++ keyValIndent ++ toStr val)
      ++ ";" ++ ["010"%char]
  end.

Fixpoint emitIndexed (i : nat) (a : list value) : str :=
  match a with
  | [] => []
  | v :: r => emitEntry (str_of_nat i) v ++ emitIndexed (S i) r
  end.
End Entry.

(** [recurse(obj, depth)] *)
Fixpoint recurse (depth : nat) (obj : value) {struct obj} : str :=
  let indent := repeatStr "    " depth in
  let longestKeyLen := longestKeyLenOf obj in
  match obj with
  | VObj o =>
      concat (map (fun kv =>
                     emitEntry (recurse (S depth)) indent longestKeyLen
                       (fst kv) (snd kv)) o)
  | VArr a => emitIndexed (recurse (S depth)) indent longestKeyLen 0 a
  | _ => []
  end.

(** [toConf(json)] *)
Definition toConf (json : value) : str := recurse 0 json.

(** ** Includes

    [handleInclude] is an [async] method and [toJSON] calls it without
    [await]: the call runs up to its first [await] (the first step of
    [expandGlob]), where nothing has been merged yet, and the rest of its
    body runs after [toJSON] has returned.  [toJSON] records such a call in
    [detached]; [settleInclude] is the rest of the body. *)

(** The file-system collaborator. *)
Record Fs := {
  cwd : str;                          (* Deno.cwd() *)
  dirname : str -> str;               (* dirname(fileName) *)
  resolvePath : str -> str -> str;    (* resolve(root, pattern) *)
  expandGlob : str -> list str;       (* the paths yielded, in order *)
  readTextFile : str -> option str    (* None: no such file *)
}.

(** The fields of a [Parser] object. *)
Record instance := {
  fileName : option str;
  serverRoot : option str
}.

(** [new Parser()] *)
Definition newParser : instance := {| fileName := None; serverRoot := None |}.

(** [setFileName(fileName)] *)
Definition setFileName (fs : Fs) (this : instance) (name : str)
  : instance :=
  {| fileName := Some name;
     serverRoot := match serverRoot this with
                   | None => Some (dirname fs name)
                   | Some r => Some r
                   end |}.

(** [readConfigFile(fileName, options)], once its promise is settled. *)
Definition readConfigFile (fs : Fs) (this : instance) (name : str)
  (options : option ParserOptions)
  : instance * res (value * list includeCall) :=
  let this' := setFileName fs this name in
  let options :=
    match options with
    | Some o => o
    | None => {| parseIncludes := true; includesRoot := None;
                 ignoreIncludeErrors := false |}
    end in
  (this',
   match readTextFile fs name with
   | None => Throw NotFound
   | Some configString => parse configString (Some options)
   end).

(** [a || b] on strings that may be null. *)
Definition orElse (a : option str) (b : str) : str :=
  match a with
  | Some (c :: r) => c :: r
  | _ => b
  end.

(** [this.serverRoot || options.includesRoot || Deno.cwd()] *)
Definition searchRoot (fs : Fs) (this : instance) (options : ParserOptions)
  : str :=
  orElse (serverRoot this) (orElse (includesRoot options) (cwd fs)).

(** The pattern handed to [expandGlob]. *)
Definition findFilesOf (fs : Fs) (this : instance) (options : ParserOptions)
  (line : str) : str :=
  resolvePath fs (searchRoot fs this options)
    (trim (replaceFirst ";" "" (replaceFirst "include " "" line))).

(** [Object.entries(config)] *)
Definition entriesOf (config : value) : list (str * value) :=
  match config with
  | VObj o => o
  | VArr a => combine (map str_of_nat (seq 0 (length a))) a
  | _ => []
  end.

(** The loop over the entries of one included file; the object is mutated
    in place, so it is returned also when a step throws. *)
Fixpoint mergeEntries (json : value) (parent : str)
  (entries : list (str * value)) : value * option error :=
  match entries with
  | [] => (json, None)
  | (key, val) :: rest =>
      match appendValue json key val parent with
      | Ok (json', _) => mergeEntries json' parent rest
      | Throw e => (json, Some e)
      end
  end.

(** The loop over the matched files.  The third component collects the
    [handleInclude] calls the included files left running themselves. *)
Fixpoint mergeFiles (fs : Fs) (this : instance) (json : value)
  (parent : str) (files : list str)
  : value * option error * list includeCall :=
  match files with
  | [] => (json, None, [])
  | file :: rest =>
      let parser := {| fileName := None; serverRoot := serverRoot this |} in
      match snd (readConfigFile fs parser file None) with
      | Throw e => (json, Some e, [])
      | Ok (config, inner) =>
          match mergeEntries json parent (entriesOf config) with
          | (json', Some e) => (json', Some e, inner)
          | (json', None) =>
              let '(json'', err, inner') :=
                mergeFiles fs this json' parent rest in
              (json'', err, inner ++ inner')
          end
      end
  end.

(** The body of [handleInclude] after its first [await]: the object when
    the promise settles, and the reason if it is rejected. *)
Definition settleInclude (fs : Fs) (this : instance)
  (options : ParserOptions) (json : value) (call : includeCall)
  : value * option error * list includeCall :=
  let files := expandGlob fs (findFilesOf fs this options (ic_line call)) in
  match mergeFiles fs this json (ic_parent call) files with
  | (json', Some e, inner) => (json', Some e, inner)
  | (json', None, inner) =>
      match files with
      | [] => if ignoreIncludeErrors options then (json', None, inner)
              else (json', Some IncludeResolutionError, inner)
      | _ :: _ => (json', None, inner)
      end
  end.

End Parser.
Import Parser.

(* ================================================================= *)
(** * The typed schema: [types.ts]

    A field that may be missing at run time is an [option]; a number is an
    integer or NaN. *)

Module Schema.

Inductive num :=
| NaN
| Int (z : Z).

(** Truthiness of a number. *)
Definition numTruthy (n : num) : bool :=
  match n with
  | NaN => false
  | Int z => negb (z =? 0)%Z
  end.

(** [String(n)] *)
Definition numStr (n : num) : str :=
  match n with
  | NaN => "NaN"
  | Int z => str_of_Z z
  end.

Record UpstreamServer := {
  address : str;
  weight : option num;
  maxFails : option num;
  failTimeout : option str
}.

Record CacheConfig := {
  cache_enabled : bool;
  validTime : option str;
  cache_keys : option (list str);
  useStale : option (list str);
  minUses : option num;
  bypass : option (list str);
  noCache : option (list str);
  noStore : option (list str);
  cache_methods : option (list str)
}.

Record RateLimit := {
  rate : option str;
  burstSize : option num;
  nodelay : option bool
}.

Record SecurityHeaders := {
  xFrameOptions : option str;
  xContentTypeOptions : option bool;
  xXSSProtection : option bool;
  strictTransport : option bool;
  referrerPolicy : option str;
  contentSecurityPolicy : option (list str)
}.

Record Hsts := {
  hsts_enabled : bool;
  maxAge : option num;
  includeSubdomains : option bool;
  preload : option bool
}.

Record SSLConfig := {
  certificate : option str;
  certificateKey : option str;
  protocols : option (list str);
  forceRedirect : option bool;
  ciphers : option (list str);
  preferServerCiphers : option bool;
  dhParam : option str;
  ocspStapling : option bool;
  sessionTimeout : option str;
  sessionTickets : option bool;
  hsts : option Hsts
}.

Record WebSocketConfig := {
  ws_enabled : bool;
  ws_timeout : option num;
  keepaliveTimeout : option num
}.

Record Cors := {
  cors_enabled : bool;
  origins : option (list str);
  cors_methods : option (list str);
  cors_headers : option (list str);
  credentials : option bool
}.

Record MicroserviceRoute := {
  ms_path : str;
  ms_upstream : str;
  rewrite : option str;
  stripPath : option bool;
  ms_methods : option (list str);
  ms_cors : option Cors
}.

Record Php := {
  php_enabled : bool;
  socketPath : option str;
  extraParams : option (list (str * str))
}.

Record Location := {
  path : str;
  proxyPass : option str;
  root : option str;
  index : option str;
  try_files : option str;
  extraDirectives : option (list str);
  php : option Php;
  websocket : option WebSocketConfig;
  cache : option CacheConfig;
  rateLimit : option RateLimit;
  cors : option Cors
}.

(** [NginxConfig]; [upstreams] lists the entries of the object in the
    order of [Object.entries]. *)
Record NginxConfig := {
  domain : str;
  serverName : str;
  port : num;
  ssl : option SSLConfig;
  security : option SecurityHeaders;
  clientMaxBodySize : option str;
  upstreams : option (list (str * list UpstreamServer));
  gzip : option bool;
  gzipTypes : option (list str);
  microservices : option (list MicroserviceRoute);
  locations : list Location
}.

(** The object [parseServer] builds ([Record<string, unknown>]). *)
Record ServerConfig := {
  sc_serverName : option str;
  sc_domain : option str;
  sc_port : option num;
  sc_ssl : option SSLConfig;
  sc_clientMaxBodySize : option str;
  sc_gzip : option bool;
  sc_gzipTypes : option (list str);
  sc_security : option SecurityHeaders;
  sc_locations : option (list Location)
}.

(** [{}] at each type. *)
Definition emptySSL : SSLConfig :=
  {| certificate := None; certificateKey := None; protocols := None;
     forceRedirect := None; ciphers := None; preferServerCiphers := None;
     dhParam := None; ocspStapling := None; sessionTimeout := None;
     sessionTickets := None; hsts := None |}.

Definition emptySecurity : SecurityHeaders :=
  {| xFrameOptions := None; xContentTypeOptions := None;
     xXSSProtection := None; strictTransport := None;
     referrerPolicy := None; contentSecurityPolicy := None |}.

Definition emptyServer : ServerConfig :=
  {| sc_serverName := None; sc_domain := None; sc_port := None;
     sc_ssl := None; sc_clientMaxBodySize := None; sc_gzip := None;
     sc_gzipTypes := None; sc_security := None; sc_locations := None |}.

Definition emptyRateLimit : RateLimit :=
  {| rate := None; burstSize := None; nodelay := None |}.

(** [{ enabled: true }] *)
Definition enabledPhp : Php :=
  {| php_enabled := true; socketPath := None; extraParams := None |}.

Definition enabledCache : CacheConfig :=
  {| cache_enabled := true; validTime := None; cache_keys := None;
     useStale := None; minUses := None; bypass := None; noCache := None;
     noStore := None; cache_methods := None |}.

Definition enabledCors : Cors :=
  {| cors_enabled := true; origins := None; cors_methods := None;
     cors_headers := None; credentials := None |}.

(** [{ path }] *)
Definition locationAt (p : str) : Location :=
  {| path := p; proxyPass := None; root := None; index := None;
     try_files := None; extraDirectives := None; php := None;
     websocket := None; cache := None; rateLimit := None; cors := None |}.

End Schema.
Import Schema.

(* ================================================================= *)
(** * The extractor: [tools/nginx2json.ts] *)

Module Extract.

(** ** [NginxParser] *)

(** The property name a key denotes; [null] reads as ["null"]. *)
Definition keyName (key : option str) : str :=
  match key with
  | Some k => k
  | None => "null"
  end.

(** The insertion both kinds of entry use: promote to an array when the
    key is already there, push, or else assign. *)
Definition store (key : str) (v : value) (result : list (str * value))
  : list (str * value) :=
  match assoc key result with
  | Some (VArr a) => obj_set key (VArr (a ++ [v])) result
  | Some x => obj_set key (VArr [x; v]) result
  | None => obj_set key v result
  end.

(** The entry a [;] or a closing brace makes of the buffer. *)
Definition storeBuffer (buffer : str) (key : option str)
  (result : list (str * value)) : list (str * value) :=
  match trim buffer with
  | [] => result
  | c :: r =>
      let key := match key with None => Some "_directives" | k => k end in
      store (keyName key) (VStr (c :: r)) result
  end.

(** [parseBlock(text, start)], on the text from [start] on: the block and
    the text after it.  Every step of the loop uses one unit of [fuel];
    [None] is an exhausted [fuel]. *)
Fixpoint parseBlockLoop (fuel : nat) (text : str)
  (result : list (str * value)) (buffer : str) (key : option str)
  : option (value * str) :=
  match fuel with
  | O => None
  | S fuel' =>
      match text with
      | [] => Some (VObj result, [])
      | char :: rest =>
          if ceq char "{"%char then
            let '(key, buffer) :=
              match key, buffer with
              | None, _ :: _ => (Some (trim buffer), [])
              | _, _ => (key, buffer)
              end in
            match parseBlockLoop fuel' rest [] [] None with
            | None => None
            | Some (nestedResult, rest') =>
                parseBlockLoop fuel' rest'
                  (store (keyName key) nestedResult result) buffer None
            end
          else if ceq char "}"%char then
            Some (VObj (match buffer with
                        | [] => result
                        | _ :: _ => storeBuffer buffer key result
                        end), rest)
          else if ceq char ";"%char then
            parseBlockLoop fuel' rest (storeBuffer buffer key result) [] None
          else
            parseBlockLoop fuel' rest result (buffer ++ [char]) key
      end
  end.

Definition parseBlock (fuel : nat) (text : str) : option (value * str) :=
  parseBlockLoop fuel text [] [] None.

(** [.replace(/#.*$/gm, '')]: from a [#] up to the end of its line. *)
Definition isLineEnd (c : ascii) : bool :=
  ceq c "010"%char || ceq c "013"%char.

Fixpoint stripComments (inComment : bool) (l : str) : str :=
  match l with
  | [] => []
  | c :: r =>
      if inComment then
        if isLineEnd c then c :: stripComments false r
        else stripComments true r
      else if ceq c "#"%char then stripComments true r
      else c :: stripComments false r
  end.

(** [.replace(/\s+/g, ' ')] *)
Fixpoint collapseSpaces (inRun : bool) (l : str) : str :=
  match l with
  | [] => []
  | c :: r =>
      if is_ws c then
        if inRun then collapseSpaces true r
        else " "%char :: collapseSpaces true r
      else c :: collapseSpaces false r
  end.

(** [NginxParser.parse(configText)] *)
Definition parse (configText : str) : option value :=
  let configText := stripComments false configText in
  let configText := collapseSpaces false configText in
  match parseBlock (S (length configText)) configText with
  | Some (result, _) => Some result
  | None => None
  end.

(** ** [NginxToJSON] *)

(** [extractDomainFromServerName] *)
Definition extractDomainFromServerName (serverName : str) : str :=
  hd "" (split " "%char serverName).

(** [directive.split(' ', 2)[1]] *)
Definition secondOf (directive : str) : option str :=
  nth_error (splitLimit " "%char 2 directive) 1.

Definition setCertificate v (s : SSLConfig) : SSLConfig :=
  {| certificate := v; certificateKey := certificateKey s;
     protocols := protocols s; forceRedirect := forceRedirect s;
     ciphers := ciphers s; preferServerCiphers := preferServerCiphers s;
     dhParam := dhParam s; ocspStapling := ocspStapling s;
     sessionTimeout := sessionTimeout s; sessionTickets := sessionTickets s;
     hsts := hsts s |}.

Definition setCertificateKey v (s : SSLConfig) : SSLConfig :=
  {| certificate := certificate s; certificateKey := v;
     protocols := protocols s; forceRedirect := forceRedirect s;
     ciphers := ciphers s; preferServerCiphers := preferServerCiphers s;
     dhParam := dhParam s; ocspStapling := ocspStapling s;
     sessionTimeout := sessionTimeout s; sessionTickets := sessionTickets s;
     hsts := hsts s |}.

Definition setProtocols v (s : SSLConfig) : SSLConfig :=
  {| certificate := certificate s; certificateKey := certificateKey s;
     protocols := v; forceRedirect := forceRedirect s;
     ciphers := ciphers s; preferServerCiphers := preferServerCiphers s;
     dhParam := dhParam s; ocspStapling := ocspStapling s;
     sessionTimeout := sessionTimeout s; sessionTickets := sessionTickets s;
     hsts := hsts s |}.

Definition setCiphers v (s : SSLConfig) : SSLConfig :=
  {| certificate := certificate s; certificateKey := certificateKey s;
     protocols := protocols s; forceRedirect := forceRedirect s;
     ciphers := v; preferServerCiphers := preferServerCiphers s;
     dhParam := dhParam s; ocspStapling := ocspStapling s;
     sessionTimeout := sessionTimeout s; sessionTickets := sessionTickets s;
     hsts := hsts s |}.

Definition setPreferServerCiphers v (s : SSLConfig) : SSLConfig :=
  {| certificate := certificate s; certificateKey := certificateKey s;
     protocols := protocols s; forceRedirect := forceRedirect s;
     ciphers := ciphers s; preferServerCiphers := v;
     dhParam := dhParam s; ocspStapling := ocspStapling s;
     sessionTimeout := sessionTimeout s; sessionTickets := sessionTickets s;
     hsts := hsts s |}.

Definition setDhParam v (s : SSLConfig) : SSLConfig :=
  {| certificate := certificate s; certificateKey := certificateKey s;
     protocols := protocols s; forceRedirect := forceRedirect s;
     ciphers := ciphers s; preferServerCiphers := preferServerCiphers s;
     dhParam := v; ocspStapling := ocspStapling s;
     sessionTimeout := sessionTimeout s; sessionTickets := sessionTickets s;
     hsts := hsts s |}.

Definition setOcspStapling v (s : SSLConfig) : SSLConfig :=
  {| certificate := certificate s; certificateKey := certificateKey s;
     protocols := protocols s; forceRedirect := forceRedirect s;
     ciphers := ciphers s; preferServerCiphers := preferServerCiphers s;
     dhParam := dhParam s; ocspStapling := v;
     sessionTimeout := sessionTimeout s; sessionTickets := sessionTickets s;
     hsts := hsts s |}.

Definition setSessionTimeout v (s : SSLConfig) : SSLConfig :=
  {| certificate := certificate s; certificateKey := certificateKey s;
     protocols := protocols s; forceRedirect := forceRedirect s;
     ciphers := ciphers s; preferServerCiphers := preferServerCiphers s;
     dhParam := dhParam s; ocspStapling := ocspStapling s;
     sessionTimeout := v; sessionTickets := sessionTickets s;
     hsts := hsts s |}.

(** One iteration of the loop of [parseSSLConfig]. *)
Definition sslDirective (sslConfig : SSLConfig) (directive : str)
  : res SSLConfig :=
  if startsWith "ssl_certificate " directive then
    Ok (setCertificate (secondOf directive) sslConfig)
  else if startsWith "ssl_certificate_key " directive then
    Ok (setCertificateKey (secondOf directive) sslConfig)
  else if startsWith "ssl_protocols " directive then
    Ok (setProtocols (Some (tl (split " "%char directive))) sslConfig)
  else if startsWith "ssl_ciphers " directive then
    match secondOf directive with
    | Some c => Ok (setCiphers (Some (split ":"%char c)) sslConfig)
    | None => Throw TypeError
    end
  else if seqb directive "ssl_prefer_server_ciphers on" then
    Ok (setPreferServerCiphers (Some true) sslConfig)
  else if startsWith "ssl_dhparam " directive then
    Ok (setDhParam (secondOf directive) sslConfig)
  else if seqb directive "ssl_stapling on" then
    Ok (setOcspStapling (Some true) sslConfig)
  else if startsWith "ssl_session_timeout " directive then
    Ok (setSessionTimeout (secondOf directive) sslConfig)
  else Ok sslConfig.

(** [parseSSLConfig(directives)] *)
Definition parseSSLConfig (directives : list str) : res SSLConfig :=
  forEach sslDirective directives emptySSL.

(** Assignments to one field. *)
Definition set_path v (r : Location) : Location :=
  {| path := v; proxyPass := proxyPass r; root := root r; index := index r;
     try_files := try_files r; extraDirectives := extraDirectives r;
     php := php r; websocket := websocket r; cache := cache r;
     rateLimit := rateLimit r; cors := cors r |}.

Definition set_proxyPass v (r : Location) : Location :=
  {| path := path r; proxyPass := v; root := root r; index := index r;
     try_files := try_files r; extraDirectives := extraDirectives r;
     php := php r; websocket := websocket r; cache := cache r;
     rateLimit := rateLimit r; cors := cors r |}.

Definition set_root v (r : Location) : Location :=
  {| path := path r; proxyPass := proxyPass r; root := v; index := index r;
     try_files := try_files r; extraDirectives := extraDirectives r;
     php := php r; websocket := websocket r; cache := cache r;
     rateLimit := rateLimit r; cors := cors r |}.

Definition set_index v (r : Location) : Location :=
  {| path := path r; proxyPass := proxyPass r; root := root r; index := v;
     try_files := try_files r; extraDirectives := extraDirectives r;
     php := php r; websocket := websocket r; cache := cache r;
     rateLimit := rateLimit r; cors := cors r |}.

Definition set_try_files v (r : Location) : Location :=
  {| path := path r; proxyPass := proxyPass r; root := root r;
     index := index r; try_files := v; extraDirectives := extraDirectives r;
     php := php r; websocket := websocket r; cache := cache r;
     rateLimit := rateLimit r; cors := cors r |}.

Definition set_extraDirectives v (r : Location) : Location :=
  {| path := path r; proxyPass := proxyPass r; root := root r;
     index := index r; try_files := try_files r; extraDirectives := v;
     php := php r; websocket := websocket r; cache := cache r;
     rateLimit := rateLimit r; cors := cors r |}.

Definition set_php v (r : Location) : Location :=
  {| path := path r; proxyPass := proxyPass r; root := root r;
     index := index r; try_files := try_files r;
     extraDirectives := extraDirectives r; php := v;
     websocket := websocket r; cache := cache r; rateLimit := rateLimit r;
     cors := cors r |}.

Definition set_websocket v (r : Location) : Location :=
  {| path := path r; proxyPass := proxyPass r; root := root r;
     index := index r; try_files := try_files r;
     extraDirectives := extraDirectives r; php := php r; websocket := v;
     cache := cache r; rateLimit := rateLimit r; cors := cors r |}.

Definition set_cache v (r : Location) : Location :=
  {| path := path r; proxyPass := proxyPass r; root := root r;
     index := index r; try_files := try_files r;
     extraDirectives := extraDirectives r; php := php r;
     websocket := websocket r; cache := v; rateLimit := rateLimit r;
     cors := cors r |}.

Definition set_rateLimit v (r : Location) : Location :=
  {| path := path r; proxyPass := proxyPass r; root := root r;
     index := index r; try_files := try_files r;
     extraDirectives := extraDirectives r; php := php r;
     websocket := websocket r; cache := cache r; rateLimit := v;
     cors := cors r |}.

Definition set_cors v (r : Location) : Location :=
  {| path := path r; proxyPass := proxyPass r; root := root r;
     index := index r; try_files := try_files r;
     extraDirectives := extraDirectives r; php := php r;
     websocket := websocket r; cache := cache r; rateLimit := rateLimit r;
     cors := v |}.

Definition set_sc_serverName v (r : ServerConfig) : ServerConfig :=
  {| sc_serverName := v; sc_domain := sc_domain r; sc_port := sc_port r;
     sc_ssl := sc_ssl r; sc_clientMaxBodySize := sc_clientMaxBodySize r;
     sc_gzip := sc_gzip r; sc_gzipTypes := sc_gzipTypes r;
     sc_security := sc_security r; sc_locations := sc_locations r |}.

Definition set_sc_domain v (r : ServerConfig) : ServerConfig :=
  {| sc_serverName := sc_serverName r; sc_domain := v; sc_port := sc_port r;
     sc_ssl := sc_ssl r; sc_clientMaxBodySize := sc_clientMaxBodySize r;
     sc_gzip := sc_gzip r; sc_gzipTypes := sc_gzipTypes r;
     sc_security := sc_security r; sc_locations := sc_locations r |}.

Definition set_sc_port v (r : ServerConfig) : ServerConfig :=
  {| sc_serverName := sc_serverName r; sc_domain := sc_domain r;
     sc_port := v; sc_ssl := sc_ssl r;
     sc_clientMaxBodySize := sc_clientMaxBodySize r; sc_gzip := sc_gzip r;
     sc_gzipTypes := sc_gzipTypes r; sc_security := sc_security r;
     sc_locations := sc_locations r |}.

Definition set_sc_ssl v (r : ServerConfig) : ServerConfig :=
  {| sc_serverName := sc_serverName r; sc_domain := sc_domain r;
     sc_port := sc_port r; sc_ssl := v;
     sc_clientMaxBodySize := sc_clientMaxBodySize r; sc_gzip := sc_gzip r;
     sc_gzipTypes := sc_gzipTypes r; sc_security := sc_security r;
     sc_locations := sc_locations r |}.

Definition set_sc_clientMaxBodySize v (r : ServerConfig) : ServerConfig :=
  {| sc_serverName := sc_serverName r; sc_domain := sc_domain r;
     sc_port := sc_port r; sc_ssl := sc_ssl r; sc_clientMaxBodySize := v;
     sc_gzip := sc_gzip r; sc_gzipTypes := sc_gzipTypes r;
     sc_security := sc_security r; sc_locations := sc_locations r |}.

Definition set_sc_gzip v (r : ServerConfig) : ServerConfig :=
  {| sc_serverName := sc_serverName r; sc_domain := sc_domain r;
     sc_port := sc_port r; sc_ssl := sc_ssl r;
     sc_clientMaxBodySize := sc_clientMaxBodySize r; sc_gzip := v;
     sc_gzipTypes := sc_gzipTypes r; sc_security := sc_security r;
     sc_locations := sc_locations r |}.

Definition set_sc_gzipTypes v (r : ServerConfig) : ServerConfig :=
  {| sc_serverName := sc_serverName r; sc_domain := sc_domain r;
     sc_port := sc_port r; sc_ssl := sc_ssl r;
     sc_clientMaxBodySize := sc_clientMaxBodySize r; sc_gzip := sc_gzip r;
     sc_gzipTypes := v; sc_security := sc_security r;
     sc_locations := sc_locations r |}.

Definition set_sc_security v (r : ServerConfig) : ServerConfig :=
  {| sc_serverName := sc_serverName r; sc_domain := sc_domain r;
     sc_port := sc_port r; sc_ssl := sc_ssl r;
     sc_clientMaxBodySize := sc_clientMaxBodySize r; sc_gzip := sc_gzip r;
     sc_gzipTypes := sc_gzipTypes r; sc_security := v;
     sc_locations := sc_locations r |}.

Definition set_sc_locations v (r : ServerConfig) : ServerConfig :=
  {| sc_serverName := sc_serverName r; sc_domain := sc_domain r;
     sc_port := sc_port r; sc_ssl := sc_ssl r;
     sc_clientMaxBodySize := sc_clientMaxBodySize r; sc_gzip := sc_gzip r;
     sc_gzipTypes := sc_gzipTypes r; sc_security := sc_security r;
     sc_locations := v |}.

Definition set_xFrameOptions v (r : SecurityHeaders) : SecurityHeaders :=
  {| xFrameOptions := v; xContentTypeOptions := xContentTypeOptions r;
     xXSSProtection := xXSSProtection r;
     strictTransport := strictTransport r;
     referrerPolicy := referrerPolicy r;
     contentSecurityPolicy := contentSecurityPolicy r |}.

Definition set_xContentTypeOptions v (r : SecurityHeaders) : SecurityHeaders :=
  {| xFrameOptions := xFrameOptions r; xContentTypeOptions := v;
     xXSSProtection := xXSSProtection r;
     strictTransport := strictTransport r;
     referrerPolicy := referrerPolicy r;
     contentSecurityPolicy := contentSecurityPolicy r |}.

Definition set_xXSSProtection v (r : SecurityHeaders) : SecurityHeaders :=
  {| xFrameOptions := xFrameOptions r;
     xContentTypeOptions := xContentTypeOptions r; xXSSProtection := v;
     strictTransport := strictTransport r;
     referrerPolicy := referrerPolicy r;
     contentSecurityPolicy := contentSecurityPolicy r |}.

Definition set_strictTransport v (r : SecurityHeaders) : SecurityHeaders :=
  {| xFrameOptions := xFrameOptions r;
     xContentTypeOptions := xContentTypeOptions r;
     xXSSProtection := xXSSProtection r; strictTransport := v;
     referrerPolicy := referrerPolicy r;
     contentSecurityPolicy := contentSecurityPolicy r |}.

Definition set_referrerPolicy v (r : SecurityHeaders) : SecurityHeaders :=
  {| xFrameOptions := xFrameOptions r;
     xContentTypeOptions := xContentTypeOptions r;
     xXSSProtection := xXSSProtection r;
     strictTransport := strictTransport r; referrerPolicy := v;
     contentSecurityPolicy := contentSecurityPolicy r |}.

Definition set_contentSecurityPolicy v (r : SecurityHeaders) : SecurityHeaders :=
  {| xFrameOptions := xFrameOptions r;
     xContentTypeOptions := xContentTypeOptions r;
     xXSSProtection := xXSSProtection r;
     strictTransport := strictTransport r;
     referrerPolicy := referrerPolicy r; contentSecurityPolicy := v |}.

Definition set_cache_enabled v (r : CacheConfig) : CacheConfig :=
  {| cache_enabled := v; validTime := validTime r;
     cache_keys := cache_keys r; useStale := useStale r;
     minUses := minUses r; bypass := bypass r; noCache := noCache r;
     noStore := noStore r; cache_methods := cache_methods r |}.

Definition set_validTime v (r : CacheConfig) : CacheConfig :=
  {| cache_enabled := cache_enabled r; validTime := v;
     cache_keys := cache_keys r; useStale := useStale r;
     minUses := minUses r; bypass := bypass r; noCache := noCache r;
     noStore := noStore r; cache_methods := cache_methods r |}.

Definition set_cache_keys v (r : CacheConfig) : CacheConfig :=
  {| cache_enabled := cache_enabled r; validTime := validTime r;
     cache_keys := v; useStale := useStale r; minUses := minUses r;
     bypass := bypass r; noCache := noCache r; noStore := noStore r;
     cache_methods := cache_methods r |}.

Definition set_useStale v (r : CacheConfig) : CacheConfig :=
  {| cache_enabled := cache_enabled r; validTime := validTime r;
     cache_keys := cache_keys r; useStale := v; minUses := minUses r;
     bypass := bypass r; noCache := noCache r; noStore := noStore r;
     cache_methods := cache_methods r |}.

Definition set_minUses v (r : CacheConfig) : CacheConfig :=
  {| cache_enabled := cache_enabled r; validTime := validTime r;
     cache_keys := cache_keys r; useStale := useStale r; minUses := v;
     bypass := bypass r; noCache := noCache r; noStore := noStore r;
     cache_methods := cache_methods r |}.

Definition set_bypass v (r : CacheConfig) : CacheConfig :=
  {| cache_enabled := cache_enabled r; validTime := validTime r;
     cache_keys := cache_keys r; useStale := useStale r;
     minUses := minUses r; bypass := v; noCache := noCache r;
     noStore := noStore r; cache_methods := cache_methods r |}.

Definition set_noCache v (r : CacheConfig) : CacheConfig :=
  {| cache_enabled := cache_enabled r; validTime := validTime r;
     cache_keys := cache_keys r; useStale := useStale r;
     minUses := minUses r; bypass := bypass r; noCache := v;
     noStore := noStore r; cache_methods := cache_methods r |}.

Definition set_noStore v (r : CacheConfig) : CacheConfig :=
  {| cache_enabled := cache_enabled r; validTime := validTime r;
     cache_keys := cache_keys r; useStale := useStale r;
     minUses := minUses r; bypass := bypass r; noCache := noCache r;
     noStore := v; cache_methods := cache_methods r |}.

Definition set_cache_methods v (r : CacheConfig) : CacheConfig :=
  {| cache_enabled := cache_enabled r; validTime := validTime r;
     cache_keys := cache_keys r; useStale := useStale r;
     minUses := minUses r; bypass := bypass r; noCache := noCache r;
     noStore := noStore r; cache_methods := v |}.

Definition set_rate v (r : RateLimit) : RateLimit :=
  {| rate := v; burstSize := burstSize r; nodelay := nodelay r |}.

Definition set_burstSize v (r : RateLimit) : RateLimit :=
  {| rate := rate r; burstSize := v; nodelay := nodelay r |}.

Definition set_nodelay v (r : RateLimit) : RateLimit :=
  {| rate := rate r; burstSize := burstSize r; nodelay := v |}.

Definition set_cors_enabled v (r : Cors) : Cors :=
  {| cors_enabled := v; origins := origins r; cors_methods := cors_methods r;
     cors_headers := cors_headers r; credentials := credentials r |}.

Definition set_origins v (r : Cors) : Cors :=
  {| cors_enabled := cors_enabled r; origins := v;
     cors_methods := cors_methods r; cors_headers := cors_headers r;
     credentials := credentials r |}.

Definition set_cors_methods v (r : Cors) : Cors :=
  {| cors_enabled := cors_enabled r; origins := origins r; cors_methods := v;
     cors_headers := cors_headers r; credentials := credentials r |}.

Definition set_cors_headers v (r : Cors) : Cors :=
  {| cors_enabled := cors_enabled r; origins := origins r;
     cors_methods := cors_methods r; cors_headers := v;
     credentials := credentials r |}.

Definition set_credentials v (r : Cors) : Cors :=
  {| cors_enabled := cors_enabled r; origins := origins r;
     cors_methods := cors_methods r; cors_headers := cors_headers r;
     credentials := v |}.

Definition set_php_enabled v (r : Php) : Php :=
  {| php_enabled := v; socketPath := socketPath r;
     extraParams := extraParams r |}.

Definition set_socketPath v (r : Php) : Php :=
  {| php_enabled := php_enabled r; socketPath := v;
     extraParams := extraParams r |}.

Definition set_extraParams v (r : Php) : Php :=
  {| php_enabled := php_enabled r; socketPath := socketPath r;
     extraParams := v |}.

Definition is_hex (c : ascii) : bool :=
  is_digit c
  || ((97 <=? nat_of_ascii c)%nat && (nat_of_ascii c <=? 102)%nat)
  || ((65 <=? nat_of_ascii c)%nat && (nat_of_ascii c <=? 70)%nat).

Definition hexVal (c : ascii) : nat :=
  if is_digit c then nat_of_ascii c - 48
  else if (97 <=? nat_of_ascii c)%nat then nat_of_ascii c - 87
  else nat_of_ascii c - 55.

(** [parseInt(s)] without a radix. *)
Definition parseInt (s : str) : num :=
  let s := trimStart s in
  let '(negative, s) :=
    match s with
    | c :: r => if ceq c "-"%char then (true, r)
                else if ceq c "+"%char then (false, r)
                else (false, s)
    | [] => (false, s)
    end in
  let magnitude :=
    if startsWith "0x" s || startsWith "0X" s then
      match takeWhile is_hex (skipn 2 s) with
      | [] => None
      | ds => Some (fold_left
                      (fun acc c => (acc * 16 + N.of_nat (hexVal c))%N)
                      ds 0%N)
      end
    else
      match takeWhile is_digit s with
      | [] => None
      | ds => Some (N_of_digits ds)
      end in
  match magnitude with
  | None => NaN
  | Some n => Int (if negative then - Z.of_N n else Z.of_N n)
  end.

(** [s.match(/\d+/)]: the first run of digits, if any. *)
Definition firstDigits (s : str) : option str :=
  match takeWhile is_digit (dropWhile (fun c => negb (is_digit c)) s) with
  | [] => None
  | ds => Some ds
  end.

Definition isQuote (c : ascii) : bool :=
  ceq c "'"%char || ceq c "034"%char.

(** The replacement that deletes every single and double quote. *)
Definition stripQuotes (s : str) : str := removeChars isQuote s.

(** The replacement that deletes a quote at the start and a quote at the
    end. *)
Definition unquote (s : str) : str :=
  let s := match s with
           | c :: r => if isQuote c then r else s
           | [] => s
           end in
  match rev s with
  | c :: r => if isQuote c then rev r else s
  | [] => s
  end.

(** [.replace(/;$/, '')] *)
Definition dropFinalSemicolon (s : str) : str :=
  if endsWith ";" s then dropLast s else s.

(** [x ? x : [x]] on [_directives], each entry read as a string;
    [directive.split] of anything else throws. *)
Fixpoint asStrings (l : list value) : res (list str) :=
  match l with
  | [] => Ok []
  | VStr d :: r => ds <- asStrings r ;; Ok (d :: ds)
  | _ :: _ => Throw TypeError
  end.

Definition arrayOf (v : value) : list value :=
  match v with
  | VArr a => a
  | _ => [v]
  end.

(** Truthiness of a tree value. *)
Definition truthy (v : option value) : bool :=
  match v with
  | None => false
  | Some (VStr "") => false
  | Some (VNum O) => false
  | Some _ => true
  end.

Definition withDefault {A : Type} (d : A) (o : option A) : A :=
  match o with
  | Some a => a
  | None => d
  end.

(** One [part] of a [limit_req] directive. *)
Definition limitPart (rl : RateLimit) (part : str) : RateLimit :=
  if startsWith "rate=" part then set_rate (Some (skipn 5 part)) rl
  else if startsWith "burst=" part
  then set_burstSize (Some (parseInt (skipn 6 part))) rl
  else if seqb part "nodelay" then set_nodelay (Some true) rl
  else rl.

(** The [Access-Control-] branch. *)
Definition corsDirective (corsConfig : Cors) (directive : str)
  (parts : list str) : Cors :=
  let lastPart := stripQuotes (last parts "") in
  if includes "Allow-Origin" directive then
    set_origins (Some [lastPart]) corsConfig
  else if includes "Allow-Methods" directive then
    set_cors_methods (Some (map trim (split ","%char lastPart))) corsConfig
  else if includes "Allow-Headers" directive then
    set_cors_headers (Some (map trim (split ","%char lastPart))) corsConfig
  else if includes "Allow-Credentials" directive then
    set_credentials (Some (seqb lastPart "true")) corsConfig
  else corsConfig.

(** [/^(expires|add_header|access_log)/.test(directive)] *)
Definition isPassthrough (directive : str) : bool :=
  startsWith "expires" directive || startsWith "add_header" directive
  || startsWith "access_log" directive.

(** One iteration of the loop of [parseLocation]. *)
Definition locationDirective (location : Location) (directive : str)
  : Location :=
  let parts := split " "%char directive in
  if startsWith "root " directive then
    set_root (nth_error parts 1) location
  else if startsWith "index " directive then
    set_index (Some (join " " (tl parts))) location
  else if startsWith "try_files " directive then
    set_try_files (Some (join " " (tl parts))) location
  else if startsWith "proxy_pass " directive then
    set_proxyPass (nth_error parts 1) location
  else if startsWith "fastcgi_pass " directive then
    set_php (Some (set_socketPath (nth_error parts 1)
                     (withDefault enabledPhp (php location)))) location
  else if startsWith "proxy_cache_valid " directive then
    set_cache (Some (set_validTime (nth_error parts 1)
                       (withDefault enabledCache (cache location)))) location
  else if startsWith "proxy_cache_key " directive then
    set_cache (Some (set_cache_keys (Some (tl parts))
                       (withDefault enabledCache (cache location)))) location
  else if startsWith "proxy_cache_use_stale " directive then
    set_cache (Some (set_useStale (Some (tl parts))
                       (withDefault enabledCache (cache location)))) location
  else if startsWith "limit_req " directive then
    set_rateLimit
      (Some (fold_left limitPart (tl parts)
               (withDefault emptyRateLimit (rateLimit location)))) location
  else if startsWith "add_header Access-Control-" directive then
    set_cors (Some (corsDirective (withDefault enabledCors (cors location))
                      directive parts)) location
  else if isPassthrough directive then
    set_extraDirectives
      (Some (withDefault [] (extraDirectives location) ++ [directive]))
      location
  else location.

(** [parseLocation(locationData)] *)
Definition parseLocation (locationData : value) : res Location :=
  match get_prop locationData "location" with
  | Some (VStr l) =>
      let location := locationAt (hd "" (splitLimit " "%char 2 l)) in
      let directives := get_prop locationData "_directives" in
      if truthy directives then
        ds <- asStrings (arrayOf (withDefault (VStr "") directives)) ;;
        Ok (fold_left locationDirective ds location)
      else Ok location
  | _ => Throw TypeError
  end.

(** One iteration of the first loop of [parseServer]. *)
Definition serverDirective (config : ServerConfig) (directive : str)
  : res ServerConfig :=
  let parts := split " "%char directive in
  if startsWith "server_name " directive then
    let serverName := join " " (tl parts) in
    Ok (set_sc_domain (Some (extractDomainFromServerName serverName))
          (set_sc_serverName (Some serverName) config))
  else if startsWith "listen " directive then
    match nth_error parts 1 with
    | None => Throw TypeError
    | Some p =>
        match firstDigits p with
        | None => Throw TypeError
        | Some ds =>
            let config := set_sc_port (Some (parseInt ds)) config in
            if existsb (seqb "ssl") parts then
              match sc_ssl config with
              | None => Ok (set_sc_ssl (Some emptySSL) config)
              | Some _ => Ok config
              end
            else Ok config
        end
    end
  else if startsWith "client_max_body_size " directive then
    Ok (set_sc_clientMaxBodySize (nth_error parts 1) config)
  else if seqb directive "gzip on" then
    Ok (set_sc_gzip (Some true) config)
  else if startsWith "gzip_types " directive then
    Ok (set_sc_gzipTypes (Some (tl parts)) config)
  else Ok config.

(** One iteration of the security-header loop; the flag records that a key
    was assigned. *)
Definition headerDirective (acc : SecurityHeaders * bool) (directive : str)
  : SecurityHeaders * bool :=
  let '(securityHeaders, assigned) := acc in
  if startsWith "add_header " directive then
    let parts := split " "%char directive in
    let header := withDefault "" (nth_error parts 1) in
    let value := unquote (dropFinalSemicolon (join " " (skipn 2 parts))) in
    if seqb header "X-Frame-Options" then
      (set_xFrameOptions (Some value) securityHeaders, true)
    else if seqb header "X-Content-Type-Options" then
      (set_xContentTypeOptions (Some true) securityHeaders, true)
    else if seqb header "X-XSS-Protection" then
      (set_xXSSProtection (Some true) securityHeaders, true)
    else if seqb header "Referrer-Policy" then
      (set_referrerPolicy (Some value) securityHeaders, true)
    else if seqb header "Content-Security-Policy" then
      (set_contentSecurityPolicy
         (Some (map trim (split ";"%char value))) securityHeaders, true)
    else acc
  else acc.

(** [locations.map(loc => this.parseLocation(loc))] *)
Fixpoint mapLocations (locs : list value) : res (list Location) :=
  match locs with
  | [] => Ok []
  | l :: r =>
      x <- parseLocation l ;;
      xs <- mapLocations r ;;
      Ok (x :: xs)
  end.

(** [parseServer(serverData)] *)
Definition parseServer (serverData : value) : res ServerConfig :=
  let directives := get_prop serverData "_directives" in
  if truthy directives then
    ds <- asStrings (arrayOf (withDefault (VStr "") directives)) ;;
    config <- forEach serverDirective ds emptyServer ;;
    let sslDirectives := filter (startsWith "ssl_") ds in
    config <- match sslDirectives with
              | [] => Ok config
              | _ :: _ =>
                  sslConfig <- parseSSLConfig sslDirectives ;;
                  Ok (set_sc_ssl (Some sslConfig) config)
              end ;;
    let '(securityHeaders, assigned) :=
      fold_left headerDirective ds (emptySecurity, false) in
    let config := if assigned
                  then set_sc_security (Some securityHeaders) config
                  else config in
    match get_prop serverData "location" with
    | Some l =>
        locs <- mapLocations (arrayOf l) ;;
        Ok (set_sc_locations (Some locs) config)
    | None => Ok config
    end
  else Ok emptyServer.

(** What [convert] returns: one object, or an array of them. *)
Inductive converted :=
| One (config : ServerConfig)
| Many (configs : list ServerConfig).

Fixpoint mapServers (servers : list value) : res (list ServerConfig) :=
  match servers with
  | [] => Ok []
  | sv :: r =>
      x <- parseServer sv ;;
      xs <- mapServers r ;;
      Ok (x :: xs)
  end.

(** [convert(nginxConfig)]; the outer [option] is the fuel of
    [parseBlock]. *)
Definition convert (nginxConfig : str) : option (res converted) :=
  match parse nginxConfig with
  | None => None
  | Some parsed =>
      Some
        match get_prop parsed "server" with
        | None => Ok (One emptyServer)
        | Some sv =>
            configs <- mapServers (arrayOf sv) ;;
            match configs with
            | [c] => Ok (One c)
            | _ => Ok (Many configs)
            end
        end
  end.

End Extract.

(* ================================================================= *)
(** * The generator: [src/generator.ts] *)

Module Generator.

Definition nl : str := ["010"%char].
Definition dq : str := ["034"%char].

(** Truthiness of optional fields. *)
Definition truthyStr (o : option str) : bool :=
  match o with
  | Some (_ :: _) => true
  | _ => false
  end.

Definition truthyNum (o : option num) : bool :=
  match o with
  | Some n => numTruthy n
  | None => false
  end.

Definition truthyBool (o : option bool) : bool :=
  match o with
  | Some b => b
  | None => false
  end.

Definition present {A : Type} (o : option A) : bool :=
  match o with
  | Some _ => true
  | None => false
  end.

(** The text a template literal gives a field. *)
Definition tplStr (o : option str) : str :=
  match o with
  | Some s => s
  | None => "undefined"
  end.

Definition tplNum (o : option num) : str :=
  match o with
  | Some n => numStr n
  | None => "undefined"
  end.

(** [a || b] on strings. *)
Definition strOr (a : option str) (b : str) : str :=
  match a with
  | Some (c :: r) => c :: r
  | _ => b
  end.

(** [list?.join(' ') || dflt] *)
Definition joinOr (l : option (list str)) (dflt : str) : str :=
  strOr (option_map (join " ") l) dflt.

(** The body of [servers.forEach]: one line of an upstream block. *)
Definition serverLine (nginxConfig : str) (server : UpstreamServer) : str :=
  let serverConfig := "    server " ++ address server in
  let serverConfig :=
    if truthyNum (weight server)
    then serverConfig ++ " weight=" ++ tplNum (weight server)
    else serverConfig in
  let serverConfig :=
    if truthyNum (maxFails server)
    then serverConfig ++ " max_fails=" ++ tplNum (maxFails server)
    else serverConfig in
  let serverConfig :=
    if truthyStr (failTimeout server)
    then serverConfig ++ " fail_timeout=" ++ tplStr (failTimeout server)
    else serverConfig in
  nginxConfig ++ serverConfig ++ ";" ++ nl.

(** The body of the loop over [Object.entries(config.upstreams)]. *)
Definition upstreamEntry (nginxConfig : str)
  (entry : str * list UpstreamServer) : str :=
  let '(name, servers) := entry in
  let nginxConfig := nginxConfig ++ "upstream " ++ name ++ " {" ++ nl in
  let nginxConfig := fold_left serverLine servers nginxConfig in
  nginxConfig ++ "}" ++ nl ++ nl.

(** The redirect block. *)
Definition redirectText (config : NginxConfig) : str :=
  "server {" ++ nl
  ++ "    listen 80;" ++ nl
  ++ "    server_name " ++ serverName config ++ ";" ++ nl
  ++ "    return 301 https://$server_name$request_uri;" ++ nl
  ++ "}" ++ nl ++ nl.

Definition corsOriginsDefault : str := "*".
Definition corsMethodsDefault : str := "GET, POST, OPTIONS".
Definition corsHeadersDefault : str :=
  "DNT,X-CustomHeader,Keep-Alive,User-Agent,X-Requested-With,If-Modified-Since,Cache-Control,Content-Type".

Definition someEnabled (c : option Cors) : bool :=
  match c with
  | Some c => cors_enabled c
  | None => false
  end.

(** The location a microservice route is turned into. *)
Definition microserviceLocation (ms : MicroserviceRoute) : Location :=
  let extra : list str := [] in
  let extra :=
    if truthyStr (rewrite ms)
    then extra ++ ["rewrite " ++ tplStr (rewrite ms)] else extra in
  let extra :=
    if truthyBool (stripPath ms)
    then extra ++ ["rewrite ^/[^/]+/(.*) /$1 break"] else extra in
  let extra :=
    match ms_methods ms with
    | Some m => extra ++ ["limit_except " ++ join " " m ++ " { deny all; }"]
    | None => extra
    end in
  let extra :=
    match ms_cors ms with
    | Some c =>
        if cors_enabled c then
          let extra :=
            extra
            ++ ["add_header 'Access-Control-Allow-Origin' '"
                  ++ joinOr (origins c) corsOriginsDefault ++ "'";
                "add_header 'Access-Control-Allow-Methods' '"
                  ++ joinOr (cors_methods c) corsMethodsDefault ++ "'";
                "add_header 'Access-Control-Allow-Headers' '"
                  ++ joinOr (cors_headers c) corsHeadersDefault ++ "'"] in
          if truthyBool (credentials c)
          then extra
               ++ ["add_header 'Access-Control-Allow-Credentials' 'true'"]
          else extra
        else extra
    | None => extra
    end in
  {| path := ms_path ms;
     proxyPass := Some ("http://" ++ ms_upstream ms);
     root := None; index := None; try_files := None;
     extraDirectives := Some extra;
     php := None; websocket := None; cache := None; rateLimit := None;
     cors := None |}.

(** The body of [config.microservices.forEach]: [config.locations.push]. *)
Definition pushMicroservice (locs : list Location) (ms : MicroserviceRoute)
  : list Location :=
  locs ++ [microserviceLocation ms].

(** A conditional [locationConfig += text]. *)
Definition addIf (cond : bool) (text : str) (acc : str) : str :=
  if cond then acc ++ text else acc.

Definition line8 (text : str) : str := "        " ++ text ++ ";" ++ nl.

Definition listLine (name : str) (l : option (list str)) (acc : str) : str :=
  match l with
  | Some xs => acc ++ line8 (name ++ " " ++ join " " xs)
  | None => acc
  end.

(** The callback of [config.locations.map]: one location block. *)
Definition locationBlock (loc : Location) : str :=
  let locationConfig := "    location " ++ path loc ++ " {" ++ nl in
  let locationConfig :=
    addIf (truthyStr (proxyPass loc))
      (line8 ("proxy_pass " ++ tplStr (proxyPass loc))
       ++ line8 "proxy_set_header Host $host"
       ++ line8 "proxy_set_header X-Real-IP $remote_addr"
       ++ line8 "proxy_set_header X-Forwarded-For $proxy_add_x_forwarded_for"
       ++ line8 "proxy_set_header X-Forwarded-Proto $scheme")
      locationConfig in
  let locationConfig :=
    match websocket loc with
    | Some ws =>
        if ws_enabled ws then
          let acc :=
            locationConfig
            ++ line8 "proxy_http_version 1.1"
            ++ line8 "proxy_set_header Upgrade $http_upgrade"
            ++ line8 ("proxy_set_header Connection " ++ dq ++ "upgrade" ++ dq)
          in
          let acc :=
            addIf (truthyNum (ws_timeout ws))
              (line8 ("proxy_read_timeout " ++ tplNum (ws_timeout ws) ++ "s"))
              acc in
          addIf (truthyNum (keepaliveTimeout ws))
            (line8 ("proxy_send_timeout "
                    ++ tplNum (keepaliveTimeout ws) ++ "s")
             ++ line8 ("proxy_read_timeout "
                       ++ tplNum (keepaliveTimeout ws) ++ "s"))
            acc
        else locationConfig
    | None => locationConfig
    end in
  let locationConfig :=
    addIf (truthyStr (root loc)) (line8 ("root " ++ tplStr (root loc)))
      locationConfig in
  let locationConfig :=
    addIf (truthyStr (index loc)) (line8 ("index " ++ tplStr (index loc)))
      locationConfig in
  let locationConfig :=
    addIf (truthyStr (try_files loc))
      (line8 ("try_files " ++ tplStr (try_files loc))) locationConfig in
  let locationConfig :=
    match php loc with
    | Some p =>
        if php_enabled p then
          let acc :=
            locationConfig
            ++ line8 ("fastcgi_pass "
                      ++ strOr (socketPath p) "unix:/var/run/php/php-fpm.sock")
            ++ line8 "fastcgi_index index.php"
            ++ line8 "include fastcgi_params" in
          match extraParams p with
          | Some params =>
              fold_left
                (fun acc kv =>
                   acc ++ line8 ("fastcgi_param " ++ fst kv ++ " " ++ snd kv))
                params acc
          | None => acc
          end
        else locationConfig
    | None => locationConfig
    end in
  let locationConfig :=
    match cache loc with
    | Some c =>
        if cache_enabled c then
          let acc :=
            locationConfig
            ++ line8 ("proxy_cache_valid " ++ strOr (validTime c) "60m") in
          let acc := listLine "proxy_cache_key" (cache_keys c) acc in
          let acc := listLine "proxy_cache_use_stale" (useStale c) acc in
          let acc :=
            addIf (truthyNum (minUses c))
              (line8 ("proxy_cache_min_uses " ++ tplNum (minUses c))) acc in
          let acc := listLine "proxy_cache_bypass" (bypass c) acc in
          let acc := listLine "proxy_no_cache" (noCache c) acc in
          listLine "proxy_cache_methods" (cache_methods c) acc
        else locationConfig
    | None => locationConfig
    end in
  let locationConfig :=
    match cors loc with
    | Some c =>
        if cors_enabled c then
          let acc :=
            locationConfig
            ++ line8 ("add_header 'Access-Control-Allow-Origin' '"
                      ++ joinOr (origins c) corsOriginsDefault ++ "'")
            ++ line8 ("add_header 'Access-Control-Allow-Methods' '"
                      ++ joinOr (cors_methods c) corsMethodsDefault ++ "'")
            ++ line8 ("add_header 'Access-Control-Allow-Headers' '"
                      ++ joinOr (cors_headers c) corsHeadersDefault ++ "'") in
          addIf (truthyBool (credentials c))
            (line8 "add_header 'Access-Control-Allow-Credentials' 'true'") acc
        else locationConfig
    | None => locationConfig
    end in
  let locationConfig :=
    match rateLimit loc with
    | Some rl =>
        let acc :=
          locationConfig ++ "        limit_req zone=one rate="
          ++ tplStr (rate rl) in
        let acc :=
          if truthyNum (burstSize rl) then
            addIf (truthyBool (nodelay rl)) " nodelay"
              (acc ++ " burst=" ++ tplNum (burstSize rl))
          else acc in
        acc ++ ";" ++ nl
    | None => locationConfig
    end in
  let locationConfig :=
    match extraDirectives loc with
    | Some ds => locationConfig ++ join "" (map line8 ds)
    | None => locationConfig
    end in
  locationConfig ++ "    }" ++ nl.

(** The SSL directives of the main block. *)
Definition sslText (s : SSLConfig) (serverConfig : str) : str :=
  let acc :=
    serverConfig ++ nl
    ++ "    ssl_certificate " ++ tplStr (certificate s) ++ ";" ++ nl
    ++ "    ssl_certificate_key " ++ tplStr (certificateKey s) ++ ";" in
  let acc :=
    match protocols s with
    | Some l => acc ++ nl ++ "    ssl_protocols " ++ join " " l ++ ";"
    | None => acc
    end in
  let acc :=
    match ciphers s with
    | Some l => acc ++ nl ++ "    ssl_ciphers " ++ join ":" l ++ ";"
    | None => acc
    end in
  let acc :=
    addIf (truthyBool (preferServerCiphers s))
      (nl ++ "    ssl_prefer_server_ciphers on;") acc in
  let acc :=
    addIf (truthyStr (dhParam s))
      (nl ++ "    ssl_dhparam " ++ tplStr (dhParam s) ++ ";") acc in
  let acc :=
    addIf (truthyBool (ocspStapling s))
      (nl ++ "    ssl_stapling on;" ++ nl ++ "    ssl_stapling_verify on;")
      acc in
  let acc :=
    addIf (truthyStr (sessionTimeout s))
      (nl ++ "    ssl_session_timeout " ++ tplStr (sessionTimeout s) ++ ";")
      acc in
  let acc :=
    match sessionTickets s with
    | Some false => acc ++ nl ++ "    ssl_session_tickets off;"
    | _ => acc
    end in
  match hsts s with
  | Some h =>
      if hsts_enabled h then
        let hstsDirective :=
          nl ++ "    add_header Strict-Transport-Security " ++ dq
          ++ "max-age="
          ++ (if truthyNum (maxAge h) then tplNum (maxAge h)
              else "31536000") in
        let hstsDirective :=
          addIf (truthyBool (includeSubdomains h)) "; includeSubDomains"
            hstsDirective in
        let hstsDirective :=
          addIf (truthyBool (preload h)) "; preload" hstsDirective in
        acc ++ (hstsDirective ++ dq ++ ";")
      else acc
  | None => acc
  end.

(** The security headers of the main block. *)
Definition securityText (h : SecurityHeaders) (serverConfig : str) : str :=
  let acc :=
    addIf (truthyStr (xFrameOptions h))
      (nl ++ "    add_header X-Frame-Options " ++ dq
       ++ tplStr (xFrameOptions h) ++ dq ++ ";") serverConfig in
  let acc :=
    addIf (truthyBool (xContentTypeOptions h))
      (nl ++ "    add_header X-Content-Type-Options " ++ dq ++ "nosniff"
       ++ dq ++ ";") acc in
  let acc :=
    addIf (truthyBool (xXSSProtection h))
      (nl ++ "    add_header X-XSS-Protection " ++ dq ++ "1; mode=block"
       ++ dq ++ ";") acc in
  let acc :=
    addIf (truthyStr (referrerPolicy h))
      (nl ++ "    add_header Referrer-Policy " ++ dq
       ++ tplStr (referrerPolicy h) ++ dq ++ ";") acc in
  match contentSecurityPolicy h with
  | Some l =>
      acc ++ nl ++ "    add_header Content-Security-Policy " ++ dq
      ++ join "; " l ++ dq ++ ";"
  | None => acc
  end.

Definition gzipTypesDefault : str :=
  "text/plain text/css application/json application/javascript text/xml application/xml application/xml+rss text/javascript".

(** The main server block, given the text of the location blocks. *)
Definition mainServer (config : NginxConfig) (locations : str) : str :=
  let serverConfig :=
    "server {" ++ nl
    ++ "    listen " ++ numStr (port config)
    ++ (if present (ssl config) then " ssl" else "") ++ ";" ++ nl
    ++ "    server_name " ++ serverName config ++ ";" ++ nl in
  let serverConfig :=
    match ssl config with
    | Some s => sslText s serverConfig
    | None => serverConfig
    end in
  let serverConfig :=
    match security config with
    | Some h => securityText h serverConfig
    | None => serverConfig
    end in
  let serverConfig :=
    addIf (truthyStr (clientMaxBodySize config))
      (nl ++ "    client_max_body_size "
       ++ tplStr (clientMaxBodySize config) ++ ";") serverConfig in
  let serverConfig :=
    if truthyBool (gzip config) then
      let acc := serverConfig ++ nl ++ "    gzip on;" in
      match gzipTypes config with
      | Some l => acc ++ nl ++ "    gzip_types " ++ join " " l ++ ";"
      | None => acc ++ nl ++ "    gzip_types " ++ gzipTypesDefault ++ ";"
      end
    else serverConfig in
  serverConfig ++ nl ++ nl ++ locations ++ "}".

Definition setLocations (locs : list Location) (c : NginxConfig)
  : NginxConfig :=
  {| domain := domain c; serverName := serverName c; port := port c;
     ssl := ssl c; security := security c;
     clientMaxBodySize := clientMaxBodySize c; upstreams := upstreams c;
     gzip := gzip c; gzipTypes := gzipTypes c;
     microservices := microservices c; locations := locs |}.

Definition forcedRedirect (config : NginxConfig) : bool :=
  match ssl config with
  | Some s => truthyBool (forceRedirect s)
  | None => false
  end.

(** [generateNginxConfig(config)]: the returned text, and [config] as the
    call leaves it. *)
Definition generateNginxConfig (config : NginxConfig) : str * NginxConfig :=
  let nginxConfig : str := "" in
  let nginxConfig :=
    match upstreams config with
    | Some entries => fold_left upstreamEntry entries nginxConfig
    | None => nginxConfig
    end in
  let nginxConfig :=
    if forcedRedirect config then nginxConfig ++ redirectText config
    else nginxConfig in
  let config :=
    match microservices config with
    | Some routes =>
        setLocations (fold_left pushMicroservice routes (locations config))
          config
    | None => config
    end in
  let locations := join nl (map locationBlock (locations config)) in
  let serverConfig := mainServer config locations in
  (nginxConfig ++ serverConfig, config).

End Generator.
Import Generator.

(* ================================================================= *)
(** * Sample inputs *)

Module Samples.

(** A root file that includes two files with one [server] block each. *)
Definition rootConf : str :=
  "include conf.d/*.conf;" ++ nl.
Definition siteA : str :=
  "server {" ++ nl ++ "    listen 8080;" ++ nl ++ "}" ++ nl.
Definition siteB : str :=
  "server {" ++ nl ++ "    listen 8081;" ++ nl ++ "}" ++ nl.

(** A file system with the three files; only the pattern of [rootConf]
    matches anything. *)
Definition fs : Fs :=
  {| cwd := "/etc/nginx";
     dirname := fun _ => "/etc/nginx";
     resolvePath := fun root pattern => root ++ "/" ++ pattern;
     expandGlob := fun pattern =>
       if seqb pattern "/etc/nginx/conf.d/*.conf"
       then ["/etc/nginx/conf.d/a.conf"; "/etc/nginx/conf.d/b.conf"]
       else [];
     readTextFile := fun name =>
       if seqb name "/etc/nginx/nginx.conf" then Some rootConf
       else if seqb name "/etc/nginx/conf.d/a.conf" then Some siteA
       else if seqb name "/etc/nginx/conf.d/b.conf" then Some siteB
       else None |}.

Definition withIncludes : ParserOptions :=
  {| parseIncludes := true; includesRoot := None;
     ignoreIncludeErrors := false |}.

Definition lenient : ParserOptions :=
  {| parseIncludes := true; includesRoot := None;
     ignoreIncludeErrors := true |}.

(** The server block of the extraction example. *)
Definition apiServer : str :=
  "server { server_name api.example.com; listen 443 ssl; "
  ++ "ssl_certificate /etc/ssl/api.crt; "
  ++ "ssl_certificate_key /etc/ssl/api.key; }".

Definition apiServerBlock : value :=
  VObj [("_directives",
         VArr [VStr "server_name api.example.com";
               VStr "listen 443 ssl";
               VStr "ssl_certificate /etc/ssl/api.crt";
               VStr "ssl_certificate_key /etc/ssl/api.key"])].

(** A location block with a directive outside the vocabulary. *)
Definition wsLocation : value :=
  VObj [("location", VStr "/ws");
        ("_directives", VStr "proxy_read_timeout 90s")].

Definition wsServer : str :=
  "server { listen 80; location /ws { proxy_read_timeout 90s; } }".

(** A schema with one microservice route and no location. *)
Definition usersRoute : MicroserviceRoute :=
  {| ms_path := "/users"; ms_upstream := "users_service"; rewrite := None;
     stripPath := None; ms_methods := None; ms_cors := None |}.

Definition gateway : NginxConfig :=
  {| domain := "example.com"; serverName := "example.com"; port := Int 80;
     ssl := None; security := None; clientMaxBodySize := None;
     upstreams := None; gzip := None; gzipTypes := None;
     microservices := Some [usersRoute]; locations := [] |}.



(** A static site: one path rule, no route. *)
Definition plainSite : NginxConfig :=
  {| domain := "example.com"; serverName := "example.com"; port := Int 80;
     ssl := None; security := None; clientMaxBodySize := None;
     upstreams := None; gzip := Some true; gzipTypes := None;
     microservices := None;
     locations := [Extract.set_root (Some "/var/www") (locationAt "/")] |}.

End Samples.

(* ================================================================= *)
(** * Specifications *)

Module Spec.

(** ** Paths *)




(** ** Generated text, after the words of the specification *)

(** A clause that is there only when its field is. *)
Definition clause (label : str) (field : option str) : str :=
  match field with
  | Some text => label ++ text
  | None => ""
  end.

(** The rendering of a number field that is set and not zero. *)
Definition shownNum (field : option num) : option str :=
  match field with
  | Some n => if numTruthy n then Some (numStr n) else None
  | None => None
  end.

(** The text of a string field that is set and not empty. *)
Definition shownStr (field : option str) : option str :=
  match field with
  | Some (c :: r) => Some (c :: r)
  | _ => None
  end.

(** One server entry of a pool. *)
Definition specServerLine (server : UpstreamServer) : str :=
  "    server " ++ address server
  ++ clause " weight=" (shownNum (weight server))
  ++ clause " max_fails=" (shownNum (maxFails server))
  ++ clause " fail_timeout=" (shownStr (failTimeout server))
  ++ ";" ++ nl.

(** One upstream block. *)
Definition specUpstreamBlock (pool : str * list UpstreamServer) : str :=
  "upstream " ++ fst pool ++ " {" ++ nl
  ++ concat (map specServerLine (snd pool))
  ++ "}" ++ nl ++ nl.

(** The named pools of a schema. *)
Definition pools (config : NginxConfig) : list (str * list UpstreamServer) :=
  match upstreams config with
  | Some entries => entries
  | None => []
  end.

(** The routes of a schema. *)
Definition routes (config : NginxConfig) : list MicroserviceRoute :=
  match microservices config with
  | Some r => r
  | None => []
  end.

(** The path rules the main block renders: those of the schema, then one
    per microservice route. *)
Definition renderedLocations (config : NginxConfig) : list Location :=
  locations config ++ map microserviceLocation (routes config).

(** [needle] occurs in [text]. *)
Definition occursIn (needle text : str) : Prop :=
  exists before after, text = before ++ needle ++ after.

(** ** Text *)

(** Text that neither starts nor ends with white space. *)
Definition tight (l : str) : Prop :=
  match l with
  | [] => True
  | c :: _ => is_ws c = false /\ is_ws (last l c) = false
  end.

(** [c] does not occur in [l]. *)
Definition lacks (c : ascii) (l : str) : Prop :=
  forallb (fun x => negb (ceq x c)) l = true.


(** The characters of a directive name: no white space, no comment sign,
    brace, separator or sentinel. *)
Definition keyChar (c : ascii) : bool :=
  negb (is_ws c) && negb (ceq c "#"%char) && negb (ceq c "{"%char)
  && negb (ceq c "}"%char) && negb (ceq c ";"%char)
  && negb (ceq c "!"%char).

(** A directive name. *)
Definition cleanKey (k : str) : bool :=
  match k with
  | [] => false
  | _ :: _ => forallb keyChar k
  end.

(** The characters of an argument text: spaces, and anything that is not
    white space, a comment sign, a brace or a separator. *)
Definition valueChar (c : ascii) : bool :=
  (negb (is_ws c) || ceq c " "%char) && negb (ceq c "#"%char)
  && negb (ceq c "{"%char) && negb (ceq c "}"%char)
  && negb (ceq c ";"%char).

(** An argument text: it neither starts nor ends with a space. *)
Definition cleanValue (v : str) : bool :=
  forallb valueChar v
  && match v with
     | [] => true
     | c :: _ => negb (ceq c " "%char) && negb (ceq (last v c) " "%char)
     end.

(** The directive is not taken for an include. *)
Definition notInclude (options : ParserOptions) (k : str) : Prop :=
  parseIncludes options = false \/ startsWith "include" k = false.

(** ** Parser states *)

(** The state with a new tree and no buffered line. *)
Definition setJson (j : value) (st : state) : state :=
  {| json := j; parent := parent st; chunkedLine := None;
     countOfParentsThatAreArrays := countOfParentsThatAreArrays st;
     isInLuaBlock := isInLuaBlock st;
     luaBlockValue := luaBlockValue st;
     detached := detached st |}.

(** No buffered line, not inside a script block. *)
Definition calm (st : state) : Prop :=
  chunkedLine st = None /\ isInLuaBlock st = false.

(** The characters of a block name: those of a directive name, and
    spaces. *)
Definition blockChar (c : ascii) : bool := keyChar c || ceq c " "%char.

(** A block name: it neither starts nor ends with a space, and does not
    open a script block. *)
Definition cleanBlockKey (k : str) : bool :=
  match k with
  | [] => false
  | c :: _ =>
      forallb blockChar k
      && negb (ceq c " "%char) && negb (ceq (last k c) " "%char)
      && negb (endsWith "by_lua_block" (safeKey k))
  end.

(** ** Collision promotion *)

(** The elements a value contributes to a list. *)
Definition items (val : value) : list value :=
  match val with
  | VArr vs => vs
  | _ => [val]
  end.

(** What a key holds after [val] is appended to what it held. *)
Definition promote (existing : option value) (val : value) : value :=
  match existing with
  | None => val
  | Some (VArr a) => VArr (a ++ items val)
  | Some x => VArr (x :: items val)
  end.

(** Appending [val] under [k] in a block. *)
Definition appendTo (k : str) (val : value) (o : list (str * value))
  : list (str * value) :=
  obj_set k (promote (assoc k o) val) o.

(** ** A block inside a tree *)

(** One step from a block to its last entry, a nested block: the entries
    before it, and its name. *)
Definition frame : Type := list (str * value) * str.

(** The tree with [inner] at the end of the path that [ctx] describes. *)
Fixpoint plug (ctx : list frame) (inner : value) : value :=
  match ctx with
  | [] => inner
  | (before, k) :: rest => VObj (before ++ [(k, plug rest inner)])
  end.

(** The escaped segments of the path, and the path [parent] holds. *)
Definition segmentsOf (ctx : list frame) : list str :=
  map (fun f => safeKey (snd f)) ctx.

Definition pathOf (ctx : list frame) : str := join "." (segmentsOf ctx).

(** The path of the entry [k] of the block at [ctx]. *)
Definition entryPath (ctx : list frame) (k : str) : str :=
  match pathOf ctx with
  | [] => safeKey k
  | c :: p => (c :: p) ++ "." ++ safeKey k
  end.

(** The name is new in the entries before it, and is not the sentinel's
    victim. *)
Definition goodFrame (f : frame) : Prop :=
  assoc (snd f) (fst f) = None /\ snd f <> [] /\ lacks "!"%char (snd f).

(** ** Directives as text *)

(** A directive: its name and its argument text. *)
Definition directive : Type := str * str.







(** ** Nested blocks as text *)





(** The outer loop of [toJSON] over the lines of [text], from [st]. *)
Definition runText (options : ParserOptions) (st : state) (text : str)
  : res state :=
  forEach (outerLine options) (split "010"%char text) st.

(** ** Trees of blocks, scalars and lists of scalars *)

(** [wfValue k v]: [v] is an argument text, a list of at least two
    argument texts, or a block of such entries, and [k] is a name for it
    (for a list, not the reserved script key); [wfEntries o]: the entries
    of a block, with distinct names none of which is an array index. *)
Inductive wfValue : str -> value -> Prop :=
| wf_scalar : forall k v,
    cleanKey k = true -> cleanValue v = true -> wfValue k (VStr v)
| wf_list : forall k vs,
    cleanKey k = true -> seqb k "_lua" = false -> (2 <= length vs)%nat ->
    Forall (fun v => cleanValue v = true) vs ->
    wfValue k (VArr (map VStr vs))
| wf_block : forall k o,
    cleanBlockKey k = true -> wfEntries o -> wfValue k (VObj o)
with wfEntries : list (str * value) -> Prop :=
| wf_nil : wfEntries []
| wf_cons : forall k v o,
    arrayIndex k = None -> assoc k o = None ->
    wfValue k v -> wfEntries o -> wfEntries ((k, v) :: o).

Scheme wfValue_mut := Minimality for wfValue Sort Prop
  with wfEntries_mut := Minimality for wfEntries Sort Prop.


(** The state between two entries: no buffered line, no script block, no
    enclosing list. *)
Definition between (j : value) (p : str) (d : list includeCall) : state :=
  {| json := j; parent := p; chunkedLine := None;
     countOfParentsThatAreArrays := 0; isInLuaBlock := false;
     luaBlockValue := []; detached := d |}.


(** ** The tree as a pure function of the path *)

Definition lookupStep (prev : option value) (curr : str) : option value :=
  match prev with
  | Some p => if isObject p then get_prop p (unsafeKey curr) else None
  | None => None
  end.

Definition lookupFrom (prev : option value) (segments : list str)
  : option value :=
  fold_left lookupStep segments prev.

Definition lookup (tree : value) (path : str) : option value :=
  lookupFrom (Some tree) (split "."%char path).

(** ** The directive vocabulary of a location *)

(** The directive is claimed by one of the rules of [parseLocation]. *)
Definition recognized (directive : str) : bool :=
  startsWith "root " directive || startsWith "index " directive
  || startsWith "try_files " directive || startsWith "proxy_pass " directive
  || startsWith "fastcgi_pass " directive
  || startsWith "proxy_cache_valid " directive
  || startsWith "proxy_cache_key " directive
  || startsWith "proxy_cache_use_stale " directive
  || startsWith "limit_req " directive
  || startsWith "add_header Access-Control-" directive
  || Extract.isPassthrough directive.

(** ** Errors *)

(** The exceptions that arise inside the tree operations. *)
Definition internalError (e : error) : Prop :=
  e = TypeError \/ e = Unsupported.

(** A result that is a value or an internal exception. *)
Definition internal {A : Type} (r : res A) : Prop :=
  match r with
  | Ok _ => True
  | Throw e => internalError e
  end.

End Spec.
Import Spec.

(* ================================================================= *)
(** * Patterns

    The two anchored patterns of [validator.ts] use character classes,
    concatenation and repetition only; for such a pattern [RegExp.test]
    decides membership in its language, which [matches] decides with
    derivatives. *)

Module Pattern.

Inductive re :=
| Never
| Eps
| Chr (p : ascii -> bool)
| Cat (a b : re)
| Alt (a b : re)
| Star (a : re).

Fixpoint nullable (r : re) : bool :=
  match r with
  | Never => false
  | Eps => true
  | Chr _ => false
  | Cat a b => nullable a && nullable b
  | Alt a b => nullable a || nullable b
  | Star _ => true
  end.

(** The pattern of the texts [s] such that [c :: s] matches [r]. *)
Fixpoint deriv (c : ascii) (r : re) : re :=
  match r with
  | Never => Never
  | Eps => Never
  | Chr p => if p c then Eps else Never
  | Cat a b =>
      if nullable a then Alt (Cat (deriv c a) b) (deriv c b)
      else Cat (deriv c a) b
  | Alt a b => Alt (deriv c a) (deriv c b)
  | Star a => Cat (deriv c a) (Star a)
  end.

(** [/^r$/.test(s)] *)
Fixpoint matches (r : re) (s : str) : bool :=
  match s with
  | [] => nullable r
  | c :: s' => matches (deriv c r) s'
  end.

(** [a+] and [a{2,}] *)
Definition Plus (a : re) : re := Cat a (Star a).
Definition TwoOrMore (a : re) : re := Cat a (Cat a (Star a)).

Definition inRange (lo hi c : ascii) : bool :=
  (nat_of_ascii lo <=? nat_of_ascii c)%nat
  && (nat_of_ascii c <=? nat_of_ascii hi)%nat.

(** [[a-zA-Z]], [[a-zA-Z0-9]] *)
Definition is_alpha (c : ascii) : bool :=
  inRange "a" "z" c || inRange "A" "Z" c.
Definition is_alnum (c : ascii) : bool :=
  is_alpha c || inRange "0" "9" c.

End Pattern.

(* ================================================================= *)
(** * The validator: [src/validator.ts]

    The schema is typed, so every [typeof x !== "number"] test on a number
    field is false. *)

Module Validator.
Import Pattern.

Record ValidationError := {
  field : str;
  message : str
}.

(** [[a-zA-Z0-9-_.]] *)
Definition domainChar (c : ascii) : bool :=
  is_alnum c || ceq c "-"%char || ceq c "_"%char || ceq c "."%char.

(** [/^[a-zA-Z0-9][a-zA-Z0-9-_.]+\.[a-zA-Z]{2,}$/] *)
Definition domainPattern : re :=
  Cat (Chr is_alnum)
    (Cat (Plus (Chr domainChar))
       (Cat (Chr (ceq "."%char)) (TwoOrMore (Chr is_alpha)))).

(** [[smhd]] *)
Definition rateUnit (c : ascii) : bool :=
  ceq c "s"%char || ceq c "m"%char || ceq c "h"%char || ceq c "d"%char.

(** [/^\d+r\/[smhd]$/] *)
Definition ratePattern : re :=
  Cat (Plus (Chr is_digit))
    (Cat (Chr (ceq "r"%char)) (Cat (Chr (ceq "/"%char)) (Chr rateUnit))).

(** [isValidRateLimit(rate)]; a missing rate is tested as the text
    [undefined]. *)
Definition isValidRateLimit (rate : option str) : bool :=
  matches ratePattern (tplStr rate).

Definition sslProtocols : list str :=
  ["SSLv2"; "SSLv3"; "TLSv1"; "TLSv1.1"; "TLSv1.2"; "TLSv1.3"].

Definition frameOptions : list str := ["DENY"; "SAMEORIGIN"; "ALLOW-FROM"].

(** [list.includes(s)] *)
Definition isOneOf (list : list str) (s : str) : bool :=
  existsb (seqb s) list.

(** [n && (typeof n !== "number" || n < 0)] *)
Definition negative (n : option num) : bool :=
  match n with
  | Some (Int z) => negb (z =? 0)%Z && (z <? 0)%Z
  | _ => false
  end.

(** [typeof port !== "number" || port < 1 || port > 65535]; every
    comparison with NaN is false. *)
Definition badPort (n : num) : bool :=
  match n with
  | Int z => (z <? 1)%Z || (65535 <? z)%Z
  | NaN => false
  end.

(** A conditional [errors.push]. *)
Definition pushIf (cond : bool) (f m : str) : list ValidationError :=
  if cond then [{| field := f; message := m |}] else [].

(** [list.forEach((x, index) => ...)] collecting the pushes. *)
Fixpoint eachIndexed {A : Type} (f : nat -> A -> list ValidationError)
  (index : nat) (l : list A) : list ValidationError :=
  match l with
  | [] => []
  | x :: r => f index x ++ eachIndexed f (S index) r
  end.

Section Validate.

(** [new URL(str)] returns: the WHATWG parser is a collaborator. *)
Variable parsesAsUrl : str -> bool.

(** [isValidUrl(str)] *)
Definition isValidUrl (s : str) : bool :=
  if startsWith "unix:" s then true else parsesAsUrl s.

Definition sslErrors (s : SSLConfig) : list ValidationError :=
  pushIf (negb (truthyStr (certificate s)))
    "ssl.certificate" "SSL certificate path is required"
  ++ pushIf (negb (truthyStr (certificateKey s)))
       "ssl.certificateKey" "SSL certificate key path is required"
  ++ pushIf (match protocols s with
             | Some ps => negb (forallb (isOneOf sslProtocols) ps)
             | None => false
             end)
       "ssl.protocols" "Invalid SSL protocol specified"
  ++ pushIf (match hsts s with
             | Some h => negative (maxAge h)
             | None => false
             end)
       "ssl.hsts.maxAge" "HSTS max age must be a positive number".

(** The callback of [config.locations.forEach]. *)
Definition locationErrors (index : nat) (loc : Location)
  : list ValidationError :=
  let at_ (name : str) : str :=
    "locations[" ++ str_of_nat index ++ "]." ++ name in
  pushIf (match path loc with [] => true | _ :: _ => false end)
    (at_ "path") "Location path is required"
  ++ pushIf (truthyStr (proxyPass loc)
             && negb (isValidUrl (tplStr (proxyPass loc))))
       (at_ "proxyPass") "Invalid proxy_pass URL"
  ++ match rateLimit loc with
     | Some rl =>
         pushIf (negb (isValidRateLimit (rate rl)))
           (at_ "rateLimit.rate") "Invalid rate limit format (e.g., '10r/s')"
         ++ pushIf (negative (burstSize rl))
              (at_ "rateLimit.burstSize")
              "Burst size must be a positive number"
     | None => []
     end
  ++ match cache loc with
     | Some c =>
         if cache_enabled c
         then pushIf (negative (minUses c))
                (at_ "cache.minUses")
                "Cache min uses must be a positive number"
         else []
     | None => []
     end
  ++ match websocket loc with
     | Some ws =>
         if ws_enabled ws
         then pushIf (negative (ws_timeout ws))
                (at_ "websocket.timeout")
                "WebSocket timeout must be a positive number"
         else []
     | None => []
     end.

(** The callback of [servers.forEach] of one upstream. *)
Definition serverErrors (name : str) (index : nat) (server : UpstreamServer)
  : list ValidationError :=
  let at_ (field : str) : str :=
    "upstreams." ++ name ++ "[" ++ str_of_nat index ++ "]." ++ field in
  pushIf (match address server with [] => true | _ :: _ => false end)
    (at_ "address") "Server address is required"
  ++ pushIf (negative (weight server))
       (at_ "weight") "Weight must be a positive number"
  ++ pushIf (negative (maxFails server))
       (at_ "maxFails") "Max fails must be a positive number".

(** The callback of the loop over [Object.entries(config.upstreams)]. *)
Definition upstreamErrors (entry : str * list UpstreamServer)
  : list ValidationError :=
  let '(name, servers) := entry in
  match servers with
  | [] => pushIf true ("upstreams." ++ name)
            "Upstream must have at least one server"
  | _ :: _ => eachIndexed (serverErrors name) 0 servers
  end.

(** [validateConfig(config)] *)
Definition validateConfig (config : NginxConfig) : list ValidationError :=
  (match domain config with
   | [] => pushIf true "domain" "Domain is required"
   | _ :: _ =>
       pushIf (negb (matches domainPattern (domain config)))
         "domain" "Invalid domain format"
   end)
  ++ pushIf (match serverName config with [] => true | _ :: _ => false end)
       "serverName" "Server name is required"
  ++ pushIf (badPort (port config))
       "port" "Port must be a number between 1 and 65535"
  ++ (match ssl config with
      | Some s => sslErrors s
      | None => []
      end)
  ++ pushIf (match security config with
             | Some h =>
                 truthyStr (xFrameOptions h)
                 && negb (isOneOf frameOptions (tplStr (xFrameOptions h)))
             | None => false
             end)
       "security.xFrameOptions" "Invalid X-Frame-Options value"
  ++ (match locations config with
      | [] => pushIf true "locations"
                "At least one location block is required"
      | _ :: _ => eachIndexed locationErrors 0 (locations config)
      end)
  ++ (match upstreams config with
      | Some entries => concat (map upstreamErrors entries)
      | None => []
      end).

End Validate.

End Validator.

(* ================================================================= *)
(** * The templates: [src/templates.ts]

    The parameters are typed as the templates declare them. *)

Module Templates.

(** [Object.fromEntries]: each pair is assigned in turn, so a repeated key
    keeps its first position and takes the last value, and array-index keys
    come first. *)
Section Entries.
Variable A : Type.

Fixpoint find (k : str) (o : list (str * A)) : option A :=
  match o with
  | [] => None
  | (k', v) :: r => if seqb k k' then Some v else find k r
  end.

Fixpoint replace (k : str) (v : A) (o : list (str * A)) : list (str * A) :=
  match o with
  | [] => []
  | (k', v') :: r =>
      if seqb k k' then (k', v) :: r else (k', v') :: replace k v r
  end.

Fixpoint insert (k : str) (v : A) (o : list (str * A)) : list (str * A) :=
  match o with
  | [] => [(k, v)]
  | (k', v') :: r =>
      if key_before k k' then (k, v) :: o else (k', v') :: insert k v r
  end.

Definition assign (o : list (str * A)) (kv : str * A) : list (str * A) :=
  match find (fst kv) o with
  | Some _ => replace (fst kv) (snd kv) o
  | None => insert (fst kv) (snd kv) o
  end.

Definition fromEntries (pairs : list (str * A)) : list (str * A) :=
  fold_left assign pairs [].
End Entries.
Arguments find {A}.
Arguments replace {A}.
Arguments insert {A}.
Arguments assign {A}.
Arguments fromEntries {A}.

Definition emptyConfig : NginxConfig :=
  {| domain := ""; serverName := ""; port := NaN; ssl := None;
     security := None; clientMaxBodySize := None; upstreams := None;
     gzip := None; gzipTypes := None; microservices := None;
     locations := [] |}.

(** The [ssl] entry every template spreads in when [sslEnabled] is truthy. *)
Definition letsEncrypt (domain : str) (protocols : option (list str))
  : SSLConfig :=
  {| certificate := Some ("/etc/letsencrypt/live/" ++ domain
                          ++ "/fullchain.pem");
     certificateKey := Some ("/etc/letsencrypt/live/" ++ domain
                             ++ "/privkey.pem");
     protocols := protocols;
     forceRedirect := Some true;
     ciphers := None; preferServerCiphers := None; dhParam := None;
     ocspStapling := None; sessionTimeout := None; sessionTickets := None;
     hsts := None |}.

Definition sslOf (sslEnabled : option bool) (domain : str)
  (protocols : option (list str)) : option SSLConfig :=
  if truthyBool sslEnabled then Some (letsEncrypt domain protocols)
  else None.

(** [params.sslEnabled ? 443 : 80] *)
Definition portOf (sslEnabled : option bool) : num :=
  if truthyBool sslEnabled then Int 443 else Int 80.

Definition cacheDirectives : list str :=
  ["expires 30d"; "add_header Cache-Control public"].

(** A location with [path], [root], [index] and [try_files]. *)
Definition rootLocation (p rootPath indexFile tryFiles : str) : Location :=
  {| path := p; proxyPass := None; root := Some rootPath;
     index := Some indexFile; try_files := Some tryFiles;
     extraDirectives := None; php := None; websocket := None;
     cache := None; rateLimit := None; cors := None |}.

(** A location with [path], [root] and the two caching directives. *)
Definition assetsLocation (p rootPath : str) : Location :=
  {| path := p; proxyPass := None; root := Some rootPath;
     index := None; try_files := None;
     extraDirectives := Some cacheDirectives; php := None;
     websocket := None; cache := None; rateLimit := None; cors := None |}.

(** The [cors] entry of the [spa] and [microservices] templates. *)
Definition sameSiteCors (domain : str) : Cors :=
  {| cors_enabled := true;
     origins := Some ["https://" ++ domain];
     cors_methods := Some ["GET"; "POST"; "PUT"; "DELETE"; "OPTIONS"];
     cors_headers := Some ["Authorization"; "Content-Type"];
     credentials := Some true |}.

Record StaticParams := {
  st_domain : str;
  st_rootPath : str;
  st_sslEnabled : option bool
}.

(** [templates.static(params)] *)
Definition static (params : StaticParams) : NginxConfig :=
  {| domain := st_domain params;
     serverName := st_domain params ++ " www." ++ st_domain params;
     port := portOf (st_sslEnabled params);
     ssl := sslOf (st_sslEnabled params) (st_domain params) None;
     security := None; clientMaxBodySize := None; upstreams := None;
     gzip := Some true; gzipTypes := None; microservices := None;
     locations :=
       [rootLocation "/" (st_rootPath params) "index.html"
          "$uri $uri/ =404";
        assetsLocation "/assets" (st_rootPath params)] |}.

Record SpaParams := {
  spa_domain : str;
  spa_rootPath : str;
  spa_apiUrl : option str;
  spa_sslEnabled : option bool
}.

(** [templates.spa(params)] *)
Definition spa (params : SpaParams) : NginxConfig :=
  {| domain := spa_domain params;
     serverName := spa_domain params ++ " www." ++ spa_domain params;
     port := portOf (spa_sslEnabled params);
     ssl := sslOf (spa_sslEnabled params) (spa_domain params) None;
     security :=
       Some {| xFrameOptions := Some "DENY";
               xContentTypeOptions := Some true;
               xXSSProtection := Some true;
               strictTransport := None; referrerPolicy := None;
               contentSecurityPolicy := None |};
     clientMaxBodySize := None; upstreams := None;
     gzip := Some true; gzipTypes := None; microservices := None;
     locations :=
       [rootLocation "/" (spa_rootPath params) "index.html"
          "$uri $uri/ /index.html"]
       ++ (if truthyStr (spa_apiUrl params)
           then [{| path := "/api"; proxyPass := spa_apiUrl params;
                    root := None; index := None; try_files := None;
                    extraDirectives := None; php := None;
                    websocket := None; cache := None; rateLimit := None;
                    cors := Some (sameSiteCors (spa_domain params)) |}]
           else [])
       ++ [assetsLocation "/assets" (spa_rootPath params)] |}.

Record WordpressParams := {
  wp_domain : str;
  wp_rootPath : str;
  wp_phpVersion : option str;
  wp_sslEnabled : option bool
}.

(** The [php] entry of the [wordpress] template. *)
Definition fpm (phpVersion : option str) : Php :=
  {| php_enabled := true;
     socketPath := Some ("/var/run/php/php" ++ strOr phpVersion "8.1"
                         ++ "-fpm.sock");
     extraParams :=
       Some [("SCRIPT_FILENAME", "$document_root$fastcgi_script_name");
             ("PATH_INFO", "$fastcgi_path_info")] |}.

(** [templates.wordpress(params)] *)
Definition wordpress (params : WordpressParams) : NginxConfig :=
  {| domain := wp_domain params;
     serverName := wp_domain params ++ " www." ++ wp_domain params;
     port := portOf (wp_sslEnabled params);
     ssl := sslOf (wp_sslEnabled params) (wp_domain params) None;
     security := None;
     clientMaxBodySize := Some "64M";
     upstreams := None;
     gzip := Some true; gzipTypes := None; microservices := None;
     locations :=
       [{| path := "/"; proxyPass := None;
           root := Some (wp_rootPath params);
           index := Some "index.php";
           try_files := Some "$uri $uri/ /index.php?$args";
           extraDirectives := None;
           php := Some (fpm (wp_phpVersion params));
           websocket := None; cache := None; rateLimit := None;
           cors := None |};
        {| path := "~ \.php$"; proxyPass := None; root := None;
           index := None; try_files := None; extraDirectives := None;
           php := Some (fpm (wp_phpVersion params));
           websocket := None; cache := None; rateLimit := None;
           cors := None |};
        assetsLocation "/wp-content" (wp_rootPath params)] |}.

Record Service := {
  svc_name : str;
  svc_port : num;
  svc_path : str;
  svc_methods : option (list str);
  svc_corsEnabled : option bool
}.

Record MicroservicesParams := {
  mp_domain : str;
  mp_services : list Service;
  mp_sslEnabled : option bool
}.

(** The pair [[svc.name, [{ address }]]] *)
Definition serviceUpstream (svc : Service) : str * list UpstreamServer :=
  (svc_name svc,
   [{| address := "localhost:" ++ numStr (svc_port svc);
       weight := None; maxFails := None; failTimeout := None |}]).

(** The location of one service. *)
Definition serviceLocation (domain : str) (svc : Service) : Location :=
  {| path := svc_path svc;
     proxyPass := Some ("http://" ++ svc_name svc);
     root := None; index := None; try_files := None;
     extraDirectives :=
       match svc_methods svc with
       | Some m => Some ["limit_except " ++ join " " m ++ " { deny all; }"]
       | None => None
       end;
     php := None; websocket := None; cache := None; rateLimit := None;
     cors := if truthyBool (svc_corsEnabled svc)
             then Some (sameSiteCors domain) else None |}.

(** [templates.microservices(params)] *)
Definition microservices (params : MicroservicesParams) : NginxConfig :=
  {| domain := mp_domain params;
     serverName := mp_domain params;
     port := portOf (mp_sslEnabled params);
     ssl := sslOf (mp_sslEnabled params) (mp_domain params)
              (Some ["TLSv1.2"; "TLSv1.3"]);
     security :=
       Some {| xFrameOptions := Some "DENY";
               xContentTypeOptions := Some true;
               xXSSProtection := Some true;
               strictTransport := None;
               referrerPolicy := Some "strict-origin-when-cross-origin";
               contentSecurityPolicy := None |};
     clientMaxBodySize := None;
     upstreams :=
       Some (fromEntries (map serviceUpstream (mp_services params)));
     gzip := Some true; gzipTypes := None;
     microservices := None;
     locations :=
       map (serviceLocation (mp_domain params)) (mp_services params) |}.

End Templates.

(* ================================================================= *)
(** * The challenge server: [src/tools/challenge-server.ts] *)

Module Challenge.

(** The [Map] of challenges: its entries in insertion order. *)
Definition store : Type := list (str * str).

(** [challenges.get(token)] *)
Fixpoint get (token : str) (challenges : store) : option str :=
  match challenges with
  | [] => None
  | (k, v) :: r => if seqb token k then Some v else get token r
  end.

(** [challenges.set(token, response)] *)
Fixpoint set (token response : str) (challenges : store) : store :=
  match challenges with
  | [] => [(token, response)]
  | (k, v) :: r =>
      if seqb token k then (k, response) :: r
      else (k, v) :: set token response r
  end.

(** [challenges.delete(token)] *)
Definition delete (token : str) (challenges : store) : store :=
  filter (fun kv => negb (seqb token (fst kv))) challenges.

Definition addChallenge (token response : str) (challenges : store)
  : store :=
  set token response challenges.

Definition removeChallenge (token : str) (challenges : store) : store :=
  delete token challenges.

Record Response := {
  status : nat;
  body : str;
  contentType : option str
}.

(** [handler(req)], on [new URL(req.url).pathname]. *)
Definition handler (challenges : store) (pathname : str) : Response :=
  if negb (startsWith "/.well-known/acme-challenge/" pathname) then
    {| status := 404; body := "Not Found"; contentType := None |}
  else
    let token := last (split "/"%char pathname) "" in
    let missing :=
      {| status := 404; body := "Challenge not found";
         contentType := None |} in
    match token with
    | [] => missing
    | _ :: _ =>
        match get token challenges with
        | Some response =>
            {| status := 200; body := response;
               contentType := Some "text/plain" |}
        | None => missing
        end
    end.

End Challenge.

(* ================================================================= *)
(** * Writing a configuration file: [writeConfigFile]

    The file system is a collaborator: [statIsFile] is [Deno.stat] followed
    by [.isFile], [writeTextFile] is [Deno.writeTextFile], and [view] is
    what [readConfigFile] sees of the disk. *)

Module Files.

(** What [writeConfigFile] throws: its own [Error], or the error of a file
    system call. *)
Inductive failure :=
| FileExists
| Rethrown (e : error).

Inductive outcome (disk : Type) :=
| Written (d : disk)
| Failed (f : failure).
Arguments Written {disk} d.
Arguments Failed {disk} f.

(** [data]: a tree or a text. *)
Inductive payload :=
| Tree (json : value)
| Text (conf : str).

(** [typeof data === 'object' ? this.toConf(data) : data] *)
Definition contentOf (data : payload) : str :=
  match data with
  | Tree json => toConf json
  | Text conf => conf
  end.

Section Disk.

Variable disk : Type.
Variable view : disk -> Fs.
Variable statIsFile : disk -> str -> res bool.
Variable writeTextFile : disk -> str -> str -> res disk.

(** [writeConfigFile(fileName, data, overwrite)]: the parser object and
    the disk after the call, or what it throws. *)
Definition writeConfigFile (d : disk) (this : instance) (name : str)
  (data : payload) (overwrite : bool) : instance * outcome disk :=
  let this' := setFileName (view d) this name in
  let write :=
    match writeTextFile d name (contentOf data) with
    | Ok d' => Written d'
    | Throw e => Failed (Rethrown e)
    end in
  (this',
   match statIsFile d name with
   | Ok isFile => if isFile && negb overwrite then Failed FileExists else write
   | Throw NotFound => write
   | Throw e => Failed (Rethrown e)
   end).

End Disk.

(** A disk of plain files, as a list of names and contents. *)
Definition plainDisk : Type := list (str * str).

Fixpoint content (name : str) (d : plainDisk) : option str :=
  match d with
  | [] => None
  | (k, v) :: r => if seqb name k then Some v else content name r
  end.

(** The directory part of a name. *)
Definition dirOf (name : str) : str :=
  join "/" (removelast (split "/"%char name)).

Definition plainView (d : plainDisk) : Fs :=
  {| cwd := "/";
     dirname := dirOf;
     resolvePath := fun root pattern => root ++ "/" ++ pattern;
     expandGlob := fun pattern =>
       match content pattern d with Some _ => [pattern] | None => [] end;
     readTextFile := fun name => content name d |}.

Definition plainStat (d : plainDisk) (name : str) : res bool :=
  match content name d with
  | Some _ => Ok true
  | None => Throw NotFound
  end.

Definition plainWrite (d : plainDisk) (name text : str) : res plainDisk :=
  Ok ((name, text) :: d).

End Files.

(* ================================================================= *)
(** * The HTTP handlers: [src/server.ts] *)

Module Server.

(** The file every handler works on. *)
Definition configFile : str := "/etc/nginx/nginx.conf".

(** [parser.toJSON(conf)] on whatever value [conf] is.  [toJSON] begins
    with [conf.replace('\t', '')]: on a string that is the replacement; on
    an object or an array [conf.replace] is a missing property or an entry
    of the configuration, on a number it is missing, and the call throws. *)
Definition toJSONOf (conf : value) : res (value * list includeCall) :=
  match conf with
  | VStr s => toJSON s noOptions
  | _ => Throw TypeError
  end.

(** The [try] block of the handler of [GET /api/nginx/config]: the parser
    object after it, and the data of the response body or what is thrown
    into the [catch] clause (which throws in its turn). *)
Definition readConfig (fs : Fs) (this : instance) : instance * res value :=
  let '(this', r) := readConfigFile fs this configFile None in
  (this',
   '(config, _) <- r ;;
   '(jsonConfig, _) <- toJSONOf config ;;
   Ok jsonConfig).

(** The [try] block of the handler of [GET /api/nginx/config/:block], up
    to the lookup of the block. *)
Definition readBlock (fs : Fs) (this : instance) (blockName : str)
  : instance * res (option value) :=
  let '(this', r) := readConfigFile fs this configFile None in
  (this',
   '(config, _) <- r ;;
   '(jsonConfig, _) <- toJSONOf config ;;
   Ok (get_prop jsonConfig blockName)).

End Server.

(* ================================================================= *)
(** * Specifications of the added code *)

Module Props.
Import Pattern.


(** The texts a pattern denotes. *)
Inductive lang : re -> str -> Prop :=
| lang_eps : lang Eps []
| lang_chr : forall (p : ascii -> bool) c, p c = true -> lang (Chr p) [c]
| lang_cat : forall a b s t, lang a s -> lang b t -> lang (Cat a b) (s ++ t)
| lang_alt_l : forall a b s, lang a s -> lang (Alt a b) s
| lang_alt_r : forall a b s, lang b s -> lang (Alt a b) s
| lang_star_nil : forall a, lang (Star a) []
| lang_star_app : forall a s t,
    lang a s -> lang (Star a) t -> lang (Star a) (s ++ t).

(** A block as [NginxParser] builds it: under every key other than
    [_directives] there is a block, or a list of one or more blocks. *)
Fixpoint blockShaped (v : value) : bool :=
  match v with
  | VObj o =>
      forallb (fun kv =>
                 seqb (fst kv) "_directives"
                 || match snd kv with
                    | VObj _ => blockShaped (snd kv)
                    | VArr (x :: a) => forallb blockShaped (x :: a)
                    | _ => false
                    end) o
  | _ => false
  end.

Definition shapedEntry (kv : str * value) : bool :=
  seqb (fst kv) "_directives"
  || match snd kv with
     | VObj _ => blockShaped (snd kv)
     | VArr (x :: a) => forallb blockShaped (x :: a)
     | _ => false
     end.

(** What [convert] returns holds no location. *)
Definition withoutLocations (r : res Extract.converted) : Prop :=
  match r with
  | Ok (Extract.One config) => sc_locations config = None
  | Ok (Extract.Many configs) =>
      Forall (fun config => sc_locations config = None) configs
  | Throw e => e = TypeError
  end.

(** ** Directives as [NginxParser] reads them *)

Definition plainChar (c : ascii) : bool :=
  negb (is_ws c) && negb (ceq c "#"%char) && negb (ceq c ";"%char)
  && negb (ceq c "{"%char) && negb (ceq c "}"%char).

(** Words of plain characters, one space between two words. *)
Fixpoint spaced (d : str) : bool :=
  match d with
  | [] => false
  | c :: r =>
      plainChar c
      && match r with
         | [] => true
         | s :: r' => if ceq s " "%char then spaced r' else spaced r
         end
  end.

(** A server block with the directives [ds]. *)
Definition serverText (ds : list str) : str :=
  "server {" ++ concat (map (fun d => " " ++ d ++ ";") ds) ++ " }".

(** The block of the directives [ds]. *)
Definition listed (ds : list str) : value :=
  VObj match ds with
       | [] => []
       | [d] => [("_directives", VStr d)]
       | _ :: _ :: _ => [("_directives", VArr (map VStr ds))]
       end.

(** ** Script blocks *)

(** The name of a script block: a block name that ends with
    [by_lua_block]. *)
Definition scriptKey (k : str) : bool :=
  match k with
  | [] => false
  | c :: _ =>
      forallb blockChar k
      && negb (ceq c " "%char) && negb (ceq (last k c) " "%char)
      && endsWith "by_lua_block" (safeKey k)
  end.

(** A character of a script line that the splitting of lines leaves
    alone: no comment sign, brace, line feed or tab. *)
Definition scriptChar (c : ascii) : bool :=
  negb (ceq c "#"%char) && negb (ceq c "{"%char) && negb (ceq c "}"%char)
  && negb (ceq c "010"%char) && negb (ceq c "009"%char).

(** A line of a script block: not empty, no white space at either end. *)
Definition scriptLine (l : str) : bool :=
  match l with
  | [] => false
  | c :: _ =>
      forallb scriptChar l && negb (is_ws c) && negb (is_ws (last l c))
  end.

(** The tree of one script block at the top level. *)
Definition scriptTree (k : str) (ls : list str) : value :=
  VObj [(k, VObj [("_lua", VArr (map VStr ls))])].

(** ** Blocks inside a server block *)

(** The text of blocks that hold directives only, each a name and its
    directives. *)
Definition blocksText (blocks : list (str * list str)) : str :=
  concat (map (fun b => " " ++ fst b ++ " {"
                        ++ concat (map (fun d => " " ++ d ++ ";") (snd b))
                        ++ " }") blocks).

(** A server block with the directives [ds] followed by [blocks]. *)
Definition serverWith (ds : list str) (blocks : list (str * list str))
  : str :=
  "server {" ++ concat (map (fun d => " " ++ d ++ ";") ds)
  ++ blocksText blocks ++ " }".

(** A block whose name has an argument, as in [location /api]: the name
    is neither [location] alone nor the key of the directives. *)
Definition namedBlock (b : str * list str) : Prop :=
  spaced (fst b) = true /\ seqb "location" (fst b) = false
  /\ seqb "_directives" (fst b) = false
  /\ Forall (fun d => spaced d = true) (snd b).

(** A word: plain characters, at least one. *)
Definition word (w : str) : bool :=
  match w with
  | [] => false
  | _ :: _ => forallb plainChar w
  end.

End Props.
Import Pattern Props.

(* ================================================================= *)
(** * Extraction: the worked example *)

(** C7.  The server block [server_name api.example.com; listen 443 ssl;
    ssl_certificate /etc/ssl/api.crt; ssl_certificate_key
    /etc/ssl/api.key;] extracts, from its text through [convert] and from
    its parsed block through [parseServer], to one schema with domain
    api.example.com, port 443 and an SSL facet with both paths set and
    neither protocols nor ciphers. *)
Theorem extraction_of_api_server :
  exists (config : ServerConfig) (sslConfig : SSLConfig),
    Extract.convert Samples.apiServer = Some (Ok (Extract.One config))
    /\ Extract.parse Samples.apiServer
       = Some (VObj [("server", Samples.apiServerBlock)])
    /\ Extract.parseServer Samples.apiServerBlock = Ok config
    /\ sc_domain config = Some "api.example.com"
    /\ sc_port config = Some (Int 443)
    /\ sc_ssl config = Some sslConfig
    /\ certificate sslConfig = Some "/etc/ssl/api.crt"
    /\ certificateKey sslConfig = Some "/etc/ssl/api.key"
    /\ protocols sslConfig = None
    /\ ciphers sslConfig = None.
Proof.
  eexists. eexists.
  split; [vm_compute; reflexivity|].
  repeat split; vm_compute; reflexivity.
Qed.

(* ================================================================= *)
(** * Facts about text *)

Lemma ceq_refl (c : ascii) : ceq c c = true.
Proof. apply Ascii.eqb_refl. Qed.

Lemma ceq_eq (a b : ascii) : ceq a b = true <-> a = b.
Proof. apply Ascii.eqb_eq. Qed.

Lemma ceq_neq (a b : ascii) : ceq a b = false <-> a <> b.
Proof. apply Ascii.eqb_neq. Qed.

Lemma ceq_sym_false (a b : ascii) : ceq a b = false -> ceq b a = false.
Proof. unfold ceq. now rewrite Ascii.eqb_sym. Qed.

Lemma seqb_refl (a : str) : seqb a a = true.
Proof. induction a; cbn; [reflexivity|]. now rewrite ceq_refl. Qed.

Lemma seqb_eq (a b : str) : seqb a b = true <-> a = b.
Proof.
  split.
  - revert b. induction a as [|x a IH]; intros [|y b] H; cbn in H;
      try discriminate; [reflexivity|].
    apply andb_true_iff in H. destruct H as [H1 H2].
    apply ceq_eq in H1. subst. f_equal. now apply IH.
  - intros ->. apply seqb_refl.
Qed.


Lemma startsWith_app (p l : str) : startsWith p (p ++ l) = true.
Proof. induction p; cbn; [reflexivity|]. now rewrite ceq_refl. Qed.

Lemma includes_app (p a b : str) : includes p (a ++ p ++ b) = true.
Proof.
  induction a as [|c a IH].
  - cbn [app]. destruct (p ++ b) eqn:E; cbn [includes];
      rewrite <- E, startsWith_app; reflexivity.
  - cbn [app includes]. rewrite IH. apply orb_true_r.
Qed.

Lemma is_ws_space : is_ws " "%char = true.
Proof. reflexivity. Qed.

Lemma dropWhile_app_all (p : ascii -> bool) (a b : str) :
  forallb p a = true -> dropWhile p (a ++ b) = dropWhile p b.
Proof.
  induction a as [|c a IH]; cbn; [reflexivity|].
  intros H. apply andb_true_iff in H. destruct H as [-> H]. auto.
Qed.

Lemma dropWhile_head (p : ascii -> bool) (c : ascii) (l : str) :
  p c = false -> dropWhile p (c :: l) = c :: l.
Proof. intros H. cbn. now rewrite H. Qed.

Lemma trimEnd_snoc (l : str) (c : ascii) :
  is_ws c = false -> trimEnd (l ++ [c]) = l ++ [c].
Proof.
  intros H. unfold trimEnd. rewrite rev_app_distr. cbn [rev app].
  rewrite dropWhile_head by assumption.
  cbn [rev]. now rewrite rev_involutive.
Qed.

Lemma trimEnd_tight (l : str) : tight l -> trimEnd l = l.
Proof.
  destruct l as [|c l]; [reflexivity|]. intros [_ H].
  destruct (@exists_last _ (c :: l)) as [l' [d E]]; [discriminate|].
  rewrite E in *. rewrite last_last in H. now apply trimEnd_snoc.
Qed.

Lemma trim_tight (l : str) : tight l -> trim l = l.
Proof.
  intros H. unfold trim, trimStart.
  destruct l as [|c l]; [reflexivity|].
  rewrite dropWhile_head by apply H. now apply trimEnd_tight.
Qed.

(** Leading white space goes. *)
Lemma trim_lead (ws l : str) :
  forallb is_ws ws = true -> trim (ws ++ l) = trim l.
Proof.
  intros H. unfold trim, trimStart. now rewrite dropWhile_app_all.
Qed.


Lemma tight_snoc (c d : ascii) (l : str) :
  is_ws c = false -> is_ws d = false -> tight (c :: l ++ [d]).
Proof.
  intros Hc Hd. split; [assumption|].
  change (c :: l ++ [d]) with ((c :: l) ++ [d]). now rewrite last_last.
Qed.

Lemma lacks_cons (c x : ascii) (l : str) :
  lacks c (x :: l) <-> ceq x c = false /\ lacks c l.
Proof.
  unfold lacks. cbn. rewrite andb_true_iff, negb_true_iff. tauto.
Qed.

Lemma lacks_app (c : ascii) (a b : str) :
  lacks c (a ++ b) <-> lacks c a /\ lacks c b.
Proof. unfold lacks. rewrite forallb_app, andb_true_iff. tauto. Qed.

Lemma lacks_nil (c : ascii) : lacks c [].
Proof. reflexivity. Qed.

Lemma split_lacks (sep : ascii) (l : str) : lacks sep l -> split sep l = [l].
Proof.
  induction l as [|c l IH]; [reflexivity|].
  intros H. apply lacks_cons in H. destruct H as [H1 H2].
  cbn. rewrite H1, IH by assumption. reflexivity.
Qed.

Lemma split_app (sep : ascii) (a b : str) :
  lacks sep a -> split sep (a ++ sep :: b) = a :: split sep b.
Proof.
  induction a as [|c a IH]; intros H.
  - cbn. now rewrite ceq_refl.
  - apply lacks_cons in H. destruct H as [H1 H2].
    cbn. rewrite H1, IH by assumption. reflexivity.
Qed.



Lemma replaceFirst_lacks (c : ascii) (rep l : str) :
  lacks c l -> replaceFirst [c] rep l = l.
Proof.
  induction l as [|x l IH]; intros H; [reflexivity|].
  apply lacks_cons in H. destruct H as [H1 H2].
  cbn. rewrite ceq_sym_false by assumption. cbn. now rewrite IH.
Qed.

Lemma startsWith_cons_false (c x : ascii) (p l : str) :
  ceq c x = false -> startsWith (c :: p) (x :: l) = false.
Proof. intros H. cbn. now rewrite H. Qed.

Lemma endsWith_snoc (l : str) (c : ascii) : endsWith [c] (l ++ [c]) = true.
Proof.
  unfold endsWith. rewrite rev_app_distr. cbn. now rewrite ceq_refl.
Qed.

Lemma endsWith_snoc_other (l : str) (c d : ascii) :
  ceq c d = false -> endsWith [c] (l ++ [d]) = false.
Proof.
  intros H. unfold endsWith. rewrite rev_app_distr. cbn. now rewrite H.
Qed.

Lemma dropLast_snoc (l : str) (c : ascii) : dropLast (l ++ [c]) = l.
Proof. apply removelast_last. Qed.

(** The three replacements on a line without braces that ends with its
    only [;]. *)
Lemma braceLines_lacks (l ws : str) :
  lacks "{"%char l -> braceLines ws l = ws ++ l.
Proof.
  revert ws. induction l as [|c l IH]; intros ws H.
  - cbn. now rewrite app_nil_r.
  - apply lacks_cons in H. destruct H as [H1 H2]. cbn [braceLines].
    destruct (is_ws c).
    + rewrite IH by assumption. now rewrite <- app_assoc.
    + rewrite H1. cbn [andb]. rewrite IH by assumption. reflexivity.
Qed.

Lemma closeLines_lacks (l : str) (pend : option str) :
  lacks "}"%char l ->
  closeLines pend l = match pend with Some b => b | None => [] end ++ l.
Proof.
  revert pend. induction l as [|c l IH]; intros pend H.
  - cbn. destruct pend; [now rewrite app_nil_r|reflexivity].
  - apply lacks_cons in H. destruct H as [H1 H2]. cbn [closeLines].
    destruct pend as [b|].
    + destruct (is_ws c).
      * rewrite IH by assumption. now rewrite <- app_assoc.
      * rewrite H1. destruct (ceq c ";"%char) eqn:E.
        -- apply ceq_eq in E. subst c. rewrite IH by assumption. reflexivity.
        -- rewrite IH by assumption. reflexivity.
    + destruct (ceq c ";"%char) eqn:E.
      * apply ceq_eq in E. subst c. rewrite IH by assumption. reflexivity.
      * rewrite IH by assumption. reflexivity.
Qed.


Lemma endLine_lacks (l : str) : lacks ";"%char l -> endLine l = l.
Proof.
  induction l as [|c l IH]; intros H; [reflexivity|].
  apply lacks_cons in H. destruct H as [H1 H2].
  cbn [endLine]. rewrite H1. cbn [andb]. now rewrite IH.
Qed.

(** A directive outside the vocabulary leaves the path rule as it is. *)
Lemma unrecognized_directive_dropped (location : Location) (directive : str) :
  recognized directive = false ->
  Extract.locationDirective location directive = location.
Proof.
  unfold recognized, Extract.locationDirective. intros H.
  repeat (apply orb_false_elim in H; destruct H as [H ?]).
  repeat match goal with
         | E : ?b = false |- context [if ?b then _ else _] => rewrite E
         end.
  reflexivity.
Qed.

(** Every passthrough directive of a path rule is in its location block,
    followed by the separator. *)
Lemma passthrough_is_emitted (loc : Location) (ds : list str) (d : str) :
  extraDirectives loc = Some ds ->
  In d ds ->
  occursIn ("        " ++ d ++ ";" ++ nl) (locationBlock loc).
Proof.
  intros E Hin. unfold locationBlock. rewrite E.
  match goal with
  | |- occursIn _ ((?pre ++ _) ++ ?post) => generalize pre; generalize post
  end.
  intros post pre.
  apply in_split in Hin. destruct Hin as [l1 [l2 ->]].
  exists (pre ++ join "" (map line8 l1)), (join "" (map line8 l2) ++ post).
  assert (J : forall a b, join "" (map line8 (a ++ b))
                          = join "" (map line8 a) ++ join "" (map line8 b)).
  { induction a as [|x a IH]; intros b; [reflexivity|].
    cbn [map app]. specialize (IH b).
    destruct a as [|y a].
    - cbn [map app join]. destruct b; cbn [map join]; [now rewrite app_nil_r|].
      reflexivity.
    - cbn [map app join] in *. rewrite IH. now rewrite !app_assoc. }
  rewrite J. change (d :: l2) with ([d] ++ l2). rewrite J.
  cbn [map join]. unfold line8. now rewrite <- !app_assoc.
Qed.

(** C8.  On the location block [location /ws { proxy_read_timeout 90s; }]
    the extractor returns a path rule without passthrough directives, and
    the block generated from that rule does not contain the directive; from
    the text of a server with that location, [convert] extracts no path
    rule at all. *)
Theorem unknown_directive_not_preserved :
  recognized "proxy_read_timeout 90s" = false
  /\ Extract.parseLocation Samples.wsLocation = Ok (locationAt "/ws")
  /\ extraDirectives (locationAt "/ws") = None
  /\ locationBlock (locationAt "/ws")
     = "    location /ws {" ++ nl ++ "    }" ++ nl
  /\ ~ occursIn "proxy_read_timeout" (locationBlock (locationAt "/ws"))
  /\ exists config,
       Extract.convert Samples.wsServer = Some (Ok (Extract.One config))
       /\ sc_locations config = None.
Proof.
  split; [reflexivity|].
  split; [reflexivity|].
  split; [reflexivity|].
  split; [reflexivity|].
  split.
  - intros [before [after E]].
    assert (H : includes "proxy_read_timeout"
                  (locationBlock (locationAt "/ws")) = true)
      by (rewrite E; apply includes_app).
    vm_compute in H. discriminate.
  - eexists. split; vm_compute; reflexivity.
Qed.

(* ================================================================= *)
(** * Facts about paths *)

Lemma resolveStep_lookupStep (prev : option value) (curr : str) :
  resolveStep prev curr = Ok (lookupStep prev curr).
Proof.
  unfold resolveStep, lookupStep, isObjectValue, readProp.
  destruct prev as [p|]; [|reflexivity]. now destruct (isObject p).
Qed.

Lemma forEach_resolveStep (segments : list str) (prev : option value) :
  forEach resolveStep segments prev = Ok (lookupFrom prev segments).
Proof.
  revert prev. induction segments as [|k ks IH]; intros prev; [reflexivity|].
  cbn [forEach]. rewrite resolveStep_lookupStep. cbn [Js.bind]. apply IH.
Qed.

(** [resolve] never throws: it is [lookup]. *)
Lemma resolve_lookup (tree : value) (path : str) :
  resolve tree path = Ok (lookup tree path).
Proof. apply forEach_resolveStep. Qed.


Lemma lookupFrom_app (pre post : list str) (prev : option value) :
  lookupFrom prev (pre ++ post) = lookupFrom (lookupFrom prev pre) post.
Proof. apply fold_left_app. Qed.



(* ================================================================= *)
(** * Facts about exceptions *)

Lemma internal_bind {A B : Type} (m : res A) (k : A -> res B) :
  internal m -> (forall a, internal (k a)) -> internal (Js.bind m k).
Proof. destruct m; cbn; auto. Qed.

Lemma internal_Ok {A : Type} (a : A) : internal (Ok a).
Proof. exact I. Qed.

Lemma set_prop_internal (cur : value) (k : str) (v : value) :
  internal (set_prop cur k v).
Proof.
  destruct cur; cbn; try (now left); try exact I.
  destruct (arrayIndex k); [|now right].
  destruct (_ <? _)%N; [exact I|].
  destruct (_ =? _)%N; [exact I|now right].
Qed.

Lemma resolveSetLoop_internal (components : list str) (val : value)
  (current : option value) :
  internal (resolveSetLoop current components val).
Proof.
  revert current. induction components as [|k rest IH]; intros current.
  - exact I.
  - cbn [resolveSetLoop]. destruct current as [cur|]; [|exact I].
    destruct (isObject cur); [|exact I].
    destruct rest as [|k' rest'].
    + apply internal_bind; [apply set_prop_internal|intros; exact I].
    + apply internal_bind; [apply IH|].
      intros [child|]; [|exact I].
      apply internal_bind; [apply set_prop_internal|intros; exact I].
Qed.

Lemma resolveSet_internal (obj : value) (path : str) (val : value) :
  internal (resolveSet obj path val).
Proof.
  unfold resolveSet. apply internal_bind; [apply resolveSetLoop_internal|].
  intros [o|]; exact I.
Qed.

Lemma resolveAppendSet_internal (json : value) (key : str) (val : value) :
  internal (resolveAppendSet json key val).
Proof.
  unfold resolveAppendSet. rewrite resolve_lookup. cbn [Js.bind].
  destruct (lookup json key);
    (apply internal_bind; [apply resolveSet_internal|intros [? ?]; exact I]).
Qed.

Lemma appendValue_internal (json : value) (key : str) (val : value)
  (parent : str) :
  internal (appendValue json key val parent).
Proof. destruct parent; apply resolveAppendSet_internal. Qed.

Lemma forEach_internal {A S : Type} (f : S -> A -> res S) (l : list A) :
  (forall st x, internal (f st x)) -> forall st, internal (forEach f l st).
Proof.
  intros Hf. induction l as [|x l IH]; intros st; [exact I|].
  cbn [forEach]. apply internal_bind; auto.
Qed.

Lemma innerLine_internal (options : ParserOptions) (st : state) (line : str) :
  internal (innerLine options st line).
Proof.
  unfold innerLine. destruct (trim line) as [|c l]; [exact I|].
  destruct (_ && _); [exact I|].
  match goal with |- context [endsWith "{" ?x] => generalize x end.
  intros line'.
  destruct (endsWith "{" line').
  { apply internal_bind; [apply appendValue_internal|].
    intros [json' inArray]. destruct inArray; [|exact I].
    rewrite resolve_lookup. cbn [Js.bind].
    apply internal_bind; [|intros; exact I].
    destruct (lookup json' _) as [[]|]; cbn; auto; try (now left);
      now right. }
  destruct (_ && _); [exact I|].
  destruct (endsWith ";" line').
  { apply internal_bind; [|intros; exact I].
    unfold handlePropertyLine.
    apply internal_bind; [apply appendValue_internal|intros [? ?]; exact I]. }
  destruct (endsWith "}" line'); [|exact I].
  apply internal_bind.
  - unfold handleClosingBrace. destruct (isInLuaBlock st); [|exact I].
    apply internal_bind; [apply appendValue_internal|intros [? ?]; exact I].
  - intros json'. destruct (popParent _ _). exact I.
Qed.

Lemma outerLine_internal (options : ParserOptions) (st : state) (line : str) :
  internal (outerLine options st line).
Proof.
  unfold outerLine. destruct (trim line); [exact I|].
  destruct (startsWith "#" _); [exact I|].
  apply forEach_internal. apply innerLine_internal.
Qed.

(** [toJSON] returns, or throws an internal exception. *)
Lemma toJSON_internal (conf : str) (options : ParserOptions) :
  internal (toJSON conf options).
Proof.
  unfold toJSON, runLines. apply internal_bind; [|intros; exact I].
  apply forEach_internal. apply outerLine_internal.
Qed.

(* ================================================================= *)
(** * Includes *)

(** C3.  For the root file [include conf.d/*.conf;] whose pattern matches
    two files with one server block each, the tree [readConfigFile] returns
    is empty and has no [server] key: the call of [handleInclude] is still
    running.  Only when that call settles does the object hold the two
    blocks, in match order. *)
Theorem included_servers_missing_on_return :
  exists (this : instance) (call : includeCall),
    readConfigFile Samples.fs newParser "/etc/nginx/nginx.conf" None
    = (this, Ok (VObj [], [call]))
    /\ lookup (VObj []) "server" = None
    /\ settleInclude Samples.fs this Samples.withIncludes (VObj []) call
       = (VObj [("server",
                 VArr [VObj [("listen", VStr "8080")];
                       VObj [("listen", VStr "8081")]])],
          None, []).
Proof.
  eexists. eexists.
  split; [vm_compute; reflexivity|].
  split; vm_compute; reflexivity.
Qed.

(** C4.  [toJSON] never fails with the include error, whatever the text
    and the options.  On [include missing/*.conf;], whose pattern matches
    nothing, it returns the empty tree although include errors are not
    ignored; the error is the rejection of the call it left running. *)
Theorem unresolved_include_not_observed :
  (forall conf options,
      toJSON conf options <> Throw IncludeResolutionError)
  /\ exists call,
       parse "include missing/*.conf;" (Some Samples.withIncludes)
       = Ok (VObj [], [call])
       /\ expandGlob Samples.fs
            (findFilesOf Samples.fs newParser Samples.withIncludes
               (ic_line call)) = []
       /\ settleInclude Samples.fs newParser Samples.withIncludes
            (VObj []) call
          = (VObj [], Some IncludeResolutionError, [])
       /\ settleInclude Samples.fs newParser Samples.lenient (VObj []) call
          = (VObj [], None, []).
Proof.
  split.
  - intros conf options E.
    pose proof (toJSON_internal conf options) as H. rewrite E in H.
    destruct H; discriminate.
  - eexists. split; [vm_compute; reflexivity|].
    repeat split; vm_compute; reflexivity.
Qed.

(* ================================================================= *)
(** * Path addressing *)



(* ================================================================= *)
(** * The generator *)

Lemma serverLine_spec (acc : str) (server : UpstreamServer) :
  serverLine acc server = acc ++ specServerLine server.
Proof.
  unfold serverLine, specServerLine, clause, shownNum, shownStr,
    truthyNum, truthyStr, tplNum, tplStr.
  destruct (weight server) as [w|]; [destruct (numTruthy w)|];
    (destruct (maxFails server) as [m|]; [destruct (numTruthy m)|]);
    (destruct (failTimeout server) as [[|c t]|]);
    cbn [app]; repeat rewrite <- app_assoc; cbn [app];
    repeat rewrite app_nil_r; reflexivity.
Qed.

Lemma fold_serverLine (servers : list UpstreamServer) (acc : str) :
  fold_left serverLine servers acc
  = acc ++ concat (map specServerLine servers).
Proof.
  revert acc. induction servers as [|sv servers IH]; intros acc.
  - cbn. now rewrite app_nil_r.
  - cbn [fold_left map concat]. rewrite IH, serverLine_spec.
    now rewrite app_assoc.
Qed.

Lemma upstreamEntry_spec (acc : str) (pool : str * list UpstreamServer) :
  upstreamEntry acc pool = acc ++ specUpstreamBlock pool.
Proof.
  destruct pool as [name servers].
  unfold upstreamEntry, specUpstreamBlock. cbn [fst snd].
  rewrite fold_serverLine. now rewrite <- !app_assoc.
Qed.

Lemma fold_upstreamEntry (entries : list (str * list UpstreamServer))
  (acc : str) :
  fold_left upstreamEntry entries acc
  = acc ++ concat (map specUpstreamBlock entries).
Proof.
  revert acc. induction entries as [|e entries IH]; intros acc.
  - cbn. now rewrite app_nil_r.
  - cbn [fold_left map concat]. rewrite IH, upstreamEntry_spec.
    now rewrite app_assoc.
Qed.

Lemma fold_pushMicroservice (routes : list MicroserviceRoute)
  (locs : list Location) :
  fold_left pushMicroservice routes locs
  = locs ++ map microserviceLocation routes.
Proof.
  revert locs. induction routes as [|r routes IH]; intros locs.
  - cbn. now rewrite app_nil_r.
  - cbn [fold_left map]. rewrite IH. unfold pushMicroservice.
    now rewrite <- app_assoc.
Qed.

(** The schema as [generateNginxConfig] leaves it. *)
Lemma generate_schema_after (config : NginxConfig) :
  snd (generateNginxConfig config)
  = match microservices config with
    | Some r =>
        setLocations (locations config ++ map microserviceLocation r) config
    | None => config
    end.
Proof.
  unfold generateNginxConfig. cbn [snd].
  destruct (microservices config); [|reflexivity].
  now rewrite fold_pushMicroservice.
Qed.

Lemma generate_locations_after (config : NginxConfig) :
  locations (snd (generateNginxConfig config)) = renderedLocations config.
Proof.
  rewrite generate_schema_after. unfold renderedLocations, routes.
  destruct (microservices config); cbn; [reflexivity|].
  now rewrite app_nil_r.
Qed.








(** C10, as the code has it.  The call appends one path rule per
    microservice route to the [locations] of the schema and leaves every
    other field as it was; a schema without routes is unchanged. *)
Theorem generator_appends_route_locations (config : NginxConfig) :
  let after := snd (generateNginxConfig config) in
  locations after
  = locations config ++ map microserviceLocation (routes config)
  /\ domain after = domain config
  /\ serverName after = serverName config
  /\ port after = port config
  /\ ssl after = ssl config
  /\ security after = security config
  /\ clientMaxBodySize after = clientMaxBodySize config
  /\ upstreams after = upstreams config
  /\ gzip after = gzip config
  /\ gzipTypes after = gzipTypes config
  /\ microservices after = microservices config
  /\ (routes config = [] -> after = config).
Proof.
  cbv zeta. rewrite generate_schema_after. unfold routes.
  destruct config as [d sn p s h b u g gt ms locs]. cbn.
  destruct ms as [r|]; cbn.
  - repeat split. intros ->. cbn. now rewrite app_nil_r.
  - rewrite app_nil_r. repeat split.
Qed.

(** A schema without routes comes back as it went in. *)
Lemma generator_appends_route_locations_witness :
  routes Samples.plainSite = []
  /\ snd (generateNginxConfig Samples.plainSite) = Samples.plainSite.
Proof.
  split; [reflexivity|].
  destruct (generator_appends_route_locations Samples.plainSite)
    as (_ & _ & _ & _ & _ & _ & _ & _ & _ & _ & _ & H).
  apply H. reflexivity.
Defined.

(** C10, as stated, fails: after the call on a schema with one route and
    no path rule, the [locations] of the schema hold a path rule. *)
Lemma generator_changes_locations :
  locations Samples.gateway = []
  /\ locations (snd (generateNginxConfig Samples.gateway))
     = [microserviceLocation Samples.usersRoute]
  /\ snd (generateNginxConfig Samples.gateway) <> Samples.gateway.
Proof.
  split; [reflexivity|]. split; [reflexivity|].
  vm_compute. discriminate.
Qed.

(* ================================================================= *)
(** * One directive line *)

Lemma forallb_lacks (p : ascii -> bool) (x : ascii) (l : str) :
  (forall c, p c = true -> ceq c x = false) ->
  forallb p l = true -> lacks x l.
Proof.
  intros Hp. induction l as [|c l IH]; cbn; intros H; [reflexivity|].
  apply andb_true_iff in H. destruct H as [H1 H2].
  apply lacks_cons. split; auto.
Qed.

Ltac char_facts :=
  repeat match goal with
         | H : _ && _ = true |- _ => apply andb_true_iff in H; destruct H
         | H : negb _ = true |- _ => apply negb_true_iff in H
         end.


Lemma keyChar_not_ws (c : ascii) : keyChar c = true -> is_ws c = false.
Proof. unfold keyChar. intros H. char_facts. assumption. Qed.








Lemma innerLine_empty (options : ParserOptions) (st : state) :
  innerLine options st "" = Ok st.
Proof. reflexivity. Qed.








(** The outer loop hands a tight line without comment to the inner loop. *)
Lemma outerLine_tight (options : ParserOptions) (st : state)
  (indent line : str) :
  forallb is_ws indent = true ->
  tight line -> line <> [] -> lacks "#"%char line ->
  outerLine options st (indent ++ line)
  = forEach (innerLine options) (innerLinesOf line) st.
Proof.
  intros Hind T N L. unfold outerLine.
  rewrite trim_lead by assumption. rewrite trim_tight by assumption.
  destruct line as [|c l]; [contradiction|].
  assert (S : startsWith "#" (c :: l) = false).
  { apply lacks_cons in L. destruct L as [L _].
    change (ceq "#"%char c && true = false).
    now rewrite (ceq_sym_false _ _ L). }
  rewrite S. rewrite split_lacks by assumption.
  cbn [hd]. now rewrite trim_tight by assumption.
Qed.



Lemma safeKey_app (a b : str) : safeKey (a ++ b) = safeKey a ++ safeKey b.
Proof. unfold safeKey, replaceAllChar. apply map_app. Qed.



(* ================================================================= *)
(** * Blocks inside a tree *)

Lemma safeKey_lacks_dot (k : str) : lacks "."%char (safeKey k).
Proof.
  induction k as [|c k IH]; [reflexivity|].
  unfold safeKey, replaceAllChar in *. cbn [map].
  apply lacks_cons. split; [|exact IH].
  destruct (ceq c "."%char) eqn:E; [reflexivity|exact E].
Qed.

Lemma unsafeKey_safeKey (k : str) :
  lacks "!"%char k -> unsafeKey (safeKey k) = k.
Proof.
  induction k as [|c k IH]; intros H; [reflexivity|].
  apply lacks_cons in H. destruct H as [H1 H2].
  unfold unsafeKey, safeKey, replaceAllChar in *. cbn [map].
  rewrite IH by assumption. f_equal.
  destruct (ceq c "."%char) eqn:E.
  - apply ceq_eq in E. subst c. reflexivity.
  - now rewrite H1.
Qed.

Lemma safeKey_nonempty (k : str) : k <> [] -> safeKey k <> [].
Proof. destruct k; [contradiction|discriminate]. Qed.

Lemma assoc_app_fresh (k : str) (v : value) (o : list (str * value)) :
  assoc k o = None -> assoc k (o ++ [(k, v)]) = Some v.
Proof.
  induction o as [|[k' v'] o IH]; cbn.
  - now rewrite seqb_refl.
  - destruct (seqb k k'); [discriminate|exact IH].
Qed.

Lemma obj_replace_app_fresh (k : str) (v w : value)
  (o : list (str * value)) :
  assoc k o = None ->
  obj_replace k w (o ++ [(k, v)]) = o ++ [(k, w)].
Proof.
  induction o as [|[k' v'] o IH]; cbn.
  - now rewrite seqb_refl.
  - destruct (seqb k k'); [discriminate|]. intros H. now rewrite IH.
Qed.

Lemma join_segments_nonempty (xs : list str) :
  xs <> [] -> Forall (fun x => x <> []) xs -> join "." xs <> [].
Proof.
  destruct xs as [|x xs]; [contradiction|]. intros _ H.
  inversion H as [|? ? Hx _]; subst. cbn.
  destruct xs; [assumption|]. destruct x; [contradiction|discriminate].
Qed.

Lemma split_join_snoc (xs : list str) (y : str) :
  xs <> [] -> Forall (lacks "."%char) xs -> lacks "."%char y ->
  split "."%char (join "." xs ++ "." ++ y) = xs ++ [y].
Proof.
  induction xs as [|x xs IH]; [contradiction|]. intros _ H Hy.
  inversion H as [|? ? Hx Hxs]; subst.
  destruct xs as [|x' xs].
  - cbn [join app]. change (x ++ "." ++ y) with (x ++ "."%char :: y).
    rewrite split_app by assumption. now rewrite split_lacks.
  - change (join "." (x :: x' :: xs)) with (x ++ "." ++ join "." (x' :: xs)).
    rewrite <- !app_assoc.
    change (x ++ "." ++ join "." (x' :: xs) ++ "." ++ y)
      with (x ++ "."%char :: (join "." (x' :: xs) ++ "." ++ y)).
    rewrite split_app by assumption.
    rewrite IH by (assumption || discriminate). reflexivity.
Qed.

Lemma split_join (xs : list str) :
  xs <> [] -> Forall (lacks "."%char) xs ->
  split "."%char (join "." xs) = xs.
Proof.
  induction xs as [|x xs IH]; [contradiction|]. intros _ H.
  inversion H as [|? ? Hx Hxs]; subst.
  destruct xs as [|x' xs].
  - cbn [join]. now apply split_lacks.
  - change (join "." (x :: x' :: xs))
      with (x ++ "."%char :: join "." (x' :: xs)).
    rewrite split_app by assumption.
    rewrite IH by (assumption || discriminate). reflexivity.
Qed.

Lemma segmentsOf_lack_dot (ctx : list frame) :
  Forall (lacks "."%char) (segmentsOf ctx).
Proof.
  unfold segmentsOf. apply Forall_forall. intros x Hx.
  apply in_map_iff in Hx. destruct Hx as [f [<- _]].
  apply safeKey_lacks_dot.
Qed.

(** The segments of the path of an entry. *)
Lemma split_entryPath (ctx : list frame) (k : str) :
  Forall goodFrame ctx ->
  split "."%char (entryPath ctx k) = segmentsOf ctx ++ [safeKey k].
Proof.
  intros G. unfold entryPath.
  destruct ctx as [|f ctx].
  - cbn. apply split_lacks. apply safeKey_lacks_dot.
  - assert (N : pathOf (f :: ctx) <> []).
    { apply join_segments_nonempty; [discriminate|].
      apply Forall_forall. intros x Hx.
      apply in_map_iff in Hx. destruct Hx as [g [<- Hg]].
      rewrite Forall_forall in G. apply safeKey_nonempty, (G g Hg). }
    destruct (pathOf (f :: ctx)) as [|c p] eqn:E; [contradiction|].
    rewrite <- E. unfold pathOf.
    apply split_join_snoc; [discriminate| |apply safeKey_lacks_dot].
    apply segmentsOf_lack_dot.
Qed.

Lemma split_pathOf (ctx : list frame) :
  ctx <> [] -> split "."%char (pathOf ctx) = segmentsOf ctx.
Proof.
  intros N. apply split_join; [|apply segmentsOf_lack_dot].
  destruct ctx; [contradiction|discriminate].
Qed.

(** Following the path of [ctx] leads to the plugged value. *)
Lemma lookupFrom_plug (ctx : list frame) (inner : value)
  (more : list str) :
  Forall goodFrame ctx ->
  lookupFrom (Some (plug ctx inner)) (segmentsOf ctx ++ more)
  = lookupFrom (Some inner) more.
Proof.
  induction ctx as [|[before k] ctx IH]; intros G; [reflexivity|].
  inversion G as [|? ? [Hfresh [Hne Hbang]] G']; subst. cbn in Hfresh, Hbang.
  cbn [segmentsOf map plug app snd].
  change (lookupFrom (lookupStep (Some (VObj (before ++ [(k, plug ctx inner)])))
                        (safeKey k))
            (segmentsOf ctx ++ more) = lookupFrom (Some inner) more).
  cbn [lookupStep isObject get_prop].
  rewrite unsafeKey_safeKey by assumption.
  rewrite assoc_app_fresh by assumption. now apply IH.
Qed.

Lemma resolveSetLoop_descend (cur : value) (k : str) (rest : list str)
  (val : value) :
  rest <> [] -> isObject cur = true ->
  resolveSetLoop (Some cur) (k :: rest) val
  = (r <- resolveSetLoop (get_prop cur (unsafeKey k)) rest val ;;
     match r with
     | Some child =>
         cur' <- set_prop cur (unsafeKey k) child ;; Ok (Some cur')
     | None => Ok None
     end).
Proof.
  intros N H. destruct rest; [contradiction|]. cbn [resolveSetLoop].
  now rewrite H.
Qed.

(** An assignment below the plugged value is an assignment in the tree. *)
Lemma resolveSetLoop_plug (ctx : list frame) (inner inner' : value)
  (more : list str) (val : value) :
  Forall goodFrame ctx ->
  more <> [] ->
  resolveSetLoop (Some inner) more val = Ok (Some inner') ->
  resolveSetLoop (Some (plug ctx inner)) (segmentsOf ctx ++ more) val
  = Ok (Some (plug ctx inner')).
Proof.
  intros G N H. induction ctx as [|[before k] ctx IH]; [exact H|].
  inversion G as [|? ? [Hfresh [Hne Hbang]] G']; subst. cbn in Hfresh, Hbang.
  cbn [segmentsOf map plug app snd]. fold (segmentsOf ctx).
  rewrite resolveSetLoop_descend; [|
    intros E; apply app_eq_nil in E; destruct E; contradiction | reflexivity].
  cbn [get_prop].
  rewrite unsafeKey_safeKey by assumption.
  rewrite assoc_app_fresh by assumption.
  rewrite IH by assumption. cbn [Js.bind set_prop].
  unfold obj_set. rewrite assoc_app_fresh by assumption.
  now rewrite obj_replace_app_fresh.
Qed.

(** [resolveAppendSet] on an entry of the block at [ctx] applies the
    promotion rule to that block. *)
Lemma resolveAppendSet_plug (ctx : list frame) (o : list (str * value))
  (k : str) (val : value) :
  Forall goodFrame ctx -> lacks "!"%char k ->
  resolveAppendSet (plug ctx (VObj o)) (entryPath ctx k) val
  = Ok (plug ctx (VObj (appendTo k val o)),
        match assoc k o with Some _ => true | None => false end).
Proof.
  intros G Hk. unfold resolveAppendSet.
  rewrite resolve_lookup. unfold lookup.
  rewrite split_entryPath by assumption.
  rewrite lookupFrom_plug by assumption.
  cbn [lookupFrom fold_left lookupStep isObject get_prop Js.bind].
  rewrite unsafeKey_safeKey by assumption.
  unfold resolveSet. rewrite split_entryPath by assumption.
  assert (S : forall w,
             resolveSetLoop (Some (plug ctx (VObj o)))
               (segmentsOf ctx ++ [safeKey k]) w
             = Ok (Some (plug ctx (VObj (obj_set k w o))))).
  { intros w. apply resolveSetLoop_plug; [assumption|discriminate|].
    cbn. now rewrite unsafeKey_safeKey. }
  unfold appendTo, promote, items.
  destruct (assoc k o) as [ex|]; rewrite S; cbn [Js.bind].
  - destruct ex, val; reflexivity.
  - reflexivity.
Qed.

(* ================================================================= *)
(** * Sibling directives *)

Lemma appendValue_entry (json : value) (ctx : list frame) (k : str)
  (val : value) :
  appendValue json (safeKey k) val (pathOf ctx)
  = resolveAppendSet json (entryPath ctx k) val.
Proof. unfold appendValue, entryPath. now destruct (pathOf ctx). Qed.

Lemma setJson_id (st : state) :
  chunkedLine st = None -> setJson (json st) st = st.
Proof. destruct st. cbn. now intros ->. Qed.

Lemma setJson_setJson (j j' : value) (st : state) :
  setJson j' (setJson j st) = setJson j' st.
Proof. reflexivity. Qed.

Lemma calm_setJson (j : value) (st : state) : calm st -> calm (setJson j st).
Proof. intros [_ H]. split; [reflexivity|exact H]. Qed.



Lemma runText_line (options : ParserOptions) (st : state) (line rest : str) :
  lacks "010"%char line ->
  runText options st (line ++ "010"%char :: rest)
  = (st' <- outerLine options st line ;; runText options st' rest).
Proof. intros H. unfold runText. now rewrite split_app. Qed.

(** Without a tab, the lines of a text are its pieces between line feeds. *)
Lemma toJSON_runText (options : ParserOptions) (conf : str) :
  lacks "009"%char conf ->
  toJSON conf options
  = (st <- runText options initState conf ;; Ok (json st, detached st)).
Proof.
  intros H. unfold toJSON, runLines, linesOf, runText.
  now rewrite replaceFirst_lacks.
Qed.



Lemma assoc_obj_replace (k k0 : str) (w : value) (o : list (str * value)) :
  assoc k0 o <> None ->
  assoc k (obj_replace k0 w o) = if seqb k k0 then Some w else assoc k o.
Proof.
  induction o as [|[k' v'] o IH]; cbn; [contradiction|].
  destruct (seqb k0 k') eqn:E0.
  - intros _. apply seqb_eq in E0. subst k'. cbn.
    destruct (seqb k k0); reflexivity.
  - intros H. cbn. destruct (seqb k k') eqn:E1.
    + apply seqb_eq in E1. subst k'.
      destruct (seqb k k0) eqn:E2; [|reflexivity].
      apply seqb_eq in E2. subst k0. rewrite seqb_refl in E0. discriminate.
    + now apply IH.
Qed.

Lemma assoc_obj_insert (k k0 : str) (w : value) (o : list (str * value)) :
  assoc k0 o = None ->
  assoc k (obj_insert k0 w o) = if seqb k k0 then Some w else assoc k o.
Proof.
  induction o as [|[k' v'] o IH]; cbn; [reflexivity|].
  destruct (seqb k0 k') eqn:E0; [discriminate|]. intros H.
  destruct (key_before k0 k'); cbn.
  - reflexivity.
  - destruct (seqb k k') eqn:E1.
    + apply seqb_eq in E1. subst k'.
      destruct (seqb k k0) eqn:E2; [|reflexivity].
      apply seqb_eq in E2. subst k0. rewrite seqb_refl in E0. discriminate.
    + now apply IH.
Qed.

(** Reading a key after an assignment. *)
Lemma assoc_obj_set (k k0 : str) (w : value) (o : list (str * value)) :
  assoc k (obj_set k0 w o) = if seqb k k0 then Some w else assoc k o.
Proof.
  unfold obj_set. destruct (assoc k0 o) eqn:E.
  - apply assoc_obj_replace. congruence.
  - now apply assoc_obj_insert.
Qed.







(* ================================================================= *)
(** * Keys in the serialized text *)

Lemma lacks_dropWhile (c : ascii) (p : ascii -> bool) (l : str) :
  lacks c l -> lacks c (dropWhile p l).
Proof.
  induction l as [|x l IH]; [trivial|]. intros H. cbn.
  destruct (p x); [|exact H]. apply lacks_cons in H. now apply IH.
Qed.

Lemma lacks_rev (c : ascii) (l : str) : lacks c l -> lacks c (rev l).
Proof.
  induction l as [|x l IH]; [trivial|]. intros H.
  apply lacks_cons in H. destruct H as [H1 H2]. cbn [rev].
  apply lacks_app. split; [now apply IH|].
  apply lacks_cons. split; [assumption|reflexivity].
Qed.






(* ================================================================= *)
(** * The lines of a serialized tree *)


Lemma trimEnd_trail (l ws : str) :
  forallb is_ws ws = true -> trimEnd (l ++ ws) = trimEnd l.
Proof.
  intros H. unfold trimEnd. rewrite rev_app_distr.
  rewrite dropWhile_app_all; [reflexivity|].
  rewrite forallb_forall in *. intros x Hx. apply H. now apply in_rev.
Qed.

Lemma trim_trail (l ws : str) :
  tight l -> forallb is_ws ws = true -> trim (l ++ ws) = l.
Proof.
  intros T H. destruct l as [|c l].
  - cbn [app]. unfold trim, trimStart.
    rewrite <- (app_nil_r ws), dropWhile_app_all by assumption. reflexivity.
  - unfold trim, trimStart. cbn [app].
    rewrite dropWhile_head by apply T.
    change (c :: l ++ ws) with ((c :: l) ++ ws).
    rewrite trimEnd_trail by assumption. now apply trimEnd_tight.
Qed.


Lemma tight_app (a b : str) :
  a <> [] -> b <> [] -> tight a -> tight b -> tight (a ++ b).
Proof.
  intros Na Nb Ta Tb. destruct a as [|c a]; [contradiction|].
  destruct b as [|e b]; [contradiction|].
  destruct Ta as [Hc _]. destruct Tb as [_ He].
  destruct (@exists_last _ (e :: b)) as [l' [d E]]; [discriminate|].
  rewrite E in *. rewrite last_last in He.
  cbn [app]. rewrite app_assoc.
  change (tight (c :: (a ++ l') ++ [d])). now apply tight_snoc.
Qed.



Lemma blockChar_lacks (x : ascii) (k : str) :
  In x ["#"; "{"; "}"; ";"; "!"; "010"; "009"]%char ->
  forallb blockChar k = true -> lacks x k.
Proof.
  intros Hx. apply forallb_lacks. intros c Hc.
  destruct (ceq c x) eqn:E; [|reflexivity].
  apply ceq_eq in E. subst c. cbn in Hx.
  repeat (destruct Hx as [<-|Hx]; [vm_compute in Hc; discriminate|]).
  contradiction.
Qed.


Lemma endsWith_lacks (c : ascii) (l : str) :
  lacks c l -> endsWith [c] l = false.
Proof.
  intros H. destruct l as [|x l]; [reflexivity|].
  destruct (@exists_last _ (x :: l)) as [l' [d E]]; [discriminate|].
  rewrite E in *. apply lacks_app in H. destruct H as [_ H].
  apply lacks_cons in H. destruct H as [H _].
  apply endsWith_snoc_other. now apply ceq_sym_false.
Qed.

(** The first replacement on the opening line of a block. *)
Lemma braceLines_open (k : str) :
  k <> [] -> tight k -> lacks "{"%char k ->
  forall ws,
    braceLines ws (k ++ " {")
    = ws ++ k ++ ["010"%char] ++ " {" ++ ["010"%char].
Proof.
  intros N T L.
  assert (Hlast : is_ws (last k " "%char) = false).
  { destruct k as [|c k]; [contradiction|]. destruct T as [_ T].
    destruct (@exists_last _ (c :: k)) as [l' [d E]]; [discriminate|].
    rewrite E in *. now rewrite last_last in *. }
  clear T. induction k as [|c k IH]; [contradiction|]. intros ws.
  apply lacks_cons in L. destruct L as [Lc L].
  destruct k as [|c' k].
  - cbn in Hlast. cbn [app braceLines]. rewrite Hlast, Lc. cbn [andb].
    reflexivity.
  - assert (Hlast' : is_ws (last (c' :: k) " "%char) = false) by exact Hlast.
    specialize (IH ltac:(discriminate) L Hlast').
    change ((c :: c' :: k) ++ " {") with (c :: ((c' :: k) ++ " {")).
    cbn [braceLines]. destruct (is_ws c).
    + rewrite IH. now rewrite <- app_assoc.
    + rewrite Lc. cbn [andb]. rewrite IH. reflexivity.
Qed.

(** The lines the opening line of a block is cut into. *)
Lemma innerLinesOf_open (k : str) :
  k <> [] -> tight k ->
  (forall x, In x ["{"; "}"; ";"; "010"]%char -> lacks x k) ->
  innerLinesOf (k ++ " {") = [k; " {"; ""].
Proof.
  intros N T L. unfold innerLinesOf.
  rewrite braceLines_open; try assumption; [|apply L; cbn; tauto].
  cbn [app].
  rewrite closeLines_lacks.
  - cbn [app]. rewrite endLine_lacks.
    + change (k ++ "010"%char :: " {" ++ ["010"%char])
        with (k ++ "010"%char :: (" {" ++ ["010"%char])).
      rewrite split_app by (apply L; cbn; tauto). reflexivity.
    + apply lacks_app. split; [apply L; cbn; tauto|reflexivity].
  - apply lacks_app. split; [apply L; cbn; tauto|reflexivity].
Qed.

Lemma obj_insert_plain (k : str) (v : value) (o : list (str * value)) :
  arrayIndex k = None -> obj_insert k v o = o ++ [(k, v)].
Proof.
  intros H. induction o as [|[k' v'] o IH]; [reflexivity|].
  cbn. unfold key_before. rewrite H. now rewrite IH.
Qed.

Lemma plug_snoc (ctx : list frame) (before : list (str * value)) (k : str)
  (inner : value) :
  plug (ctx ++ [(before, k)]) inner
  = plug ctx (VObj (before ++ [(k, inner)])).
Proof.
  induction ctx as [|[b k'] ctx IH]; [reflexivity|].
  cbn [app plug]. now rewrite IH.
Qed.

Lemma join_snoc (xs : list str) (y : str) :
  xs <> [] -> join "." (xs ++ [y]) = join "." xs ++ "." ++ y.
Proof.
  induction xs as [|x xs IH]; [contradiction|]. intros _.
  destruct xs as [|x' xs]; [reflexivity|].
  change (join "." ((x :: x' :: xs) ++ [y]))
    with (x ++ "." ++ join "." ((x' :: xs) ++ [y])).
  rewrite IH by discriminate.
  change (join "." (x :: x' :: xs)) with (x ++ "." ++ join "." (x' :: xs)).
  now rewrite <- !app_assoc.
Qed.

Lemma pathOf_nonempty (ctx : list frame) :
  ctx <> [] -> Forall goodFrame ctx -> pathOf ctx <> [].
Proof.
  intros N G. apply join_segments_nonempty.
  - destruct ctx; [contradiction|discriminate].
  - apply Forall_forall. intros x Hx.
    apply in_map_iff in Hx. destruct Hx as [g [<- Hg]].
    rewrite Forall_forall in G. apply safeKey_nonempty, (G g Hg).
Qed.

Lemma pathOf_snoc (ctx : list frame) (before : list (str * value))
  (k : str) :
  Forall goodFrame ctx ->
  pathOf (ctx ++ [(before, k)]) = entryPath ctx k.
Proof.
  intros G. unfold entryPath, pathOf at 1, segmentsOf.
  rewrite map_app. cbn [map snd]. fold (segmentsOf ctx).
  destruct ctx as [|f ctx]; [reflexivity|].
  pose proof (pathOf_nonempty (f :: ctx) ltac:(discriminate) G) as N.
  destruct (pathOf (f :: ctx)) as [|c p] eqn:E; [contradiction|].
  rewrite <- E. apply join_snoc. discriminate.
Qed.

(** The closing line of a block: the parent path loses its last
    segment. *)
Lemma popParent_snoc (ctx : list frame) (f : frame) :
  popParent (pathOf (ctx ++ [f])) 0 = (pathOf ctx, 0).
Proof.
  unfold popParent.
  rewrite split_pathOf by (destruct ctx; discriminate).
  cbn [Nat.ltb Nat.leb andb]. unfold segmentsOf. rewrite map_app.
  cbn [map]. now rewrite removelast_last.
Qed.



(* ================================================================= *)
(** * Collision promotion *)







(* ================================================================= *)
(** * Round trip *)

















(* ================================================================= *)
(** * Further properties *)







(* ---------- generator twice ---------- *)
Lemma mainServer_setLocations (locs : list Location) (config : NginxConfig)
  (text : str) :
  mainServer (setLocations locs config) text = mainServer config text.
Proof. reflexivity. Qed.

Lemma generate_text (config : NginxConfig) :
  fst (generateNginxConfig config)
  = concat (map specUpstreamBlock (pools config))
    ++ (if forcedRedirect config then redirectText config else "")
    ++ mainServer config
         (join nl (map locationBlock (renderedLocations config))).
Proof.
  unfold generateNginxConfig, renderedLocations, routes, pools. cbn [fst].
  assert (U : match upstreams config with
              | Some entries => fold_left upstreamEntry entries ""
              | None => ""
              end
              = concat (map specUpstreamBlock
                          match upstreams config with
                          | Some entries => entries
                          | None => []
                          end)).
  { destruct (upstreams config); [|reflexivity].
    now rewrite fold_upstreamEntry. }
  rewrite U. clear U.
  assert (M : forall r,
             mainServer
               (setLocations (fold_left pushMicroservice r (locations config))
                  config)
               (join nl (map locationBlock
                  (locations
                     (setLocations
                        (fold_left pushMicroservice r (locations config))
                        config))))
             = mainServer config
                 (join nl (map locationBlock
                    (locations config ++ map microserviceLocation r)))).
  { intros r. rewrite mainServer_setLocations. cbn [locations setLocations].
    now rewrite fold_pushMicroservice. }
  destruct (microservices config) as [r|].
  - rewrite M. destruct (forcedRedirect config);
      [now rewrite <- app_assoc|reflexivity].
  - rewrite app_nil_r. destruct (forcedRedirect config);
      [now rewrite <- app_assoc|reflexivity].
Qed.

(** X15.  A second call on the same schema object renders the location block of
    every microservice route twice: the first call has left its route
    locations in the schema, and the second appends them again. *)
Theorem generate_twice_duplicates_routes (config : NginxConfig) :
  let once := snd (generateNginxConfig config) in
  let added := map microserviceLocation (routes config) in
  locations (snd (generateNginxConfig once))
  = locations config ++ added ++ added
  /\ fst (generateNginxConfig once)
     = concat (map specUpstreamBlock (pools config))
       ++ (if forcedRedirect config then redirectText config else "")
       ++ mainServer config
            (join nl (map locationBlock (locations config ++ added ++ added))).
Proof.
  cbv zeta.
  assert (R : renderedLocations (snd (generateNginxConfig config))
              = locations config
                ++ map microserviceLocation (routes config)
                ++ map microserviceLocation (routes config)).
  { unfold renderedLocations at 1. rewrite generate_locations_after.
    unfold renderedLocations. rewrite <- app_assoc. f_equal. f_equal.
    rewrite generate_schema_after. unfold routes.
    destruct (microservices config) eqn:E; cbn; now rewrite ?E. }
  split.
  - now rewrite generate_locations_after.
  - rewrite generate_text, R. rewrite generate_schema_after.
    destruct (microservices config); reflexivity.
Qed.

(* ---------- server root ---------- *)
(** X23.  The directory of the first file a parser reads is its server root from
    then on: an include of any file read later is searched there, whatever
    [includesRoot] says. *)
Theorem includes_searched_in_first_directory (fs : Fs) (first later : str)
  (o1 o2 : option ParserOptions) (options : ParserOptions) (line : str) :
  dirname fs first <> "" ->
  let this := fst (readConfigFile fs
                     (fst (readConfigFile fs newParser first o1)) later o2) in
  serverRoot this = Some (dirname fs first)
  /\ findFilesOf fs this options line
     = resolvePath fs (dirname fs first)
         (trim (replaceFirst ";" "" (replaceFirst "include " "" line))).
Proof.
  intros N. cbv zeta. split; [reflexivity|].
  unfold findFilesOf, searchRoot. cbn [readConfigFile fst setFileName
    serverRoot newParser]. unfold orElse.
  destruct (dirname fs first); [contradiction|reflexivity].
Qed.

(* ---------- listen without a digit ---------- *)
Lemma startsWith_elim (p l : str) :
  startsWith p l = true -> exists r, l = p ++ r.
Proof.
  revert l. induction p as [|x p IH]; intros l H; [now exists l|].
  destruct l as [|y l]; [discriminate|]. cbn [startsWith] in H.
  apply andb_true_iff in H. destruct H as [E H].
  apply ceq_eq in E. subst y. destruct (IH l H) as [r ->]. now exists r.
Qed.

Lemma serverDirective_throws (config : ServerConfig) (d : str) (e : error) :
  Extract.serverDirective config d = Throw e -> e = TypeError.
Proof.
  unfold Extract.serverDirective.
  repeat match goal with
         | |- context [if ?b then _ else _] => destruct b
         | |- context [match ?x with _ => _ end] => destruct x
         end; intros H; try discriminate; now injection H as <-.
Qed.

Lemma forEach_serverDirective_throws (ds : list str) (d : str) :
  In d ds ->
  (forall config, Extract.serverDirective config d = Throw TypeError) ->
  forall config,
    forEach Extract.serverDirective ds config = Throw TypeError.
Proof.
  intros Hin Hd. induction ds as [|x ds IH]; [contradiction|].
  intros config. cbn [forEach].
  destruct (Extract.serverDirective config x) as [c|e] eqn:E.
  - cbn [Js.bind]. destruct Hin as [->|Hin]; [|now apply IH].
    rewrite Hd in E. discriminate.
  - apply serverDirective_throws in E. now subst e.
Qed.

(** X13.  A server block with a [listen] directive whose argument holds no digit
    makes [parseServer] throw a TypeError, whatever else the block holds. *)
Theorem listen_without_digit_throws (serverData directives : value)
  (ds : list str) (d arg : str) :
  get_prop serverData "_directives" = Some directives ->
  Extract.asStrings (Extract.arrayOf directives) = Ok ds ->
  In d ds ->
  startsWith "listen " d = true ->
  nth_error (split " "%char d) 1 = Some arg ->
  forallb (fun c => negb (is_digit c)) arg = true ->
  Extract.parseServer serverData = Throw TypeError.
Proof.
  intros G A Hin L P D. unfold Extract.parseServer. rewrite G.
  assert (T : Extract.truthy (Some directives) = true).
  { destruct directives as [s|n|o|a]; try reflexivity;
      try (cbn in A; discriminate).
    destruct s; [|reflexivity]. cbn in A. inversion A; subst ds.
    destruct Hin as [E|[]]. subst d. discriminate. }
  rewrite T. cbn [Extract.withDefault]. rewrite A. cbn [Js.bind].
  rewrite (forEach_serverDirective_throws ds d Hin); [reflexivity|].
  intros config. unfold Extract.serverDirective.
  assert (S : startsWith "server_name " d = false).
  { destruct (startsWith_elim _ _ L) as [r ->]. reflexivity. }
  rewrite S, L, P.
  assert (F : Extract.firstDigits arg = None).
  { unfold Extract.firstDigits.
    assert (Z : dropWhile (fun c => negb (is_digit c)) arg = []).
    { clear P. induction arg as [|c r IH]; [reflexivity|].
      cbn in D |- *. apply andb_true_iff in D. destruct D as [D1 D2].
      rewrite D1. now apply IH. }
    now rewrite Z. }
  now rewrite F.
Qed.

Lemma listen_without_digit_throws_witness :
  Extract.parseServer
    (VObj [("_directives",
            VArr [VStr "server_name example.com"; VStr "listen localhost"])])
  = Throw TypeError.
Proof.
  eapply (listen_without_digit_throws _ _ _ "listen localhost" "localhost");
    try reflexivity.
  right. left. reflexivity.
Defined.








(* ---------- patterns ---------- *)
Lemma lang_chr_inv (p : ascii -> bool) (s : str) :
  lang (Chr p) s <-> exists c, s = [c] /\ p c = true.
Proof.
  split.
  - intros H. inversion H; subst. eauto.
  - intros [c [-> H]]. now constructor.
Qed.

Lemma lang_cat_inv (a b : re) (s : str) :
  lang (Cat a b) s <-> exists s1 s2, s = s1 ++ s2 /\ lang a s1 /\ lang b s2.
Proof.
  split.
  - intros H. inversion H; subst. eauto.
  - intros [s1 [s2 [-> [H1 H2]]]]. now constructor.
Qed.

Lemma nullable_lang (r : re) : nullable r = true <-> lang r [].
Proof.
  induction r as [| |p|a IHa b IHb|a IHa b IHb|a IHa]; cbn.
  - split; [discriminate|]. intros H. inversion H.
  - split; [constructor|reflexivity].
  - split; [discriminate|]. intros H. inversion H.
  - rewrite andb_true_iff, IHa, IHb. split.
    + intros [Ha Hb]. exact (lang_cat a b [] [] Ha Hb).
    + intros H. apply lang_cat_inv in H.
      destruct H as [s [t [E [Hs Ht]]]]. symmetry in E.
      apply app_eq_nil in E. destruct E; subst. now split.
  - rewrite orb_true_iff, IHa, IHb. split.
    + intros [H|H]; [now apply lang_alt_l|now apply lang_alt_r].
    + intros H. inversion H; subst; tauto.
  - split; [constructor|reflexivity].
Qed.

Lemma lang_star_cons_gen (r : re) (w : str) :
  lang r w ->
  forall a c s, r = Star a -> w = c :: s ->
  exists s1 s2, s = s1 ++ s2 /\ lang a (c :: s1) /\ lang (Star a) s2.
Proof.
  induction 1 as [| | | | | |a' s' t' Hs _ Ht IH]; intros a0 c0 s0 Er Ew;
    try discriminate.
  injection Er as ->. destruct s' as [|x s'].
  - cbn in Ew. now apply IH.
  - cbn in Ew. injection Ew as -> <-. now exists s', t'.
Qed.

Lemma lang_star_cons (a : re) (c : ascii) (s : str) :
  lang (Star a) (c :: s) ->
  exists s1 s2, s = s1 ++ s2 /\ lang a (c :: s1) /\ lang (Star a) s2.
Proof. intros H. now apply (lang_star_cons_gen _ _ H). Qed.

Lemma deriv_lang (r : re) : forall (c : ascii) (s : str),
  lang (deriv c r) s <-> lang r (c :: s).
Proof.
  induction r as [| |p|a IHa b IHb|a IHa b IHb|a IHa]; intros c s; cbn.
  - split; intros H; inversion H.
  - split; intros H; inversion H.
  - destruct (p c) eqn:E; split; intros H; inversion H; subst.
    + now constructor.
    + constructor.
    + congruence.
  - assert (L : lang (Cat (deriv c a) b) s -> lang (Cat a b) (c :: s)).
    { intros H. apply lang_cat_inv in H.
      destruct H as [s1 [t1 [-> [H1 H2]]]].
      apply IHa in H1. exact (lang_cat a b (c :: s1) t1 H1 H2). }
    assert (R : lang (Cat a b) (c :: s) ->
                lang (Cat (deriv c a) b) s
                \/ (lang a [] /\ lang (deriv c b) s)).
    { intros H. apply lang_cat_inv in H.
      destruct H as [s1 [t1 [E [H1 H2]]]].
      destruct s1 as [|x s1].
      - cbn in E. subst t1. right. split; [assumption|now apply IHb].
      - cbn in E. injection E as -> ->. left.
        apply lang_cat; [now apply IHa|assumption]. }
    destruct (nullable a) eqn:N.
    + split.
      * intros H. inversion H; subst; [now apply L|].
        apply nullable_lang in N.
        match goal with
        | X : lang (deriv c b) s |- _ => apply IHb in X;
            exact (lang_cat a b [] (c :: s) N X)
        end.
      * intros H. destruct (R H) as [H1|[_ H2]];
          [now apply lang_alt_l|now apply lang_alt_r].
    + split; [exact L|]. intros H. destruct (R H) as [H1|[H1 _]];
        [assumption|]. apply nullable_lang in H1. congruence.
  - split.
    + intros H. inversion H; subst;
        [apply lang_alt_l; now apply IHa|apply lang_alt_r; now apply IHb].
    + intros H. inversion H; subst;
        [apply lang_alt_l; now apply IHa|apply lang_alt_r; now apply IHb].
  - split.
    + intros H. apply lang_cat_inv in H.
      destruct H as [s1 [t1 [-> [H1 H2]]]].
      apply IHa in H1. exact (lang_star_app a (c :: s1) t1 H1 H2).
    + intros H. apply lang_star_cons in H.
      destruct H as [s1 [s2 [-> [H1 H2]]]].
      apply lang_cat; [now apply IHa|assumption].
Qed.

Lemma matches_lang (r : re) (s : str) : matches r s = true <-> lang r s.
Proof.
  revert r. induction s as [|c s IH]; intros r; cbn.
  - apply nullable_lang.
  - rewrite IH. apply deriv_lang.
Qed.

Lemma lang_star_chr_gen (r : re) (s : str) :
  lang r s -> forall p, r = Star (Chr p) -> forallb p s = true.
Proof.
  induction 1 as [| | | | | |a s' t' Hs _ Ht IH]; intros q E;
    try discriminate; [reflexivity|].
  injection E as ->. apply lang_chr_inv in Hs.
  destruct Hs as [c [-> Hc]]. cbn.
  rewrite (IH q) by reflexivity. now rewrite Hc.
Qed.

Lemma lang_star_chr (p : ascii -> bool) (s : str) :
  lang (Star (Chr p)) s <-> forallb p s = true.
Proof.
  split.
  - intros H. now apply (lang_star_chr_gen _ _ H).
  - induction s as [|c s IH]; intros H; [constructor|].
    cbn in H. apply andb_true_iff in H. destruct H as [Hc Hs].
    apply (lang_star_app (Chr p) [c] s); [now constructor|now apply IH].
Qed.

Lemma lang_plus_chr (p : ascii -> bool) (s : str) :
  lang (Plus (Chr p)) s <-> s <> [] /\ forallb p s = true.
Proof.
  unfold Plus. split.
  - intros H. apply lang_cat_inv in H.
    destruct H as [s1 [t1 [-> [H1 H2]]]].
    apply lang_chr_inv in H1. destruct H1 as [c [-> Hc]].
    apply lang_star_chr in H2. cbn.
    split; [discriminate|]. now rewrite Hc, H2.
  - intros [N H]. destruct s as [|c s]; [contradiction|].
    cbn in H. apply andb_true_iff in H. destruct H as [Hc Hs].
    apply (lang_cat (Chr p) (Star (Chr p)) [c] s); [now constructor|].
    now apply lang_star_chr.
Qed.

Ltac lang_inv :=
  repeat match goal with
         | H : lang (Cat _ _) _ |- _ =>
             apply lang_cat_inv in H;
             let s1 := fresh "s" in let s2 := fresh "s" in
             destruct H as [s1 [s2 [-> [? ?]]]]
         | H : lang (Plus (Chr _)) _ |- _ =>
             apply lang_plus_chr in H; destruct H as [? ?]
         | H : lang (Chr _) _ |- _ =>
             apply lang_chr_inv in H;
             let c := fresh "c" in destruct H as [c [-> ?]]
         | H : lang (Star (Chr _)) _ |- _ => apply lang_star_chr in H
         | H : ceq _ _ = true |- _ => apply ceq_eq in H; subst
         end.

(** X19.  The domain check accepts exactly the texts made of a letter or digit,
    one or more characters among letters, digits, [-], [_] and [.], a dot,
    and two or more letters. *)
Theorem domain_pattern_accepts (d : str) :
  matches Validator.domainPattern d = true
  <-> exists (c : ascii) (middle tld : str),
        d = c :: middle ++ "." ++ tld
        /\ is_alnum c = true
        /\ middle <> [] /\ forallb Validator.domainChar middle = true
        /\ (2 <= length tld)%nat /\ forallb is_alpha tld = true.
Proof.
  rewrite matches_lang. unfold Validator.domainPattern, TwoOrMore. split.
  - intros H. lang_inv.
    match goal with
    | |- exists _ _ _, [?c] ++ ?m ++ _ ++ [?y] ++ [?z] ++ ?l = _ /\ _ =>
        exists c, m, (y :: z :: l)
    end.
    cbn [app length forallb]. repeat split; try assumption; [lia|].
    repeat (apply andb_true_iff; split); assumption.
  - intros [c [m [tld [-> [Hc [Nm [Hm [Hlen Ha]]]]]]]].
    destruct tld as [|y [|z l3]]; cbn in Hlen; try lia.
    cbn in Ha. apply andb_true_iff in Ha. destruct Ha as [Hy Ha].
    apply andb_true_iff in Ha. destruct Ha as [Hz Hl].
    apply (lang_cat _ _ [c]); [now constructor|].
    apply lang_cat; [now apply lang_plus_chr|].
    apply (lang_cat _ _ "."); [constructor; apply ceq_refl|].
    apply (lang_cat _ _ [y]); [now constructor|].
    apply (lang_cat _ _ [z]); [now constructor|].
    now apply lang_star_chr.
Qed.

(** X20.  [isValidRateLimit] accepts exactly one or more digits followed by [r/]
    and one of the units [s], [m], [h], [d]; a missing rate is rejected. *)
Theorem rate_limit_accepts (rate : option str) :
  Validator.isValidRateLimit rate = true
  <-> exists (digits : str) (unit : ascii),
        rate = Some (digits ++ "r/" ++ [unit])
        /\ digits <> [] /\ forallb is_digit digits = true
        /\ In unit ["s"; "m"; "h"; "d"]%char.
Proof.
  assert (U : forall u, Validator.rateUnit u = true <-> In u ["s"; "m"; "h"; "d"]%char).
  { intros u. unfold Validator.rateUnit. rewrite !orb_true_iff, !ceq_eq. cbn.
    intuition congruence. }
  assert (M : forall s,
             matches Validator.ratePattern s = true
             <-> exists digits unit,
                   s = digits ++ "r/" ++ [unit]
                   /\ digits <> [] /\ forallb is_digit digits = true
                   /\ In unit ["s"; "m"; "h"; "d"]%char).
  { intros s. rewrite matches_lang. unfold Validator.ratePattern. split.
    - intros H. lang_inv.
      match goal with
      | |- exists _ _, ?ds ++ _ ++ _ ++ [?u] = _ /\ _ => exists ds, u
      end.
      repeat split; try assumption. now apply U.
    - intros [ds [u [-> [N [Hd Hu]]]]].
      apply lang_cat; [now apply lang_plus_chr|].
      apply (lang_cat _ _ "r"); [constructor; apply ceq_refl|].
      apply (lang_cat _ _ "/"); [constructor; apply ceq_refl|].
      constructor. now apply U. }
  unfold Validator.isValidRateLimit. rewrite M. destruct rate as [r|]; cbn [tplStr].
  - split.
    + intros [ds [u [-> H]]]. now exists ds, u.
    + intros [ds [u [E H]]]. injection E as ->. now exists ds, u.
  - split.
    + intros [ds [u [E [N [Hd _]]]]]. exfalso.
      destruct ds as [|c ds]; [contradiction|].
      cbn in E. injection E as <- _. discriminate.
    + intros [ds [u [E _]]]. discriminate.
Qed.

(* ---------- validation ---------- *)
Lemma pushIf_nil (c : bool) (f m : str) : Validator.pushIf c f m = [] <-> c = false.
Proof. destruct c; cbn; split; congruence. Qed.

Lemma eachIndexed_nil {A : Type} (f : nat -> A -> list Validator.ValidationError)
  (P : A -> Prop) :
  (forall i x, f i x = [] <-> P x) ->
  forall l i, Validator.eachIndexed f i l = [] <-> Forall P l.
Proof.
  intros H. induction l as [|x l IH]; intros i; cbn.
  - split; [constructor|reflexivity].
  - split.
    + intros E. apply app_eq_nil in E. destruct E as [E1 E2].
      constructor; [now apply (H i)|now apply (IH (S i))].
    + intros F. inversion F; subst.
      apply app_eq_nil_iff || idtac.
      assert (E1 : f i x = []) by now apply H.
      assert (E2 : Validator.eachIndexed f (S i) l = []) by now apply IH.
      now rewrite E1, E2.
Qed.

Lemma concat_nil {A : Type} (ls : list (list A)) :
  concat ls = [] <-> Forall (fun l => l = []) ls.
Proof.
  induction ls as [|l ls IH]; cbn.
  - split; [constructor|reflexivity].
  - split.
    + intros E. apply app_eq_nil in E. destruct E as [-> E2].
      constructor; [reflexivity|now apply IH].
    + intros F. inversion F; subst. cbn. now apply IH.
Qed.

Lemma app_nil_iff {A : Type} (a b : list A) :
  a ++ b = [] <-> a = [] /\ b = [].
Proof.
  split; [apply app_eq_nil|]. intros [-> ->]. reflexivity.
Qed.

Lemma nonempty_false (s : str) :
  match s with [] => true | _ :: _ => false end = false <-> s <> [].
Proof. destruct s; split; congruence. Qed.

Lemma locationErrors_path (u : str -> bool) (i : nat) (loc : Location) :
  Validator.locationErrors u i loc = [] -> path loc <> [].
Proof.
  unfold Validator.locationErrors. intros E. apply app_eq_nil in E.
  destruct E as [E _]. apply pushIf_nil in E. now apply nonempty_false.
Qed.

Lemma eachIndexed_Forall {A : Type} (f : nat -> A -> list Validator.ValidationError)
  (P : A -> Prop) :
  (forall i x, f i x = [] -> P x) ->
  forall l i, Validator.eachIndexed f i l = [] -> Forall P l.
Proof.
  intros H. induction l as [|x l IH]; intros i E; [constructor|].
  cbn in E. apply app_eq_nil in E. destruct E as [E1 E2].
  constructor; [now apply (H i)|now apply (IH (S i))].
Qed.

(** X18.  What an accepted schema is sure to hold: a domain of the accepted
    form, a server name, a port from 1 to 65535 when the port is a number,
    at least one location, a path in every location, both SSL paths when
    there is an SSL entry, and in every upstream at least one server, each
    with an address. *)
Theorem accepted_schema (parsesAsUrl : str -> bool) (config : NginxConfig) :
  Validator.validateConfig parsesAsUrl config = [] ->
  matches Validator.domainPattern (domain config) = true
  /\ serverName config <> ""
  /\ (forall z, port config = Int z -> (1 <= z <= 65535)%Z)
  /\ locations config <> []
  /\ Forall (fun loc => path loc <> "") (locations config)
  /\ (forall s, ssl config = Some s ->
        truthyStr (certificate s) = true
        /\ truthyStr (certificateKey s) = true)
  /\ (forall name servers, In (name, servers) (pools config) ->
        servers <> []
        /\ Forall (fun server => address server <> "") servers).
Proof.
  unfold Validator.validateConfig. intros E.
  repeat (apply app_eq_nil in E; let E1 := fresh "E" in
          destruct E as [E1 E]).
  split; [|split; [|split; [|split; [|split; [|split]]]]].
  - destruct (domain config); [discriminate|].
    apply pushIf_nil in E0. now apply negb_false_iff in E0.
  - apply pushIf_nil in E1. now apply nonempty_false.
  - intros z Hz. apply pushIf_nil in E2. rewrite Hz in E2. cbn in E2.
    apply orb_false_elim in E2. destruct E2 as [A B].
    apply Z.ltb_ge in A, B. lia.
  - destruct (locations config); [discriminate|discriminate].
  - destruct (locations config) as [|l0 ls] eqn:L; [constructor|].
    apply (eachIndexed_Forall (Validator.locationErrors parsesAsUrl) _
             (locationErrors_path parsesAsUrl) _ 0 E5).
  - intros s Hs. rewrite Hs in E3. unfold Validator.sslErrors in E3.
    apply app_eq_nil in E3. destruct E3 as [A E3].
    apply app_eq_nil in E3. destruct E3 as [B _].
    apply pushIf_nil in A, B. apply negb_false_iff in A, B. now split.
  - intros name servers Hin. unfold pools in Hin.
    destruct (upstreams config) as [entries|]; [|contradiction].
    apply concat_nil in E. rewrite Forall_forall in E.
    specialize (E (Validator.upstreamErrors (name, servers))
                  (in_map Validator.upstreamErrors _ _ Hin)).
    cbn [Validator.upstreamErrors] in E.
    destruct servers as [|sv servers]; [discriminate|].
    split; [discriminate|].
    apply (eachIndexed_Forall (Validator.serverErrors name)
             (fun server => address server <> "")) with (i := 0%nat);
      [|exact E].
    intros i x Hx. unfold Validator.serverErrors in Hx.
    apply app_eq_nil in Hx. destruct Hx as [Hx _].
    apply pushIf_nil in Hx. now apply nonempty_false.
Qed.

(* ---------- templates and validation ---------- *)
Lemma badPort_portOf (sslEnabled : option bool) :
  Validator.badPort (Templates.portOf sslEnabled) = false.
Proof. unfold Templates.portOf. now destruct (truthyBool sslEnabled). Qed.

Lemma sslErrors_sslOf (sslEnabled : option bool) (d : str)
  (ps : option (list str)) :
  match ps with
  | Some l => forallb (Validator.isOneOf Validator.sslProtocols) l = true
  | None => True
  end ->
  match Templates.sslOf sslEnabled d ps with
  | Some s => Validator.sslErrors s
  | None => []
  end = [].
Proof.
  intros H. unfold Templates.sslOf. destruct (truthyBool sslEnabled); [|reflexivity].
  unfold Validator.sslErrors, Templates.letsEncrypt. cbn [certificate certificateKey protocols hsts].
  cbn [app truthyStr negb Validator.pushIf].
  destruct ps as [l|]; [now rewrite H|reflexivity].
Qed.

Lemma domainErrors_nil (d : str) :
  match d with
  | [] => Validator.pushIf true "domain" "Domain is required"
  | _ :: _ => Validator.pushIf (negb (matches Validator.domainPattern d))
                "domain" "Invalid domain format"
  end = []
  <-> matches Validator.domainPattern d = true.
Proof.
  destruct d as [|c d].
  - split; discriminate.
  - rewrite pushIf_nil. apply negb_false_iff.
Qed.

Lemma serverName_www (d : str) :
  match d ++ " www." ++ d with [] => true | _ :: _ => false end = false.
Proof. now destruct d. Qed.

Lemma find_assign {A : Type} (P : A -> Prop) (o : list (str * A))
  (kv : str * A) :
  Forall (fun e => P (snd e)) o -> P (snd kv) ->
  Forall (fun e => P (snd e)) (Templates.assign o kv).
Proof.
  intros Ho Hkv. unfold Templates.assign. destruct (Templates.find (fst kv) o).
  - induction o as [|[k' v'] o IH]; [constructor|].
    inversion Ho; subst. cbn.
    destruct (seqb (fst kv) k'); constructor; auto.
  - induction o as [|[k' v'] o IH]; cbn; [now repeat constructor|].
    inversion Ho; subst.
    destruct (key_before (fst kv) k'); constructor; auto.
Qed.

Lemma fromEntries_values {A : Type} (P : A -> Prop) (pairs : list (str * A)) :
  Forall (fun e => P (snd e)) pairs ->
  Forall (fun e => P (snd e)) (Templates.fromEntries pairs).
Proof.
  unfold Templates.fromEntries. generalize (@nil (str * A)) (Forall_nil (fun e : str * A => P (snd e))).
  induction pairs as [|kv pairs IH]; intros o Ho H; [exact Ho|].
  inversion H; subst. cbn [fold_left]. apply IH; [|assumption].
  now apply find_assign.
Qed.

Lemma upstreamErrors_services (services : list Templates.Service) :
  concat (map Validator.upstreamErrors (Templates.fromEntries (map Templates.serviceUpstream services)))
  = [].
Proof.
  apply concat_nil. apply Forall_map.
  assert (F : Forall (fun e : str * list UpstreamServer =>
                        forall name, Validator.upstreamErrors (name, snd e) = [])
                (Templates.fromEntries (map Templates.serviceUpstream services))).
  { apply (fromEntries_values
             (fun servers => forall name, Validator.upstreamErrors (name, servers) = [])).
    apply Forall_map. apply Forall_forall. intros svc _ name. reflexivity. }
  apply Forall_impl with (2 := F). intros [k v] H. apply H.
Qed.

Lemma serviceLocation_errors (u : str -> bool) (d : str) (i : nat)
  (svc : Templates.Service) :
  Validator.locationErrors u i (Templates.serviceLocation d svc) = []
  <-> Templates.svc_path svc <> ""
      /\ Validator.isValidUrl u ("http://" ++ Templates.svc_name svc) = true.
Proof.
  unfold Validator.locationErrors, Templates.serviceLocation.
  cbn [path proxyPass rateLimit cache websocket truthyStr tplStr app andb].
  rewrite !app_nil_r. rewrite app_nil_iff, !pushIf_nil.
  rewrite nonempty_false, negb_false_iff. reflexivity.
Qed.

(** X17.  The schema of the [static] and [wordpress] templates is accepted
    exactly when the domain is; that of the [spa] template when moreover
    the API address, if one is given, is a valid URL; that of the
    [microservices] template when moreover there is at least one service
    and every service has a path and a name that makes a valid URL. *)
Theorem templates_accepted (parsesAsUrl : str -> bool) :
  (forall p, Validator.validateConfig parsesAsUrl (Templates.static p) = []
             <-> matches Validator.domainPattern (Templates.st_domain p) = true)
  /\ (forall p, Validator.validateConfig parsesAsUrl (Templates.wordpress p) = []
                <-> matches Validator.domainPattern (Templates.wp_domain p) = true)
  /\ (forall p, Validator.validateConfig parsesAsUrl (Templates.spa p) = []
                <-> matches Validator.domainPattern (Templates.spa_domain p) = true
                    /\ (truthyStr (Templates.spa_apiUrl p) = true ->
                        Validator.isValidUrl parsesAsUrl (tplStr (Templates.spa_apiUrl p))
                        = true))
  /\ (forall p, Validator.validateConfig parsesAsUrl (Templates.microservices p) = []
                <-> matches Validator.domainPattern (Templates.mp_domain p) = true
                    /\ Templates.mp_services p <> []
                    /\ Forall (fun svc =>
                                 Templates.svc_path svc <> ""
                                 /\ Validator.isValidUrl parsesAsUrl
                                      ("http://" ++ Templates.svc_name svc) = true)
                         (Templates.mp_services p)).
Proof.
  split; [|split; [|split]]; intros p; unfold Validator.validateConfig.
  - cbn [Templates.static domain serverName port ssl security locations upstreams].
    rewrite serverName_www, badPort_portOf, sslErrors_sslOf by exact I.
    cbn. rewrite app_nil_r. apply domainErrors_nil.
  - cbn [Templates.wordpress domain serverName port ssl security locations upstreams].
    rewrite serverName_www, badPort_portOf, sslErrors_sslOf by exact I.
    cbn. rewrite app_nil_r. apply domainErrors_nil.
  - cbn [Templates.spa domain serverName port ssl security locations upstreams].
    rewrite serverName_www, badPort_portOf, sslErrors_sslOf by exact I.
    cbn [Validator.pushIf app xFrameOptions truthyStr tplStr andb].
    change (Validator.isOneOf Validator.frameOptions "DENY") with true. cbn [negb Validator.pushIf app].
    rewrite app_nil_r, app_nil_iff, domainErrors_nil.
    destruct (truthyStr (Templates.spa_apiUrl p)) eqn:T.
    + cbn. rewrite T. cbn [andb]. rewrite !app_nil_r.
      destruct (Validator.isValidUrl parsesAsUrl (tplStr (Templates.spa_apiUrl p)));
        cbn; intuition congruence.
    + cbn. intuition congruence.
  - cbn [Templates.microservices domain serverName port ssl security locations
         upstreams].
    rewrite badPort_portOf, sslErrors_sslOf by reflexivity.
    rewrite upstreamErrors_services.
    cbn [Validator.pushIf app xFrameOptions truthyStr tplStr andb].
    change (Validator.isOneOf Validator.frameOptions "DENY") with true. cbn [negb Validator.pushIf app].
    rewrite !app_nil_r, !app_nil_iff, domainErrors_nil, pushIf_nil.
    rewrite nonempty_false.
    assert (L : match map (Templates.serviceLocation (Templates.mp_domain p)) (Templates.mp_services p) with
                | [] => Validator.pushIf true "locations"
                          "At least one location block is required"
                | _ :: _ =>
                    Validator.eachIndexed (Validator.locationErrors parsesAsUrl) 0
                      (map (Templates.serviceLocation (Templates.mp_domain p)) (Templates.mp_services p))
                end = []
                <-> Templates.mp_services p <> []
                    /\ Forall (fun svc =>
                                 Templates.svc_path svc <> ""
                                 /\ Validator.isValidUrl parsesAsUrl
                                      ("http://" ++ Templates.svc_name svc) = true)
                         (Templates.mp_services p)).
    { assert (G : forall l i,
                 Validator.eachIndexed (Validator.locationErrors parsesAsUrl) i
                   (map (Templates.serviceLocation (Templates.mp_domain p)) l) = []
                 <-> Forall (fun svc =>
                               Templates.svc_path svc <> ""
                               /\ Validator.isValidUrl parsesAsUrl
                                    ("http://" ++ Templates.svc_name svc) = true) l).
      { induction l as [|x l IH]; intros i; cbn.
        - split; [constructor|reflexivity].
        - rewrite app_nil_iff, serviceLocation_errors, IH. split.
          + intros [A B]. now constructor.
          + intros F. inversion F; subst. now split. }
      destruct (Templates.mp_services p) as [|svc svcs].
      - cbn. split; [discriminate|]. intros [N _]. contradiction.
      - specialize (G (svc :: svcs) 0%nat). cbn [map] in G |- *.
        rewrite G. split; [intros F; split; [discriminate|exact F]|].
        now intros [_ F]. }
    rewrite L. destruct (Templates.mp_domain p) eqn:D.
    + cbn. intuition congruence.
    + intuition congruence.
Qed.

(* ---------- the static template, generated ---------- *)
(** Equality of two texts built from the same pieces, read from the
    left. *)
Ltac same_text :=
  repeat match goal with
         | |- ?x = ?x => reflexivity
         | |- _ :: _ = _ :: _ => apply (f_equal (cons _))
         | |- (_ ++ _) ++ _ = _ => rewrite <- app_assoc
         | |- _ = (_ ++ _) ++ _ => rewrite <- app_assoc
         | |- ?d ++ _ = ?d ++ _ => apply (f_equal (app d))
         | |- _ => progress cbn [app]
         end.

(** X16.  The text generated for the [static] template: the redirect block and
    the certificate lines exactly when SSL is enabled, then the two
    location blocks. *)
Theorem static_site_text (d rootPath : str) (sslEnabled : option bool) :
  rootPath <> "" ->
  fst (generateNginxConfig
         (Templates.static {| Templates.st_domain := d; Templates.st_rootPath := rootPath;
                    Templates.st_sslEnabled := sslEnabled |}))
  = (if truthyBool sslEnabled
     then "server {" ++ nl
          ++ "    listen 80;" ++ nl
          ++ "    server_name " ++ d ++ " www." ++ d ++ ";" ++ nl
          ++ "    return 301 https://$server_name$request_uri;" ++ nl
          ++ "}" ++ nl ++ nl
          ++ "server {" ++ nl
          ++ "    listen 443 ssl;" ++ nl
          ++ "    server_name " ++ d ++ " www." ++ d ++ ";" ++ nl ++ nl
          ++ "    ssl_certificate /etc/letsencrypt/live/" ++ d
          ++ "/fullchain.pem;" ++ nl
          ++ "    ssl_certificate_key /etc/letsencrypt/live/" ++ d
          ++ "/privkey.pem;" ++ nl
     else "server {" ++ nl
          ++ "    listen 80;" ++ nl
          ++ "    server_name " ++ d ++ " www." ++ d ++ ";" ++ nl ++ nl)
    ++ "    gzip on;" ++ nl
    ++ "    gzip_types " ++ gzipTypesDefault ++ ";" ++ nl ++ nl
    ++ "    location / {" ++ nl
    ++ "        root " ++ rootPath ++ ";" ++ nl
    ++ "        index index.html;" ++ nl
    ++ "        try_files $uri $uri/ =404;" ++ nl
    ++ "    }" ++ nl ++ nl
    ++ "    location /assets {" ++ nl
    ++ "        root " ++ rootPath ++ ";" ++ nl
    ++ "        expires 30d;" ++ nl
    ++ "        add_header Cache-Control public;" ++ nl
    ++ "    }" ++ nl
    ++ "}".
Proof.
  intros N. destruct rootPath as [|c r]; [contradiction|].
  unfold generateNginxConfig, Templates.static, forcedRedirect,
    Templates.sslOf, Templates.portOf.
  cbn [upstreams ssl microservices locations fst
       Templates.st_sslEnabled Templates.st_domain Templates.st_rootPath].
  destruct (truthyBool sslEnabled);
    cbv -[app gzipTypesDefault]; same_text.
Qed.
(* ---------- challenge server ---------- *)
Lemma split_ends (sep : ascii) (t : str) :
  lacks sep t ->
  forall a, exists x xs, split sep (a ++ sep :: t) = (x :: xs) ++ [t].
Proof.
  intros H. induction a as [|c a [x [xs IH]]].
  - exists [], []. cbn. rewrite ceq_refl. now rewrite split_lacks.
  - cbn [app split]. rewrite IH. destruct (ceq c sep).
    + now exists [], (x :: xs).
    + now exists (c :: x), xs.
Qed.

Lemma challenge_get_set (token response : str) (m : Challenge.store) :
  Challenge.get token (Challenge.set token response m) = Some response.
Proof.
  induction m as [|[k v] m IH]; cbn.
  - now rewrite seqb_refl.
  - destruct (seqb token k) eqn:E; cbn; rewrite E; [reflexivity|exact IH].
Qed.

Lemma challenge_get_delete (token : str) (m : Challenge.store) :
  Challenge.get token (Challenge.delete token m) = None.
Proof.
  induction m as [|[k v] m IH]; [reflexivity|].
  unfold Challenge.delete in *. cbn.
  destruct (seqb token k) eqn:E; cbn; [exact IH|]. now rewrite E.
Qed.

(** X25.  A challenge that was added is served, with status 200, on every path
    under the prefix that ends in its token; once removed, the same path
    is answered 404; a path outside the prefix is always answered 404. *)
Theorem challenge_lifecycle (challenges : Challenge.store)
  (token response before : str) :
  token <> "" -> lacks "/"%char token ->
  startsWith "/.well-known/acme-challenge/" (before ++ "/" ++ token) = true ->
  Challenge.handler (Challenge.addChallenge token response challenges)
    (before ++ "/" ++ token)
  = {| Challenge.status := 200; Challenge.body := response;
       Challenge.contentType := Some "text/plain" |}
  /\ Challenge.handler
       (Challenge.removeChallenge token
          (Challenge.addChallenge token response challenges))
       (before ++ "/" ++ token)
     = {| Challenge.status := 404; Challenge.body := "Challenge not found";
          Challenge.contentType := None |}
  /\ forall other,
       startsWith "/.well-known/acme-challenge/" other = false ->
       Challenge.handler (Challenge.addChallenge token response challenges)
         other
       = {| Challenge.status := 404; Challenge.body := "Not Found";
            Challenge.contentType := None |}.
Proof.
  intros N L P.
  assert (T : last (split "/"%char (before ++ "/" ++ token)) "" = token).
  { destruct (split_ends "/"%char token L before) as [x [xs E]].
    cbn [app]. rewrite E. apply last_last. }
  split; [|split].
  - unfold Challenge.handler. cbv zeta. rewrite P, T. cbn [negb].
    unfold Challenge.addChallenge. rewrite challenge_get_set.
    destruct token; [contradiction|reflexivity].
  - unfold Challenge.handler. cbv zeta. rewrite P, T. cbn [negb].
    unfold Challenge.removeChallenge. rewrite challenge_get_delete.
    destruct token; reflexivity.
  - intros other H. unfold Challenge.handler. now rewrite H.
Qed.

Lemma challenge_lifecycle_witness :
  Challenge.handler (Challenge.addChallenge "tok1" "tok1.thumb" [])
    "/.well-known/acme-challenge/tok1"
  = {| Challenge.status := 200; Challenge.body := "tok1.thumb";
       Challenge.contentType := Some "text/plain" |}.
Proof.
  apply (challenge_lifecycle [] "tok1" "tok1.thumb"
           "/.well-known/acme-challenge");
    [discriminate|reflexivity|reflexivity].
Defined.

Section Disk.
Variable disk : Type.
Variable view : disk -> Fs.
Variable statIsFile : disk -> str -> res bool.
Variable writeTextFile : disk -> str -> str -> res disk.

Lemma writeConfigFile_written (d d' : disk) (this this' : instance)
  (name : str) (data : Files.payload) (overwrite : bool) :
  Files.writeConfigFile disk view statIsFile writeTextFile d this name data
    overwrite = (this', Files.Written d') ->
  writeTextFile d name (Files.contentOf data) = Ok d'
  /\ (statIsFile d name = Ok true -> overwrite = true).
Proof.
  unfold Files.writeConfigFile. intros E. injection E as _ E.
  destruct (writeTextFile d name (Files.contentOf data)) as [d0|e] eqn:W.
  - destruct (statIsFile d name) as [[|]|[]] eqn:S;
      try discriminate; try (destruct overwrite; discriminate);
      try (injection E as <-; split; [reflexivity|discriminate]).
    destruct overwrite; [|discriminate]. injection E as <-. now split.
  - destruct (statIsFile d name) as [[|]|[]];
      try discriminate; destruct overwrite; discriminate.
Qed.
End Disk.

(** X22.  [writeConfigFile] writes over an existing file only when [overwrite]
    is set: if the call succeeds, the text of [data] was handed to the file
    system, and the name was not that of an existing file unless
    [overwrite] was true. *)
Theorem write_respects_overwrite (disk : Type) (view : disk -> Fs)
  (statIsFile : disk -> str -> res bool)
  (writeTextFile : disk -> str -> str -> res disk)
  (d d' : disk) (this this' : instance) (name : str)
  (data : Files.payload) (overwrite : bool) :
  Files.writeConfigFile disk view statIsFile writeTextFile d this name data
    overwrite = (this', Files.Written d') ->
  writeTextFile d name (Files.contentOf data) = Ok d'
  /\ (statIsFile d name = Ok true -> overwrite = true)
  /\ (statIsFile d name = Ok true ->
      snd (Files.writeConfigFile disk view statIsFile writeTextFile d this
             name data false) = Files.Failed Files.FileExists).
Proof.
  intros E.
  destruct (writeConfigFile_written disk view statIsFile writeTextFile
              d d' this this' name data overwrite E) as [W G].
  split; [exact W|]. split; [exact G|].
  intros S. unfold Files.writeConfigFile. cbn [snd]. now rewrite S.
Qed.

Lemma write_respects_overwrite_witness :
  snd (Files.writeConfigFile Files.plainDisk Files.plainView Files.plainStat
         Files.plainWrite [("/etc/nginx/nginx.conf", "user nginx;")]
         newParser "/etc/nginx/nginx.conf" (Files.Text "user www;") false)
  = Files.Failed Files.FileExists.
Proof.
  apply (write_respects_overwrite Files.plainDisk Files.plainView
           Files.plainStat Files.plainWrite
           [("/etc/nginx/nginx.conf", "user nginx;")]
           [("/etc/nginx/nginx.conf", "user www;");
            ("/etc/nginx/nginx.conf", "user nginx;")]
           newParser
           (setFileName (Files.plainView
                           [("/etc/nginx/nginx.conf", "user nginx;")])
              newParser "/etc/nginx/nginx.conf")
           "/etc/nginx/nginx.conf" (Files.Text "user www;") true);
    reflexivity.
Defined.



Lemma includes_searched_in_first_directory_witness :
  findFilesOf (Files.plainView [])
    (fst (readConfigFile (Files.plainView [])
            (fst (readConfigFile (Files.plainView []) newParser
                    "/etc/nginx/nginx.conf" None))
            "/srv/other/site.conf" None))
    {| parseIncludes := true; includesRoot := Some "/srv/other";
       ignoreIncludeErrors := false |}
    "include conf.d/*.conf;"
  = "/etc/nginx/conf.d/*.conf".
Proof.
  destruct (includes_searched_in_first_directory (Files.plainView [])
              "/etc/nginx/nginx.conf" "/srv/other/site.conf" None None
              {| parseIncludes := true; includesRoot := Some "/srv/other";
                 ignoreIncludeErrors := false |}
              "include conf.d/*.conf;") as [_ E].
  - discriminate.
  - etransitivity; [exact E|reflexivity].
Defined.
(* ---------- the extractor and locations ---------- *)
Lemma blockShaped_obj (o : list (str * value)) :
  blockShaped (VObj o) = forallb shapedEntry o.
Proof. reflexivity. Qed.

Lemma blockShaped_is_obj (v : value) :
  blockShaped v = true -> exists o, v = VObj o.
Proof. destruct v; try discriminate. intros _. now eexists. Qed.

Lemma shapedEntry_directives (v : value) :
  shapedEntry ("_directives", v) = true.
Proof. reflexivity. Qed.

Lemma shaped_assoc (k : str) (x : value) (o : list (str * value)) :
  forallb shapedEntry o = true -> assoc k o = Some x ->
  shapedEntry (k, x) = true.
Proof.
  induction o as [|[k' v'] o IH]; cbn [assoc forallb]; [discriminate|].
  intros H E. apply andb_true_iff in H. destruct H as [H1 H2].
  destruct (seqb k k') eqn:K; [|now apply IH].
  apply seqb_eq in K. subst k'. now injection E as <-.
Qed.

Lemma shaped_obj_set (k : str) (v : value) (o : list (str * value)) :
  forallb shapedEntry o = true -> shapedEntry (k, v) = true ->
  forallb shapedEntry (obj_set k v o) = true.
Proof.
  intros Ho Hv. unfold obj_set. destruct (assoc k o).
  - induction o as [|[k' v'] o IH]; [reflexivity|].
    cbn [forallb] in Ho. apply andb_true_iff in Ho. destruct Ho as [H1 H2].
    cbn [obj_replace]. destruct (seqb k k') eqn:K; cbn [forallb].
    + apply seqb_eq in K. subst k'. now rewrite Hv, H2.
    + now rewrite H1, IH.
  - induction o as [|[k' v'] o IH]; cbn [obj_insert forallb].
    + now rewrite Hv.
    + cbn [forallb] in Ho. apply andb_true_iff in Ho.
      destruct Ho as [H1 H2].
      destruct (key_before k k'); cbn [forallb].
      * now rewrite Hv, H1, H2.
      * now rewrite H1, IH.
Qed.

Lemma forallb_snoc {A : Type} (p : A -> bool) (l : list A) (x : A) :
  forallb p (l ++ [x]) = forallb p l && p x.
Proof. rewrite forallb_app. cbn. now rewrite andb_true_r. Qed.

Lemma store_shaped (key : str) (nested : value) (o : list (str * value)) :
  forallb shapedEntry o = true -> blockShaped nested = true ->
  forallb shapedEntry (Extract.store key nested o) = true.
Proof.
  intros Ho Hn. destruct (blockShaped_is_obj _ Hn) as [n ->].
  unfold Extract.store.
  destruct (assoc key o) as [x|] eqn:E.
  - pose proof (shaped_assoc _ _ _ Ho E) as S.
    unfold shapedEntry in S. cbn [fst snd] in S.
    destruct (seqb key "_directives") eqn:K.
    + apply seqb_eq in K. subst key.
      destruct x; apply shaped_obj_set; try assumption; reflexivity.
    + cbn [orb] in S. destruct x as [s|m|ox|[|y a]]; try discriminate.
      * apply shaped_obj_set; [assumption|].
        unfold shapedEntry. cbn [fst snd]. rewrite K. cbn [orb forallb].
        now rewrite S, Hn.
      * apply shaped_obj_set; [assumption|].
        unfold shapedEntry. cbn [fst snd app]. rewrite K. cbn [orb].
        change (y :: a ++ [VObj n]) with ((y :: a) ++ [VObj n]).
        now rewrite forallb_snoc, S, Hn.
  - apply shaped_obj_set; [assumption|].
    unfold shapedEntry. cbn [fst snd]. now rewrite Hn, orb_true_r.
Qed.

Lemma storeBuffer_shaped (buffer : str) (o : list (str * value)) :
  forallb shapedEntry o = true ->
  forallb shapedEntry (Extract.storeBuffer buffer None o) = true.
Proof.
  intros Ho. unfold Extract.storeBuffer.
  destruct (trim buffer) as [|c r]; [assumption|].
  cbn [Extract.keyName]. unfold Extract.store.
  destruct (assoc "_directives" o) as [[| | |]|];
    apply shaped_obj_set; try assumption; reflexivity.
Qed.

(** Every block [parseBlock] returns has the shape. *)
Lemma parseBlockLoop_shaped (fuel : nat) :
  forall (text : str) (result : list (str * value)) (buffer : str)
         (v : value) (rest : str),
    forallb shapedEntry result = true ->
    Extract.parseBlockLoop fuel text result buffer None = Some (v, rest) ->
    blockShaped v = true.
Proof.
  induction fuel as [|fuel IH]; intros text result buffer v rest Ho E;
    [discriminate|].
  cbn [Extract.parseBlockLoop] in E.
  destruct text as [|char text].
  - injection E as <- _. exact Ho.
  - destruct (ceq char "{"%char).
    + assert (K : exists key buffer',
                 (match buffer with
                  | [] => (@None str, buffer)
                  | _ :: _ => (Some (trim buffer), [])
                  end) = (key, buffer')) by (destruct buffer; eauto).
      destruct K as [key [buffer' K]]. rewrite K in E.
      destruct (Extract.parseBlockLoop fuel text [] [] None)
        as [[nested rest']|] eqn:N; [|discriminate].
      assert (Hn : blockShaped nested = true)
        by exact (IH text [] [] nested rest' (eq_refl true) N).
      exact (IH _ _ _ _ _ (store_shaped (Extract.keyName key) nested result
                             Ho Hn) E).
    + destruct (ceq char "}"%char).
      * injection E as <- _. rewrite blockShaped_obj.
        destruct buffer; [assumption|now apply storeBuffer_shaped].
      * destruct (ceq char ";"%char).
        -- exact (IH _ _ _ _ _ (storeBuffer_shaped buffer result Ho) E).
        -- exact (IH _ _ _ _ _ Ho E).
Qed.

(** The fuel [parse] gives [parseBlock] is enough. *)
Lemma parseBlockLoop_fuel (fuel : nat) :
  forall (text : str) (result : list (str * value)) (buffer : str)
         (key : option str),
    (length text < fuel)%nat ->
    exists v rest,
      Extract.parseBlockLoop fuel text result buffer key = Some (v, rest)
      /\ (length rest <= length text)%nat.
Proof.
  induction fuel as [|fuel IH]; intros text result buffer key L; [lia|].
  cbn [Extract.parseBlockLoop].
  destruct text as [|char text].
  - eexists _, _. split; [reflexivity|lia].
  - cbn [length] in L.
    destruct (ceq char "{"%char).
    + destruct (match key, buffer with
                | None, _ :: _ => (Some (trim buffer), [])
                | _, _ => (key, buffer)
                end) as [key' buffer'].
      destruct (IH text [] [] None) as [nested [rest' [N Ln]]]; [lia|].
      rewrite N.
      destruct (IH rest' (Extract.store (Extract.keyName key') nested result)
                  buffer' None) as [v [rest [E Le]]]; [lia|].
      exists v, rest. split; [exact E|cbn [length]; lia].
    + destruct (ceq char "}"%char).
      * eexists _, _. split; [reflexivity|cbn [length]; lia].
      * destruct (ceq char ";"%char).
        -- destruct (IH text (Extract.storeBuffer buffer key result) []
                       None) as [v [rest [E Le]]]; [lia|].
           exists v, rest. split; [exact E|cbn [length]; lia].
        -- destruct (IH text result (buffer ++ [char]) key)
             as [v [rest [E Le]]]; [lia|].
           exists v, rest. split; [exact E|cbn [length]; lia].
Qed.

Lemma parse_shaped (text : str) :
  exists block, Extract.parse text = Some block /\ blockShaped block = true.
Proof.
  unfold Extract.parse, Extract.parseBlock.
  destruct (parseBlockLoop_fuel
              (S (length (Extract.collapseSpaces false
                            (Extract.stripComments false text))))
              (Extract.collapseSpaces false
                 (Extract.stripComments false text)) [] [] None)
    as [v [rest [E _]]]; [lia|].
  rewrite E. exists v. split; [reflexivity|].
  exact (parseBlockLoop_shaped _ _ [] _ _ _ (eq_refl true) E).
Qed.

Lemma parseLocation_shaped (block : value) :
  blockShaped block = true ->
  Extract.parseLocation block = Throw TypeError.
Proof.
  intros H. destruct (blockShaped_is_obj _ H) as [o ->].
  unfold Extract.parseLocation. cbn [get_prop].
  destruct (assoc "location" o) as [x|] eqn:E; [|reflexivity].
  pose proof (shaped_assoc _ _ _ H E) as S.
  destruct x; [discriminate S|reflexivity..].
Qed.

Lemma mapLocations_shaped (l : value) :
  shapedEntry ("location", l) = true ->
  Extract.mapLocations (Extract.arrayOf l) = Throw TypeError.
Proof.
  unfold shapedEntry. cbn [fst snd]. change (seqb "location" "_directives")
    with false. cbn [orb]. intros H.
  destruct l as [s|n|o|[|x a]]; try discriminate.
  - cbn [Extract.arrayOf Extract.mapLocations].
    now rewrite parseLocation_shaped.
  - cbn [forallb] in H. apply andb_true_iff in H. destruct H as [H _].
    cbn [Extract.arrayOf Extract.mapLocations].
    now rewrite parseLocation_shaped.
Qed.

Lemma serverDirective_locations (config config' : ServerConfig) (d : str) :
  Extract.serverDirective config d = Ok config' ->
  sc_locations config' = sc_locations config.
Proof.
  unfold Extract.serverDirective.
  repeat match goal with
         | |- context [if ?b then _ else _] => destruct b
         | |- context [match ?x with _ => _ end] => destruct x
         end; intros H; try discriminate; now injection H as <-.
Qed.

Lemma forEach_serverDirective_locations (ds : list str) :
  forall config config',
    forEach Extract.serverDirective ds config = Ok config' ->
    sc_locations config' = sc_locations config.
Proof.
  induction ds as [|d ds IH]; intros config config' H.
  - now injection H as <-.
  - cbn [forEach] in H.
    destruct (Extract.serverDirective config d) as [c|e] eqn:E;
      [|discriminate].
    cbn [Js.bind] in H. rewrite (IH _ _ H).
    exact (serverDirective_locations _ _ _ E).
Qed.

Lemma forEach_throws {A S : Type} (f : S -> A -> res S) (P : error -> Prop) :
  (forall s x e, f s x = Throw e -> P e) ->
  forall l s e, forEach f l s = Throw e -> P e.
Proof.
  intros H. induction l as [|x l IH]; intros s e E; [discriminate|].
  cbn [forEach] in E. destruct (f s x) as [s'|e'] eqn:F.
  - exact (IH _ _ E).
  - injection E as <-. exact (H _ _ _ F).
Qed.

Lemma asStrings_throws (l : list value) (e : error) :
  Extract.asStrings l = Throw e -> e = TypeError.
Proof.
  induction l as [|[s|n|o|a] l IH]; cbn; intros H; try discriminate;
    try (now injection H as <-).
  destruct (Extract.asStrings l); [discriminate|].
  injection H as <-. now apply IH.
Qed.

Lemma sslDirective_throws (s : SSLConfig) (d : str) (e : error) :
  Extract.sslDirective s d = Throw e -> e = TypeError.
Proof.
  unfold Extract.sslDirective.
  repeat match goal with
         | |- context [if ?b then _ else _] => destruct b
         | |- context [match ?x with _ => _ end] => destruct x
         end; intros H; try discriminate; now injection H as <-.
Qed.

Lemma parseServer_shaped (server : value) :
  blockShaped server = true ->
  match Extract.parseServer server with
  | Ok config => sc_locations config = None
  | Throw e => e = TypeError
  end.
Proof.
  intros H. destruct (blockShaped_is_obj _ H) as [o ->].
  unfold Extract.parseServer.
  destruct (Extract.truthy (get_prop (VObj o) "_directives"));
    [|reflexivity].
  destruct (Extract.asStrings _) as [ds|e] eqn:A; cbn [Js.bind].
  2:{ now apply asStrings_throws in A. }
  destruct (forEach Extract.serverDirective ds emptyServer) as [c1|e] eqn:F;
    cbn [Js.bind].
  2:{ apply (forEach_throws Extract.serverDirective
               (fun e => e = TypeError) serverDirective_throws _ _ _ F). }
  apply forEach_serverDirective_locations in F. cbn in F.
  assert (S : match
                match filter (startsWith "ssl_") ds with
                | [] => Ok c1
                | _ :: _ =>
                    sslConfig <- Extract.parseSSLConfig
                                   (filter (startsWith "ssl_") ds) ;;
                    Ok (Extract.set_sc_ssl (Some sslConfig) c1)
                end
              with
              | Ok c2 => sc_locations c2 = None
              | Throw e => e = TypeError
              end).
  { destruct (filter (startsWith "ssl_") ds) as [|x l]; [exact F|].
    destruct (Extract.parseSSLConfig (x :: l)) as [sc|e] eqn:P;
      cbn [Js.bind]; [exact F|].
    apply (forEach_throws Extract.sslDirective
             (fun e => e = TypeError) sslDirective_throws _ _ _ P). }
  destruct (match filter (startsWith "ssl_") ds with
            | [] => Ok c1
            | _ :: _ => _
            end) as [c2|e]; cbn [Js.bind]; [|exact S].
  destruct (fold_left Extract.headerDirective ds (emptySecurity, false))
    as [headers assigned].
  cbn [get_prop].
  destruct (assoc "location" o) as [l|] eqn:L.
  - rewrite (mapLocations_shaped l (shaped_assoc _ _ _ H L)). reflexivity.
  - destruct assigned; exact S.
Qed.

Lemma mapServers_shaped (servers : list value) :
  forallb blockShaped servers = true ->
  match Extract.mapServers servers with
  | Ok configs => Forall (fun config => sc_locations config = None) configs
  | Throw e => e = TypeError
  end.
Proof.
  induction servers as [|s servers IH]; intros H; [constructor|].
  cbn [forallb] in H. apply andb_true_iff in H. destruct H as [H1 H2].
  cbn [Extract.mapServers].
  pose proof (parseServer_shaped s H1) as P.
  destruct (Extract.parseServer s) as [c|e]; cbn [Js.bind]; [|exact P].
  specialize (IH H2).
  destruct (Extract.mapServers servers) as [cs|e]; cbn [Js.bind];
    [|exact IH].
  now constructor.
Qed.

(** X8.  Whatever the text, [convert] returns (throwing at most a TypeError),
    and no schema it returns holds a location: the parsed block of a
    location never has the string [parseLocation] reads its path from. *)
Theorem convert_returns_no_location (text : str) :
  exists r, Extract.convert text = Some r /\ withoutLocations r.
Proof.
  unfold Extract.convert.
  destruct (parse_shaped text) as [block [-> H]].
  eexists. split; [reflexivity|].
  destruct (blockShaped_is_obj _ H) as [o ->]. cbn [get_prop].
  destruct (assoc "server" o) as [sv|] eqn:E; [|reflexivity].
  pose proof (shaped_assoc _ _ _ H E) as S.
  unfold shapedEntry in S. cbn [fst snd] in S.
  change (seqb "server" "_directives") with false in S. cbn [orb] in S.
  assert (F : forallb blockShaped (Extract.arrayOf sv) = true).
  { destruct sv as [s|n|ov|[|x a]]; try discriminate.
    - cbn [Extract.arrayOf forallb]. now rewrite S.
    - exact S. }
  pose proof (mapServers_shaped _ F) as M.
  unfold withoutLocations.
  destruct (Extract.mapServers (Extract.arrayOf sv)) as [configs|e];
    cbn [Js.bind]; [|exact M].
  destruct configs as [|c [|c' cs]]; [constructor| |exact M].
  now inversion M.
Qed.
(* ---------- a server block, from its text ---------- *)
Lemma spaced_cases (d : str) :
  spaced d = true ->
  exists c, plainChar c = true
            /\ (d = [c]
                \/ (exists r, d = c :: " "%char :: r /\ spaced r = true)
                \/ (exists r, d = c :: r /\ spaced r = true)).
Proof.
  destruct d as [|c r]; [discriminate|]. cbn [spaced]. intros H.
  apply andb_true_iff in H. destruct H as [Hc H]. exists c.
  split; [assumption|]. destruct r as [|s r']; [now left|].
  destruct (ceq s " "%char) eqn:E.
  - apply ceq_eq in E. subst s. right. left. now exists r'.
  - right. right. now exists (s :: r').
Qed.

Lemma spaced_ind' (P : str -> Prop) :
  (forall c, plainChar c = true -> P [c]) ->
  (forall c r, plainChar c = true -> spaced r = true -> P r ->
               P (c :: " "%char :: r)) ->
  (forall c r, plainChar c = true -> spaced r = true -> P r -> P (c :: r)) ->
  forall d, spaced d = true -> P d.
Proof.
  intros H1 H2 H3.
  assert (G : forall n d, (length d <= n)%nat -> spaced d = true -> P d).
  { induction n as [|n IH]; intros d L S.
    - destruct d; [discriminate|cbn in L; lia].
    - destruct (spaced_cases d S) as [c [Hc [->|[[r [-> Sr]]|[r [-> Sr]]]]]].
      + now apply H1.
      + apply H2; try assumption. apply IH; [cbn in L; lia|assumption].
      + apply H3; try assumption. apply IH; [cbn in L; lia|assumption]. }
  intros d. now apply (G (length d)).
Qed.

Lemma plainChar_facts (c : ascii) :
  plainChar c = true ->
  is_ws c = false /\ ceq c "#"%char = false /\ ceq c ";"%char = false
  /\ ceq c "{"%char = false /\ ceq c "}"%char = false.
Proof.
  unfold plainChar. rewrite !andb_true_iff, !negb_true_iff. tauto.
Qed.

Ltac plain_facts :=
  repeat match goal with
         | H : plainChar _ = true |- _ =>
             apply plainChar_facts in H; destruct H as [? [? [? [? ?]]]]
         end.

Lemma stripComments_spaced (d rest : str) :
  spaced d = true ->
  Extract.stripComments false (d ++ rest)
  = d ++ Extract.stripComments false rest.
Proof.
  intros Hs. pattern d. apply spaced_ind'; [| | |exact Hs].
  - intros c Hc. plain_facts. cbn [app Extract.stripComments].
    now rewrite H0.
  - intros c r Hc Sr IH. plain_facts. cbn [app Extract.stripComments].
    rewrite H0. change (ceq " "%char "#"%char) with false. cbv iota.
    now rewrite <- IH.
  - intros c r Hc Sr IH. plain_facts. cbn [app Extract.stripComments].
    rewrite H0. now rewrite <- IH.
Qed.

Lemma collapseSpaces_spaced (d rest : str) :
  spaced d = true ->
  forall inRun,
    Extract.collapseSpaces inRun (d ++ rest)
    = d ++ Extract.collapseSpaces false rest.
Proof.
  intros Hs. pattern d. apply spaced_ind'; [| | |exact Hs].
  - intros c Hc inRun. plain_facts. cbn [app Extract.collapseSpaces].
    now rewrite H.
  - intros c r Hc Sr IH inRun. plain_facts.
    cbn [app Extract.collapseSpaces]. rewrite H.
    change (is_ws " "%char) with true. cbv iota.
    now rewrite <- (IH true).
  - intros c r Hc Sr IH inRun. plain_facts.
    cbn [app Extract.collapseSpaces]. rewrite H. now rewrite <- (IH false).
Qed.

Lemma last_indep (l : str) (a b : ascii) :
  l <> [] -> last l a = last l b.
Proof.
  induction l as [|x l IH]; [contradiction|]. intros _.
  destruct l as [|y l]; [reflexivity|].
  change (last (y :: l) a = last (y :: l) b). now apply IH.
Qed.

Lemma tight_cons (c : ascii) (l : str) :
  is_ws c = false -> tight l -> l <> [] -> tight (c :: l).
Proof.
  intros Hc T N. destruct l as [|x l]; [contradiction|].
  cbn [tight] in *. destruct T as [_ T]. split; [assumption|].
  change (last (c :: x :: l) c) with (last (x :: l) c).
  now rewrite (last_indep (x :: l) c x).
Qed.

Lemma spaced_tight (d : str) : spaced d = true -> tight d.
Proof.
  intros Hs. pattern d. apply spaced_ind'; [| | |exact Hs].
  - intros c Hc. plain_facts. cbn. now split.
  - intros c r Hc Sr T. plain_facts.
    destruct r as [|x r]; [discriminate|].
    cbn [tight] in *. destruct T as [_ T]. split; [assumption|].
    change (last (c :: " "%char :: x :: r) c) with (last (x :: r) c).
    now rewrite (last_indep (x :: r) c x).
  - intros c r Hc Sr T. plain_facts.
    apply tight_cons; [assumption|assumption|].
    destruct r; [discriminate|discriminate].
Qed.

Lemma spaced_quiet (d : str) :
  spaced d = true ->
  forallb (fun c => negb (ceq c "{"%char) && negb (ceq c "}"%char)
                    && negb (ceq c ";"%char)) d = true.
Proof.
  intros Hs. pattern d. apply spaced_ind'; [| | |exact Hs].
  - intros c Hc. plain_facts. cbn. now rewrite H1, H2, H3.
  - intros c r Hc Sr IH. plain_facts. cbn [forallb].
    rewrite H1, H2, H3, IH. reflexivity.
  - intros c r Hc Sr IH. plain_facts. cbn [forallb].
    now rewrite H1, H2, H3, IH.
Qed.

Lemma spaced_lacks_hash (d : str) : spaced d = true -> lacks "#"%char d.
Proof.
  intros Hs. pattern d. apply spaced_ind'; [| | |exact Hs].
  - intros c Hc. plain_facts. unfold lacks. cbn. now rewrite H0.
  - intros c r Hc Sr IH. plain_facts. unfold lacks in *. cbn [forallb].
    rewrite H0, IH. reflexivity.
  - intros c r Hc Sr IH. plain_facts. unfold lacks in *. cbn [forallb].
    now rewrite H0, IH.
Qed.

(** A run of characters that are no brace and no separator goes to the
    buffer. *)
Lemma parseBlockLoop_run (d : str) :
  forallb (fun c => negb (ceq c "{"%char) && negb (ceq c "}"%char)
                    && negb (ceq c ";"%char)) d = true ->
  forall (fuel : nat) (rest : str) (result : list (str * value))
         (buffer : str) (key : option str),
    Extract.parseBlockLoop (length d + fuel) (d ++ rest) result buffer key
    = Extract.parseBlockLoop fuel rest result (buffer ++ d) key.
Proof.
  induction d as [|c d IH]; intros H fuel rest result buffer key.
  - cbn. now rewrite app_nil_r.
  - cbn [forallb] in H. apply andb_true_iff in H. destruct H as [Hc H].
    apply andb_true_iff in Hc. destruct Hc as [Hc H3].
    apply andb_true_iff in Hc. destruct Hc as [H1 H2].
    apply negb_true_iff in H1, H2, H3.
    cbn [length app Nat.add Extract.parseBlockLoop].
    rewrite H1, H2, H3, IH by assumption.
    now rewrite <- app_assoc.
Qed.

Lemma parseBlockLoop_mono (fuel : nat) :
  forall (text : str) (result : list (str * value)) (buffer : str)
         (key : option str) (x : value * str) (fuel' : nat),
    Extract.parseBlockLoop fuel text result buffer key = Some x ->
    (fuel <= fuel')%nat ->
    Extract.parseBlockLoop fuel' text result buffer key = Some x.
Proof.
  induction fuel as [|fuel IH]; intros text result buffer key x fuel' E L;
    [discriminate|].
  destruct fuel' as [|fuel']; [lia|]. apply le_S_n in L.
  cbn [Extract.parseBlockLoop] in E |- *.
  destruct text as [|char text]; [exact E|].
  destruct (ceq char "{"%char).
  - destruct (match key, buffer with
              | None, _ :: _ => (Some (trim buffer), [])
              | _, _ => (key, buffer)
              end) as [key' buffer'].
    destruct (Extract.parseBlockLoop fuel text [] [] None)
      as [[nested rest']|] eqn:N; [|discriminate].
    rewrite (IH _ _ _ _ _ _ N L). now apply IH.
  - destruct (ceq char "}"%char); [exact E|].
    destruct (ceq char ";"%char); now apply IH.
Qed.

Lemma parseBlockLoop_enough (fuel fuel' : nat) (text : str)
  (result : list (str * value)) (buffer : str) (key : option str)
  (x : value * str) :
  (length text < fuel)%nat ->
  Extract.parseBlockLoop fuel' text result buffer key = Some x ->
  Extract.parseBlockLoop fuel text result buffer key = Some x.
Proof.
  intros L E.
  destruct (parseBlockLoop_fuel fuel text result buffer key L)
    as [v [rest [F _]]].
  pose proof (parseBlockLoop_mono _ _ _ _ _ _ (Nat.max fuel fuel') F
                (Nat.le_max_l _ _)) as F1.
  pose proof (parseBlockLoop_mono _ _ _ _ _ _ (Nat.max fuel fuel') E
                (Nat.le_max_r _ _)) as E1.
  rewrite F. congruence.
Qed.

Lemma parse_directives (ds : list str) :
  Forall (fun d => spaced d = true) ds ->
  forall (result : list (str * value)) (after : str),
  exists fuel,
    Extract.parseBlockLoop fuel
      (concat (map (fun d => " " ++ d ++ ";") ds) ++ " }" ++ after)
      result [] None
    = Some (VObj (fold_left
                    (fun r d => Extract.store "_directives" (VStr d) r)
                    ds result),
            after).
Proof.
  induction 1 as [|d ds Hd _ IH]; intros result after.
  - exists 2%nat. reflexivity.
  - destruct (IH (Extract.store "_directives" (VStr d) result) after)
      as [fuel E].
    exists (length (" " ++ d) + S fuel)%nat.
    cbn [map concat].
    replace (((" " ++ d ++ ";") ++ concat (map (fun d0 => " " ++ d0 ++ ";") ds))
             ++ " }" ++ after)
      with ((" " ++ d)
            ++ ";"%char
               :: (concat (map (fun d0 => " " ++ d0 ++ ";") ds)
                   ++ " }" ++ after))
      by (cbn [app]; now rewrite <- !app_assoc).
    rewrite parseBlockLoop_run.
    2:{ cbn [app forallb]. now rewrite spaced_quiet. }
    cbn [Extract.parseBlockLoop]. change (ceq ";" "{") with false.
    change (ceq ";" "}") with false. change (ceq ";" ";") with true.
    cbv iota. cbn [app fold_left]. unfold Extract.storeBuffer.
    pose proof (trim_lead " " d eq_refl) as TL. cbn [app] in TL.
    rewrite TL. clear TL.
    rewrite (trim_tight d (spaced_tight d Hd)).
    destruct d as [|c r]; [discriminate|]. exact E.
Qed.

Lemma stripComments_directives (ds : list str) (rest : str) :
  Forall (fun d => spaced d = true) ds ->
  Extract.stripComments false
    (concat (map (fun d => " " ++ d ++ ";") ds) ++ rest)
  = concat (map (fun d => " " ++ d ++ ";") ds)
    ++ Extract.stripComments false rest.
Proof.
  induction 1 as [|d ds Hd _ IH]; [reflexivity|].
  cbn [map concat]. rewrite <- !app_assoc.
  cbn [app Extract.stripComments]. change (ceq " " "#") with false.
  cbv iota. rewrite stripComments_spaced by assumption.
  cbn [app Extract.stripComments]. change (ceq ";" "#") with false.
  cbv iota.
  apply (f_equal (fun t => " "%char :: d ++ ";"%char :: t)). exact IH.
Qed.

Lemma collapseSpaces_directives (ds : list str) (rest : str) :
  Forall (fun d => spaced d = true) ds ->
  Extract.collapseSpaces false
    (concat (map (fun d => " " ++ d ++ ";") ds) ++ rest)
  = concat (map (fun d => " " ++ d ++ ";") ds)
    ++ Extract.collapseSpaces false rest.
Proof.
  induction 1 as [|d ds Hd _ IH]; [reflexivity|].
  cbn [map concat]. rewrite <- !app_assoc.
  cbn [app Extract.collapseSpaces]. change (is_ws " ") with true.
  cbv iota. rewrite collapseSpaces_spaced by assumption.
  cbn [app Extract.collapseSpaces]. change (is_ws ";") with false.
  cbv iota.
  apply (f_equal (fun t => " "%char :: d ++ ";"%char :: t)). exact IH.
Qed.

Lemma stripComments_cons (c : ascii) (l : str) :
  ceq c "#"%char = false ->
  Extract.stripComments false (c :: l) = c :: Extract.stripComments false l.
Proof. intros H. cbn. now rewrite H. Qed.

Lemma collapseSpaces_plain (c : ascii) (l : str) (inRun : bool) :
  is_ws c = false ->
  Extract.collapseSpaces inRun (c :: l)
  = c :: Extract.collapseSpaces false l.
Proof. intros H. cbn. now rewrite H. Qed.

Lemma collapseSpaces_space (l : str) :
  Extract.collapseSpaces false (" "%char :: l)
  = " "%char :: Extract.collapseSpaces true l.
Proof. reflexivity. Qed.

Lemma serverText_clean (ds : list str) :
  Forall (fun d => spaced d = true) ds ->
  Extract.collapseSpaces false
    (Extract.stripComments false (serverText ds)) = serverText ds.
Proof.
  intros H.
  assert (E1 : Extract.stripComments false (serverText ds) = serverText ds).
  { unfold serverText.
    change ("server {" ++ concat (map (fun d => " " ++ d ++ ";") ds) ++ " }")
      with ("server"
            ++ " "%char
               :: "{"%char
                  :: concat (map (fun d => " " ++ d ++ ";") ds) ++ " }").
    rewrite (stripComments_spaced "server") by reflexivity.
    rewrite !stripComments_cons by reflexivity.
    now rewrite stripComments_directives. }
  rewrite E1. unfold serverText.
  change ("server {" ++ concat (map (fun d => " " ++ d ++ ";") ds) ++ " }")
    with ("server"
          ++ " "%char
             :: "{"%char
                :: concat (map (fun d => " " ++ d ++ ";") ds) ++ " }").
  rewrite (collapseSpaces_spaced "server") by reflexivity.
  rewrite collapseSpaces_space, collapseSpaces_plain by reflexivity.
  now rewrite collapseSpaces_directives.
Qed.

Lemma fold_store_directives (ds : list str) (x y : str) (l : list str) :
  fold_left (fun r d => Extract.store "_directives" (VStr d) r) ds
    [("_directives", VArr (map VStr (x :: y :: l)))]
  = [("_directives", VArr (map VStr ((x :: y :: l) ++ ds)))].
Proof.
  revert l. induction ds as [|d ds IH]; intros l.
  - now rewrite app_nil_r.
  - cbn [fold_left]. unfold Extract.store at 2. cbn [assoc].
    change (seqb "_directives" "_directives") with true. cbv iota.
    unfold obj_set. cbn [assoc].
    change (seqb "_directives" "_directives") with true. cbv iota.
    cbn [obj_replace].
    change (seqb "_directives" "_directives") with true. cbv iota.
    replace (map VStr (x :: y :: l) ++ [VStr d])
      with (map VStr (x :: y :: (l ++ [d])))
      by (cbn [map]; now rewrite map_app).
    rewrite IH. cbn [app]. now rewrite <- app_assoc.
Qed.

Lemma fold_store_listed (ds : list str) :
  VObj (fold_left (fun r d => Extract.store "_directives" (VStr d) r) ds [])
  = listed ds.
Proof.
  destruct ds as [|x [|y l]]; [reflexivity|reflexivity|].
  cbn [fold_left]. 
  change (Extract.store "_directives" (VStr y)
            (Extract.store "_directives" (VStr x) []))
    with [("_directives", VArr (map VStr [x; y]))].
  rewrite (fold_store_directives l x y []). reflexivity.
Qed.

Lemma parseBlockLoop_open (fuel : nat) (rest : str)
  (result : list (str * value)) (c : ascii) (buffer : str) :
  Extract.parseBlockLoop (S fuel) ("{"%char :: rest) result (c :: buffer)
    None
  = match Extract.parseBlockLoop fuel rest [] [] None with
    | Some (nested, rest') =>
        Extract.parseBlockLoop fuel rest'
          (Extract.store (trim (c :: buffer)) nested result) [] None
    | None => None
    end.
Proof. reflexivity. Qed.

Lemma parse_serverText (ds : list str) :
  Forall (fun d => spaced d = true) ds ->
  Extract.parse (serverText ds) = Some (VObj [("server", listed ds)]).
Proof.
  intros H. unfold Extract.parse. rewrite serverText_clean by assumption.
  unfold Extract.parseBlock.
  destruct (parse_directives ds H [] "") as [fuel E].
  rewrite fold_store_listed in E.
  rewrite (parseBlockLoop_enough _ (length "server " + S (S fuel))
             (serverText ds) [] [] None
             (VObj [("server", listed ds)], "")); [reflexivity|lia|].
  unfold serverText.
  change ("server {" ++ concat (map (fun d => " " ++ d ++ ";") ds) ++ " }")
    with ("server "
          ++ "{"%char
             :: concat (map (fun d => " " ++ d ++ ";") ds) ++ " }" ++ "").
  rewrite parseBlockLoop_run by reflexivity.
  change ("" ++ "server ") with ("s"%char :: "erver ").
  rewrite parseBlockLoop_open.
  rewrite (parseBlockLoop_mono _ _ _ _ _ _ (S fuel) E) by lia.
  reflexivity.
Qed.

(** X9.  The text of one server block whose directives are words separated by
    single spaces converts to what [parseServer] makes of the list of
    these directives, in source order. *)
Theorem convert_server_block (ds : list str) :
  Forall (fun d => spaced d = true) ds ->
  Extract.convert (serverText ds)
  = Some (config <- Extract.parseServer (listed ds) ;;
          Ok (Extract.One config)).
Proof.
  intros H. unfold Extract.convert. rewrite parse_serverText by assumption.
  cbn [get_prop assoc]. change (seqb "server" "server") with true.
  cbv iota. f_equal.
  change (Extract.arrayOf (listed ds)) with [listed ds].
  cbn [Extract.mapServers].
  destruct (Extract.parseServer (listed ds)); reflexivity.
Qed.

Lemma convert_server_block_witness :
  Extract.convert "server { server_name a.example b.example; listen 8080; }"
  = Some (config <- Extract.parseServer
                      (VObj [("_directives",
                              VArr [VStr "server_name a.example b.example";
                                    VStr "listen 8080"])]) ;;
          Ok (Extract.One config)).
Proof.
  apply (convert_server_block
           ["server_name a.example b.example"; "listen 8080"]).
  repeat constructor.
Defined.

Lemma accepted_schema_witness :
  serverName (Templates.static
                {| Templates.st_domain := "example.com";
                   Templates.st_rootPath := "/var/www";
                   Templates.st_sslEnabled := Some true |}) <> ""
  /\ locations (Templates.static
                  {| Templates.st_domain := "example.com";
                     Templates.st_rootPath := "/var/www";
                     Templates.st_sslEnabled := Some true |}) <> [].
Proof.
  destruct (accepted_schema (fun _ => true)
              (Templates.static
                 {| Templates.st_domain := "example.com";
                    Templates.st_rootPath := "/var/www";
                    Templates.st_sslEnabled := Some true |}) eq_refl)
    as [_ [A [_ [B _]]]].
  split; assumption.
Defined.

Lemma static_site_text_witness :
  fst (generateNginxConfig
         (Templates.static
            {| Templates.st_domain := "example.com";
               Templates.st_rootPath := "/var/www";
               Templates.st_sslEnabled := None |}))
  = "server {" ++ nl
    ++ "    listen 80;" ++ nl
    ++ "    server_name example.com www.example.com;" ++ nl ++ nl
    ++ "    gzip on;" ++ nl
    ++ "    gzip_types " ++ gzipTypesDefault ++ ";" ++ nl ++ nl
    ++ "    location / {" ++ nl
    ++ "        root /var/www;" ++ nl
    ++ "        index index.html;" ++ nl
    ++ "        try_files $uri $uri/ =404;" ++ nl
    ++ "    }" ++ nl ++ nl
    ++ "    location /assets {" ++ nl
    ++ "        root /var/www;" ++ nl
    ++ "        expires 30d;" ++ nl
    ++ "        add_header Cache-Control public;" ++ nl
    ++ "    }" ++ nl
    ++ "}".
Proof.
  etransitivity;
    [apply (static_site_text "example.com" "/var/www" None); discriminate|].
  reflexivity.
Defined.









(* ---------- script blocks ---------- *)
Lemma scriptKey_facts (k : str) :
  scriptKey k = true ->
  k <> [] /\ forallb blockChar k = true /\ tight k
  /\ endsWith "by_lua_block" (safeKey k) = true.
Proof.
  unfold scriptKey. destruct k as [|c k]; [discriminate|]. intros H.
  apply andb_true_iff in H. destruct H as [H Hlua].
  apply andb_true_iff in H. destruct H as [H Hlast].
  apply andb_true_iff in H. destruct H as [Hall Hfirst].
  apply negb_true_iff in Hlast, Hfirst.
  split; [discriminate|]. split; [assumption|]. split; [|assumption].
  assert (W : forall x, blockChar x = true -> ceq x " "%char = false ->
                        is_ws x = false).
  { intros x Hx Hs. unfold blockChar in Hx. rewrite Hs, orb_false_r in Hx.
    now apply keyChar_not_ws. }
  rewrite forallb_forall in Hall. split; apply W; try assumption.
  - apply Hall. now left.
  - apply Hall.
    destruct (@exists_last _ (c :: k)) as [l' [d E]]; [discriminate|].
    rewrite E. rewrite last_last. apply in_or_app. right. now left.
Qed.

Lemma scriptLine_facts (l : str) :
  scriptLine l = true ->
  l <> [] /\ tight l
  /\ (forall x, In x ["#"; "{"; "}"; "010"; "009"]%char -> lacks x l).
Proof.
  unfold scriptLine. destruct l as [|c l]; [discriminate|]. intros H.
  apply andb_true_iff in H. destruct H as [H Hlast].
  apply andb_true_iff in H. destruct H as [Hall Hfirst].
  apply negb_true_iff in Hlast, Hfirst.
  split; [discriminate|]. split; [split; assumption|].
  intros x Hx. revert Hall. apply forallb_lacks. intros y Hy.
  destruct (ceq y x) eqn:E; [|reflexivity].
  apply ceq_eq in E. subst y. cbn in Hx. unfold scriptChar in Hy.
  repeat (destruct Hx as [<-|Hx]; [discriminate|]). contradiction.
Qed.

(** The last replacement on a line whose last character is no white
    space: a line feed after a final [;], nothing else. *)
Lemma endLine_tight (l : str) :
  (forall d, l <> [] -> is_ws (last l d) = false) ->
  endLine l = if endsWith ";" l then l ++ ["010"%char] else l.
Proof.
  induction l as [|c l IH]; intros T; [reflexivity|].
  cbn [endLine].
  destruct (ceq c ";"%char && forallb is_ws l) eqn:E.
  - apply andb_true_iff in E. destruct E as [Ec El].
    apply ceq_eq in Ec. subst c.
    destruct l as [|x l]; [reflexivity|].
    exfalso. specialize (T ";"%char ltac:(discriminate)).
    assert (In (last (";"%char :: x :: l) ";"%char) (x :: l)).
    { change (last (";"%char :: x :: l) ";"%char)
        with (last (x :: l) ";"%char).
      destruct (@exists_last _ (x :: l)) as [l' [d E]]; [discriminate|].
      rewrite E, last_last. apply in_or_app. right. now left. }
    rewrite forallb_forall in El. rewrite (El _ H) in T. discriminate.
  - destruct l as [|x l].
    + cbn [endLine]. cbn [forallb] in E. rewrite andb_true_r in E.
      change [c] with ([] ++ [c]).
      rewrite endsWith_snoc_other by now apply ceq_sym_false.
      reflexivity.
    + rewrite IH.
      2:{ intros d _. exact (T d ltac:(discriminate)). }
      assert (X : endsWith ";" (c :: x :: l) = endsWith ";" (x :: l)).
      { destruct (@exists_last _ (x :: l)) as [l' [d Ed]]; [discriminate|].
        rewrite Ed. change (c :: l' ++ [d]) with ((c :: l') ++ [d]).
        destruct (ceq ";"%char d) eqn:Ex.
        - apply ceq_eq in Ex. subst d. now rewrite !endsWith_snoc.
        - now rewrite !endsWith_snoc_other. }
      rewrite X. now destruct (endsWith ";" (x :: l)).
Qed.

(** Inside a script block a line is kept whole. *)
Lemma outerLine_script (options : ParserOptions) (st : state)
  (indent l : str) :
  forallb is_ws indent = true ->
  scriptLine l = true -> isInLuaBlock st = true ->
  outerLine options st (indent ++ l)
  = Ok {| json := json st; parent := parent st;
          chunkedLine := chunkedLine st;
          countOfParentsThatAreArrays := countOfParentsThatAreArrays st;
          isInLuaBlock := true;
          luaBlockValue := luaBlockValue st ++ [l];
          detached := detached st |}.
Proof.
  intros Hind Hl Hlua.
  destruct (scriptLine_facts l Hl) as [N [T L]].
  rewrite outerLine_tight; try assumption; [|apply L; cbn; tauto].
  assert (P : innerLine options st l
              = Ok {| json := json st; parent := parent st;
                      chunkedLine := chunkedLine st;
                      countOfParentsThatAreArrays :=
                        countOfParentsThatAreArrays st;
                      isInLuaBlock := true;
                      luaBlockValue := luaBlockValue st ++ [l];
                      detached := detached st |}).
  { unfold innerLine. rewrite trim_tight by assumption.
    destruct l as [|c r] eqn:K; [contradiction|]. rewrite <- K in *.
    rewrite Hlua, endsWith_lacks by (apply L; cbn; tauto).
    reflexivity. }
  unfold innerLinesOf.
  rewrite braceLines_lacks by (apply L; cbn; tauto).
  rewrite (closeLines_lacks _ None) by (apply L; cbn; tauto).
  cbn [app]. rewrite endLine_tight.
  2:{ intros d _. destruct l as [|c r]; [contradiction|].
      destruct T as [_ T].
      destruct (@exists_last _ (c :: r)) as [l' [e E]]; [discriminate|].
      rewrite E in *. rewrite last_last in *. assumption. }
  destruct (endsWith ";" l).
  - replace (l ++ ["010"%char]) with (l ++ "010"%char :: "") by reflexivity.
    rewrite split_app by (apply L; cbn; tauto).
    change (split "010"%char "") with ["" : str].
    cbn [forEach]. rewrite P. reflexivity.
  - rewrite split_lacks by (apply L; cbn; tauto).
    cbn [forEach]. rewrite P. reflexivity.
Qed.

(** The opening line of a script block appends an empty block, descends
    into it and switches the script mode on. *)
Lemma outerLine_open_script (options : ParserOptions)
  (d : list includeCall) (ctx : list frame) (done : list (str * value))
  (indent k : str) :
  scriptKey k = true -> arrayIndex k = None -> assoc k done = None ->
  Forall goodFrame ctx ->
  forallb is_ws indent = true -> notInclude options k ->
  outerLine options (between (plug ctx (VObj done)) (pathOf ctx) d)
    (indent ++ k ++ " {")
  = Ok {| json := plug (ctx ++ [(done, k)]) (VObj []);
          parent := pathOf (ctx ++ [(done, k)]);
          chunkedLine := None; countOfParentsThatAreArrays := 0;
          isInLuaBlock := true; luaBlockValue := []; detached := d |}.
Proof.
  intros Hk Hidx Hfresh G Hind Hi.
  destruct (scriptKey_facts k Hk) as [N [Hall [T Hlua]]].
  assert (L : forall x,
             In x ["#"; "{"; "}"; ";"; "!"; "010"; "009"]%char -> lacks x k)
    by (intros x Hx; now apply blockChar_lacks).
  assert (Tline : tight (k ++ " {")).
  { replace (k ++ " {") with ((k ++ " ") ++ "{")
      by now rewrite <- app_assoc.
    destruct k as [|c k]; [contradiction|].
    cbn [app]. apply tight_snoc; [apply T|reflexivity]. }
  rewrite outerLine_tight; try assumption.
  2:{ destruct k; discriminate. }
  2:{ apply lacks_app. split; [apply L; cbn; tauto|reflexivity]. }
  rewrite innerLinesOf_open; try assumption.
  2:{ intros x Hx. apply L. cbn in *. tauto. }
  cbn [forEach].
  assert (S1 : innerLine options
                 (between (plug ctx (VObj done)) (pathOf ctx) d) k
               = Ok {| json := plug ctx (VObj done); parent := pathOf ctx;
                       chunkedLine := Some k;
                       countOfParentsThatAreArrays := 0;
                       isInLuaBlock := false; luaBlockValue := [];
                       detached := d |}).
  { unfold innerLine. rewrite trim_tight by assumption.
    destruct k as [|c l] eqn:K; [contradiction|]. rewrite <- K in *.
    unfold between. cbn [isInLuaBlock chunkedLine andb].
    rewrite !endsWith_lacks by (apply L; cbn; tauto).
    replace (startsWith "include" k && parseIncludes options) with false
      by (destruct Hi as [-> | ->];
          [now rewrite andb_false_r|reflexivity]).
    reflexivity. }
  rewrite S1. cbn [Js.bind].
  unfold innerLine at 1. change (trim " {") with ("{" : str).
  cbn [isInLuaBlock chunkedLine andb json parent
         countOfParentsThatAreArrays luaBlockValue detached].
  destruct k as [|c l] eqn:K; [contradiction|]. rewrite <- K in *.
  assert (E1 : endsWith "{" (k ++ " " ++ "{") = true).
  { rewrite app_assoc. apply endsWith_snoc. }
  rewrite E1.
  assert (E2 : trim (dropLast (k ++ " " ++ "{")) = k).
  { rewrite app_assoc. rewrite dropLast_snoc.
    apply trim_trail; [assumption|reflexivity]. }
  rewrite E2, Hlua.
  assert (E3 : match pathOf ctx with
               | [] => safeKey k
               | _ :: _ => pathOf ctx ++ "." ++ safeKey k
               end = entryPath ctx k).
  { unfold entryPath. now destruct (pathOf ctx). }
  rewrite E3. unfold appendValue.
  rewrite resolveAppendSet_plug by (assumption || (apply L; cbn; tauto)).
  rewrite Hfresh. cbn [Js.bind].
  unfold appendTo. rewrite Hfresh. cbn [promote].
  unfold obj_set. rewrite Hfresh. rewrite obj_insert_plain by assumption.
  rewrite innerLine_empty.
  rewrite plug_snoc, pathOf_snoc by assumption. reflexivity.
Qed.

(** The lines of a script block are collected in order. *)
Lemma runText_script (options : ParserOptions) (j : value) (p : str)
  (d : list includeCall) (indent : str) (ls : list str) :
  forallb is_ws indent = true -> lacks "010"%char indent ->
  Forall (fun l => scriptLine l = true) ls ->
  forall (seen : list str) (rest : str),
    runText options
      {| json := j; parent := p; chunkedLine := None;
         countOfParentsThatAreArrays := 0;
         isInLuaBlock := true; luaBlockValue := seen; detached := d |}
      (concat (map (fun l => indent ++ l ++ ["010"%char]) ls) ++ rest)
    = runText options
        {| json := j; parent := p; chunkedLine := None;
           countOfParentsThatAreArrays := 0;
           isInLuaBlock := true; luaBlockValue := seen ++ ls;
           detached := d |}
        rest.
Proof.
  intros Hind Hnl.
  induction 1 as [|l ls Hl _ IH]; intros seen rest.
  - now rewrite app_nil_r.
  - destruct (scriptLine_facts l Hl) as [_ [_ L]].
    cbn [map concat].
    replace (((indent ++ l ++ ["010"%char])
              ++ concat (map (fun l0 => indent ++ l0 ++ ["010"%char]) ls))
             ++ rest)
      with ((indent ++ l)
            ++ "010"%char
               :: concat (map (fun l0 => indent ++ l0 ++ ["010"%char]) ls)
                  ++ rest)
      by (now rewrite <- !app_assoc).
    rewrite runText_line.
    2:{ apply lacks_app. split; [assumption|apply L; cbn; tauto]. }
    rewrite outerLine_script by (assumption || reflexivity).
    cbn [Js.bind json parent chunkedLine countOfParentsThatAreArrays
           luaBlockValue detached].
    rewrite IH. now rewrite <- app_assoc.
Qed.

(** The closing line of a script block stores the collected lines under
    [_lua] and leaves the block. *)
Lemma outerLine_close_script (options : ParserOptions)
  (d : list includeCall) (ctx : list frame) (f : frame) (indent : str)
  (ls : list str) :
  Forall goodFrame (ctx ++ [f]) ->
  forallb is_ws indent = true ->
  outerLine options
    {| json := plug (ctx ++ [f]) (VObj []);
       parent := pathOf (ctx ++ [f]);
       chunkedLine := None; countOfParentsThatAreArrays := 0;
       isInLuaBlock := true; luaBlockValue := ls; detached := d |}
    (indent ++ "}")
  = Ok (between (plug (ctx ++ [f]) (VObj [("_lua", VArr (map VStr ls))]))
          (pathOf ctx) d).
Proof.
  intros G Hind. rewrite outerLine_tight;
    [|assumption|split; reflexivity|discriminate|reflexivity].
  change (innerLinesOf "}") with ["}" : str]. cbn [forEach].
  unfold innerLine. change (trim "}") with ("}" : str).
  cbn [isInLuaBlock chunkedLine andb negb].
  change (endsWith "}" "}") with true. cbn [negb andb].
  change (endsWith "{" "}") with false.
  change (startsWith "include" "}") with false.
  change (endsWith ";" "}") with false.
  cbn [andb handleClosingBrace Js.bind json parent
         countOfParentsThatAreArrays luaBlockValue detached].
  change ("_lua" : str) with (safeKey "_lua") at 1.
  rewrite appendValue_entry.
  rewrite resolveAppendSet_plug by (assumption || reflexivity).
  cbn [Js.bind assoc]. rewrite popParent_snoc. reflexivity.
Qed.

(** The name of a script block is no array index: it ends with a
    letter. *)
Lemma scriptKey_no_index (k : str) : scriptKey k = true -> arrayIndex k = None.
Proof.
  intros H. destruct (scriptKey_facts k H) as [N [_ [_ E]]].
  destruct (@exists_last _ k N) as [l' [d Ek]]. subst k.
  assert (D : is_digit d = false).
  { rewrite safeKey_app in E. unfold endsWith in E.
    rewrite rev_app_distr in E.
    cbn [rev app safeKey replaceAllChar map startsWith] in E.
    apply andb_true_iff in E. destruct E as [E _].
    destruct (ceq d "."%char); [discriminate|].
    apply ceq_eq in E. subst d. reflexivity. }
  unfold arrayIndex. destruct (l' ++ [d]) as [|c r] eqn:Ec; [reflexivity|].
  rewrite <- Ec. rewrite forallb_app. cbn [forallb]. rewrite D.
  now rewrite andb_false_r.
Qed.

Lemma join_lines (indent : str) (ls : list str) :
  ls <> [] ->
  indent ++ join ("010"%char :: indent) ls ++ ["010"%char]
  = concat (map (fun l => indent ++ l ++ ["010"%char]) ls).
Proof.
  induction ls as [|l ls IH]; [contradiction|]. intros _.
  destruct ls as [|l' ls].
  - cbn. now rewrite app_nil_r.
  - change (join ("010"%char :: indent) (l :: l' :: ls))
      with (l ++ ("010"%char :: indent)
              ++ join ("010"%char :: indent) (l' :: ls)).
    rewrite map_cons, concat_cons. rewrite <- !app_assoc.
    apply (f_equal (app indent)). apply (f_equal (app l)).
    cbn [app]. apply (f_equal (cons "010"%char)).
    apply IH. discriminate.
Qed.

(** The text [toConf] writes for a script block. *)
Lemma toConf_script (k : str) (ls : list str) :
  toConf (scriptTree k ls)
  = k ++ " {" ++ ["010"%char]
    ++ match ls with
       | [] => ["010"%char]
       | _ :: _ => concat (map (fun l => "    " ++ l ++ ["010"%char]) ls)
       end
    ++ "}" ++ ["010"%char; "010"%char].
Proof.
  unfold toConf, scriptTree. cbn [recurse map concat fst snd].
  unfold emitEntry at 1. cbn [recurse map concat fst snd repeatStr app].
  rewrite !app_nil_r. do 3 f_equal.
  unfold emitEntry. change (seqb "_lua" "_lua") with true. cbv iota.
  rewrite map_map. cbn [toStr]. rewrite map_id.
  destruct ls as [|l ls]; [reflexivity|].
  cbn [map]. apply (f_equal (cons "010"%char)).
  apply (f_equal (fun t => t ++ "}" ++ ["010"%char; "010"%char])).
  exact (join_lines "    " (l :: ls) ltac:(discriminate)).
Qed.

(** X3.  A script block at the top level survives [toConf] then [toJSON]:
    its lines come back under [_lua], in order. *)
Theorem script_block_round_trip (options : ParserOptions) (k : str)
  (ls : list str) :
  scriptKey k = true -> notInclude options k ->
  Forall (fun l => scriptLine l = true) ls ->
  toJSON (toConf (scriptTree k ls)) options = Ok (scriptTree k ls, []).
Proof.
  intros Hk Hi Hls.
  destruct (scriptKey_facts k Hk) as [N [Hall [T Hlua]]].
  assert (Lk : forall x, In x ["!"; "010"; "009"]%char -> lacks x k).
  { intros x Hx. apply blockChar_lacks; [|assumption]. cbn in *. tauto. }
  assert (Ltab : lacks "009"%char
                   (concat (map (fun l => "    " ++ l ++ ["010"%char]) ls))).
  { induction Hls as [|l ls Hl _ IH]; [reflexivity|].
    destruct (scriptLine_facts l Hl) as [_ [_ L]].
    cbn [map concat]. apply lacks_app. split; [|exact IH].
    apply lacks_app. split; [reflexivity|].
    apply lacks_app. split; [apply L; cbn; tauto|reflexivity]. }
  assert (G : Forall goodFrame ([] ++ [([], k)])).
  { constructor; [|constructor]. repeat split; cbn [fst snd].
    - assumption.
    - apply Lk. cbn. tauto. }
  rewrite toConf_script. rewrite toJSON_runText.
  2:{ apply lacks_app. split; [apply Lk; cbn; tauto|].
      apply lacks_app. split; [reflexivity|].
      apply lacks_app. split; [reflexivity|].
      apply lacks_app. split; [|reflexivity].
      destruct ls; [reflexivity|assumption]. }
  change initState with (between (plug [] (VObj [])) (pathOf []) []).
  replace (k ++ " {" ++ ["010"%char]
           ++ match ls with
              | [] => ["010"%char]
              | _ :: _ =>
                  concat (map (fun l => "    " ++ l ++ ["010"%char]) ls)
              end
           ++ "}" ++ ["010"%char; "010"%char])
    with ((k ++ " {")
          ++ "010"%char
             :: match ls with
                | [] => ["010"%char]
                | _ :: _ =>
                    concat (map (fun l => "    " ++ l ++ ["010"%char]) ls)
                end
                ++ "}" ++ ["010"%char; "010"%char])
    by (now rewrite <- !app_assoc).
  rewrite runText_line.
  2:{ apply lacks_app. split; [apply Lk; cbn; tauto|reflexivity]. }
  pose proof (outerLine_open_script options [] [] [] [] k Hk
                (scriptKey_no_index k Hk) eq_refl (Forall_nil _) eq_refl Hi)
    as HO.
  cbn [app] in HO. rewrite HO. clear HO. cbn [Js.bind].
  assert (Close : forall seen,
            runText options
              {| json := plug [([], k)] (VObj []);
                 parent := pathOf [([], k)];
                 chunkedLine := None; countOfParentsThatAreArrays := 0;
                 isInLuaBlock := true; luaBlockValue := seen;
                 detached := [] |}
              ("}" ++ ["010"%char; "010"%char])
            = Ok (between (VObj [(k, VObj [("_lua", VArr (map VStr seen))])])
                    "" [])).
  { intros seen.
    change ("}" ++ ["010"%char; "010"%char])
      with ("}" ++ "010"%char :: ["010"%char]).
    rewrite runText_line by reflexivity.
    pose proof (outerLine_close_script options [] [] ([], k) [] seen G
                  eq_refl) as HC.
    cbn [app] in HC.
    refine (eq_trans (f_equal (fun r => Js.bind r _) HC) _).
    reflexivity. }
  destruct ls as [|l ls].
  - change (["010"%char] ++ "}" ++ ["010"%char; "010"%char])
      with ("" ++ "010"%char :: "}" ++ ["010"%char; "010"%char]).
    rewrite runText_line by reflexivity.
    change (outerLine options ?st "") with (Ok st). cbn [Js.bind].
    rewrite Close. reflexivity.
  - rewrite (runText_script options _ _ [] "    " (l :: ls) eq_refl eq_refl
               Hls []).
    cbn [app]. rewrite Close. reflexivity.
Qed.

Lemma script_block_round_trip_witness :
  toJSON (toConf (scriptTree "content_by_lua_block"
                    ["ngx.say('hello');"; "return"]))
    noOptions
  = Ok (scriptTree "content_by_lua_block"
          ["ngx.say('hello');"; "return"], []).
Proof.
  apply script_block_round_trip.
  - reflexivity.
  - now left.
  - repeat constructor.
Defined.

(* ---------- comments ---------- *)
Lemma dropWhile_app_stop (p : ascii -> bool) (a b : str) :
  dropWhile p a <> [] -> dropWhile p (a ++ b) = dropWhile p a ++ b.
Proof.
  induction a as [|c a IH]; cbn; [contradiction|].
  destruct (p c); [exact IH|reflexivity].
Qed.

Lemma dropWhile_stops (p : ascii -> bool) (a : str) (x : ascii) (r : str) :
  dropWhile p a = x :: r -> p x = false.
Proof.
  induction a as [|c a IH]; cbn; [discriminate|].
  destruct (p c) eqn:E; [exact IH|]. intros H. now injection H as <- _.
Qed.

Lemma dropWhile_idem (p : ascii -> bool) (a : str) :
  dropWhile p (dropWhile p a) = dropWhile p a.
Proof.
  induction a as [|c a IH]; cbn; [reflexivity|].
  destruct (p c) eqn:E; [exact IH|]. cbn. now rewrite E.
Qed.

Lemma lacks_trimEnd (x : ascii) (a : str) : lacks x a -> lacks x (trimEnd a).
Proof.
  intros H. unfold trimEnd. now apply lacks_rev, lacks_dropWhile, lacks_rev.
Qed.

(** What stands before a character that is no white space is not touched
    by the trimming of the end. *)
Lemma trimEnd_keeps (a : str) (x : ascii) (b : str) :
  is_ws x = false -> trimEnd (a ++ x :: b) = a ++ x :: trimEnd b.
Proof.
  intros Hx. unfold trimEnd. rewrite rev_app_distr. cbn [rev].
  rewrite <- app_assoc. cbn [app].
  destruct (dropWhile is_ws (rev b)) as [|y r] eqn:E.
  - assert (A : forallb is_ws (rev b) = true).
    { clear - E. induction (rev b) as [|c l IH]; [reflexivity|].
      cbn in *. destruct (is_ws c); [auto|discriminate]. }
    rewrite dropWhile_app_all by assumption.
    cbn [dropWhile app]. rewrite Hx. cbn [rev].
    now rewrite rev_involutive.
  - rewrite dropWhile_app_stop by (rewrite E; discriminate).
    rewrite E. rewrite rev_app_distr.
    change (rev (x :: rev a)) with (rev (rev a) ++ [x]).
    now rewrite rev_involutive, <- app_assoc.
Qed.

Lemma trim_idem (a : str) : trim (trim a) = trim a.
Proof.
  unfold trim. destruct (trimStart a) as [|x r] eqn:E; [reflexivity|].
  assert (Hx : is_ws x = false) by exact (dropWhile_stops _ _ _ _ E).
  change (x :: r) with ([] ++ x :: r). rewrite trimEnd_keeps by assumption.
  cbn [app]. unfold trimStart. rewrite dropWhile_head by assumption.
  change (x :: trimEnd r) with ([] ++ x :: trimEnd r).
  rewrite trimEnd_keeps by assumption. cbn [app]. f_equal.
  unfold trimEnd. rewrite rev_involutive, dropWhile_idem. reflexivity.
Qed.

(** A line is read up to its first [#]. *)
Lemma outerLine_comment (options : ParserOptions) (st : state) (a c : str) :
  lacks "#"%char a ->
  outerLine options st (a ++ "#"%char :: c) = outerLine options st a.
Proof.
  intros L. destruct (trimStart a) as [|x r] eqn:E.
  - assert (A : forallb is_ws a = true).
    { clear - E. unfold trimStart in E.
      induction a as [|y l IH]; [reflexivity|].
      cbn in *. destruct (is_ws y); [auto|discriminate]. }
    assert (T1 : trim (a ++ "#"%char :: c) = "#"%char :: trimEnd c).
    { unfold trim, trimStart. rewrite dropWhile_app_all by assumption.
      rewrite dropWhile_head by reflexivity.
      exact (trimEnd_keeps [] "#"%char c eq_refl). }
    assert (T2 : trim a = []) by (unfold trim; now rewrite E).
    unfold outerLine. rewrite T1, T2. reflexivity.
  - pose proof (dropWhile_stops _ _ _ _ E) as Hx.
    assert (Lr : lacks "#"%char (x :: r))
      by (rewrite <- E; now apply lacks_dropWhile).
    assert (T1 : trim (a ++ "#"%char :: c)
                 = (x :: r) ++ "#"%char :: trimEnd c).
    { unfold trim, trimStart in *.
      rewrite dropWhile_app_stop by (rewrite E; discriminate).
      rewrite E. now apply trimEnd_keeps. }
    assert (T2 : trim a = x :: trimEnd r).
    { unfold trim. rewrite E.
      exact (trimEnd_keeps [] x r Hx). }
    assert (T3 : trim (x :: r) = x :: trimEnd r).
    { unfold trim, trimStart. rewrite dropWhile_head by assumption.
      exact (trimEnd_keeps [] x r Hx). }
    assert (T4 : trim (x :: trimEnd r) = x :: trimEnd r).
    { rewrite <- T2. apply trim_idem. }
    apply lacks_cons in Lr. destruct Lr as [Lx Lr].
    assert (S : forall t, startsWith "#" (x :: t) = false).
    { intros t. change (ceq "#"%char x && true = false).
      now rewrite (ceq_sym_false _ _ Lx). }
    unfold outerLine. rewrite T1, T2. cbn [app]. rewrite !S.
    change (x :: r ++ "#"%char :: trimEnd c)
      with ((x :: r) ++ "#"%char :: trimEnd c).
    rewrite split_app by (apply lacks_cons; split; assumption).
    rewrite (split_lacks "#"%char (x :: trimEnd r)).
    2:{ apply lacks_cons. split; [assumption|now apply lacks_trimEnd]. }
    cbn [hd]. now rewrite T3, T4.
Qed.

Lemma runText_after (options : ParserOptions) (pre : list str)
  (rest rest' : str) :
  Forall (lacks "010"%char) pre ->
  (forall st, runText options st rest = runText options st rest') ->
  forall st,
    runText options st (concat (map (fun l => l ++ ["010"%char]) pre) ++ rest)
    = runText options st
        (concat (map (fun l => l ++ ["010"%char]) pre) ++ rest').
Proof.
  intros Hpre Hrest. induction Hpre as [|l pre Hl _ IH]; intros st.
  - apply Hrest.
  - cbn [map concat]. rewrite <- !app_assoc. cbn [app].
    rewrite !runText_line by assumption.
    destruct (outerLine options st l) as [st'|e]; [|reflexivity].
    cbn [Js.bind]. apply IH.
Qed.

(** X4.  In a text without tab, what follows the first [#] of a line is not
    read, whatever it is. *)
Theorem comment_is_ignored (options : ParserOptions) (pre : list str)
  (a c after : str) :
  Forall (lacks "010"%char) pre ->
  lacks "010"%char a -> lacks "#"%char a -> lacks "010"%char c ->
  lacks "009"%char
    (concat (map (fun l => l ++ ["010"%char]) pre)
     ++ a ++ "#"%char :: c ++ "010"%char :: after) ->
  toJSON (concat (map (fun l => l ++ ["010"%char]) pre)
          ++ a ++ "#"%char :: c ++ "010"%char :: after) options
  = toJSON (concat (map (fun l => l ++ ["010"%char]) pre)
            ++ a ++ "010"%char :: after) options.
Proof.
  intros Hpre Ha La Hc Htab.
  assert (Htab' : lacks "009"%char
                    (concat (map (fun l => l ++ ["010"%char]) pre)
                     ++ a ++ "010"%char :: after)).
  { apply lacks_app in Htab. destruct Htab as [T1 T2].
    apply lacks_app in T2. destruct T2 as [T2 T3].
    apply lacks_cons in T3. destruct T3 as [_ T3].
    apply lacks_app in T3. destruct T3 as [_ T3].
    apply lacks_app. split; [assumption|].
    apply lacks_app. split; assumption. }
  rewrite !toJSON_runText by assumption.
  rewrite (runText_after options pre
             (a ++ "#"%char :: c ++ "010"%char :: after)
             (a ++ "010"%char :: after)); [reflexivity|assumption|].
  intros st.
  replace (a ++ "#"%char :: c ++ "010"%char :: after)
    with ((a ++ "#"%char :: c) ++ "010"%char :: after)
    by (now rewrite <- app_assoc).
  rewrite !runText_line; try assumption.
  - now rewrite outerLine_comment.
  - apply lacks_app. split; [assumption|].
    apply lacks_cons. split; [reflexivity|assumption].
Qed.

Lemma comment_is_ignored_witness :
  toJSON (concat (map (fun l => l ++ ["010"%char]) ["user www;"])
          ++ "add_header X-Color " ++ "#"%char :: "fff;"
          ++ "010"%char :: "gzip on;") noOptions
  = toJSON (concat (map (fun l => l ++ ["010"%char]) ["user www;"])
            ++ "add_header X-Color " ++ "010"%char :: "gzip on;") noOptions.
Proof.
  apply (comment_is_ignored noOptions ["user www;"] "add_header X-Color "
           "fff;" "gzip on;").
  - repeat constructor.
  - reflexivity.
  - reflexivity.
  - reflexivity.
  - reflexivity.
Defined.



(** The lines a line without braces that ends with [;] is cut into. *)
Lemma innerLinesOf_terminated (body : str) :
  lacks "{"%char body -> lacks "}"%char body -> lacks "010"%char body ->
  innerLinesOf (body ++ ";") = [body ++ ";"; ""].
Proof.
  intros H1 H2 H4. unfold innerLinesOf.
  rewrite braceLines_lacks
    by (apply lacks_app; split; [assumption|reflexivity]).
  cbn [app].
  rewrite (closeLines_lacks _ None)
    by (apply lacks_app; split; [assumption|reflexivity]).
  cbn [app]. rewrite endLine_tight.
  2:{ intros d _. now rewrite last_last. }
  rewrite endsWith_snoc.
  change ((body ++ ";") ++ ["010"%char])
    with ((body ++ ";") ++ "010"%char :: "").
  rewrite split_app by (apply lacks_app; split; [assumption|reflexivity]).
  reflexivity.
Qed.













(* ---------- a block on one line ---------- *)
Lemma braceLines_open_then (k rest : str) :
  k <> [] -> tight k -> lacks "{"%char k ->
  forall ws,
    braceLines ws (k ++ " {" ++ rest)
    = ws ++ k ++ ["010"%char] ++ " {" ++ ["010"%char] ++ braceLines [] rest.
Proof.
  intros N T L.
  assert (Hlast : is_ws (last k " "%char) = false).
  { destruct k as [|c k]; [contradiction|]. destruct T as [_ T].
    destruct (@exists_last _ (c :: k)) as [l' [d E]]; [discriminate|].
    rewrite E in *. now rewrite last_last in *. }
  clear T. induction k as [|c k IH]; [contradiction|]. intros ws.
  apply lacks_cons in L. destruct L as [Lc L].
  destruct k as [|c' k].
  - cbn in Hlast. cbn [app braceLines]. rewrite Hlast, Lc. cbn [andb].
    reflexivity.
  - assert (Hlast' : is_ws (last (c' :: k) " "%char) = false) by exact Hlast.
    specialize (IH ltac:(discriminate) L Hlast').
    change ((c :: c' :: k) ++ " {" ++ rest)
      with (c :: ((c' :: k) ++ " {" ++ rest)).
    cbn [braceLines]. destruct (is_ws c).
    + rewrite IH. now rewrite <- app_assoc.
    + rewrite Lc. cbn [andb]. rewrite IH. reflexivity.
Qed.

(** The second replacement passes over a text without closing brace
    whose last character is neither white space nor [;]. *)
Lemma closeLines_through (x : str) (d : ascii) (y : str) :
  lacks "}"%char (x ++ [d]) -> is_ws d = false -> ceq d ";"%char = false ->
  forall pend,
    closeLines pend ((x ++ [d]) ++ y)
    = match pend with Some b => b | None => [] end
      ++ (x ++ [d]) ++ closeLines None y.
Proof.
  intros L Hd Hs. induction x as [|c x IH]; intros pend.
  - apply lacks_cons in L. destruct L as [L _].
    cbn [app closeLines]. rewrite Hd, L, Hs. now destruct pend.
  - apply lacks_cons in L. destruct L as [Lc L]. specialize (IH L).
    cbn [app closeLines]. destruct pend as [b|].
    + destruct (is_ws c).
      * rewrite IH. now rewrite <- !app_assoc.
      * rewrite Lc. destruct (ceq c ";"%char) eqn:E.
        -- apply ceq_eq in E. subst c. rewrite IH. reflexivity.
        -- rewrite IH. reflexivity.
    + destruct (ceq c ";"%char) eqn:E.
      * apply ceq_eq in E. subst c. rewrite IH. reflexivity.
      * rewrite IH. reflexivity.
Qed.

(** The third replacement does nothing before a text that is not all
    white space. *)
Lemma endLine_before (x y : str) :
  forallb is_ws y = false -> endLine (x ++ y) = x ++ endLine y.
Proof.
  intros H. induction x as [|c x IH]; [reflexivity|].
  cbn [app endLine]. rewrite forallb_app, H, andb_false_r, andb_false_r.
  now rewrite IH.
Qed.

(** The lines a block written on one line is cut into. *)
Lemma innerLinesOf_one_line (b body : str) :
  b <> [] -> tight b ->
  (forall x, In x ["{"; "}"; ";"; "010"]%char -> lacks x b) ->
  body <> [] -> tight body -> endsWith ";" body = false ->
  (forall x, In x ["{"; "}"; "010"]%char -> lacks x body) ->
  innerLinesOf (b ++ " {" ++ " " ++ body ++ "; }")
  = [b; " {"; " " ++ body ++ "; "; "}"; ""].
Proof.
  intros Nb Tb Lb N T Hs L.
  destruct (@exists_last _ body N) as [body' [d E]]. subst body.
  assert (Hd : is_ws d = false).
  { destruct (body' ++ [d]) as [|c r] eqn:K; [destruct body'; discriminate|].
    destruct T as [_ T]. rewrite <- K in T. now rewrite last_last in T. }
  assert (Hsemi : ceq d ";"%char = false).
  { destruct (ceq d ";"%char) eqn:Ed; [|reflexivity].
    apply ceq_eq in Ed. subst d. now rewrite endsWith_snoc in Hs. }
  pose (X := b ++ "010"%char :: " {" ++ "010"%char :: " " ++ body').
  assert (LX : lacks "}"%char (X ++ [d])).
  { unfold X. rewrite <- app_assoc.
    apply lacks_app. split; [apply Lb; cbn; tauto|].
    cbn [app]. repeat (apply lacks_cons; split; [reflexivity|]).
    apply L. cbn. tauto. }
  assert (B1 : braceLines [] (b ++ " {" ++ " " ++ (body' ++ [d]) ++ "; }")
               = (X ++ [d]) ++ "; }").
  { rewrite braceLines_open_then; try assumption; [|apply Lb; cbn; tauto].
    rewrite braceLines_lacks.
    2:{ apply lacks_cons. split; [reflexivity|].
        apply lacks_app. split; [apply L; cbn; tauto|reflexivity]. }
    unfold X. cbn [app]. rewrite <- ?app_assoc. cbn [app].
    rewrite <- ?app_assoc. reflexivity. }
  assert (C1 : closeLines None ((X ++ [d]) ++ "; }")
               = ((X ++ [d]) ++ "; " ++ ["010"%char]) ++ "}" ++ ["010"%char]).
  { rewrite closeLines_through by assumption.
    change (closeLines None "; }")
      with ("; " ++ ["010"%char] ++ "}" ++ ["010"%char]).
    cbn [app]. rewrite <- ?app_assoc. reflexivity. }
  assert (S1 : split "010"%char
                 (((X ++ [d]) ++ "; " ++ ["010"%char]) ++ "}" ++ ["010"%char])
               = [b; " {"; " " ++ (body' ++ [d]) ++ "; "; "}"; ""]).
  { replace (((X ++ [d]) ++ "; " ++ ["010"%char]) ++ "}" ++ ["010"%char])
      with (b ++ "010"%char
              :: " {" ++ "010"%char
                 :: (" " ++ (body' ++ [d]) ++ "; ")
                    ++ "010"%char :: "}" ++ "010"%char :: "")
      by (unfold X; cbn [app]; rewrite <- ?app_assoc; cbn [app];
          rewrite <- ?app_assoc; reflexivity).
    rewrite split_app by (apply Lb; cbn; tauto).
    rewrite (split_app "010"%char " {") by reflexivity.
    rewrite split_app.
    2:{ apply lacks_cons. split; [reflexivity|].
        apply lacks_app. split; [apply L; cbn; tauto|reflexivity]. }
    reflexivity. }
  unfold innerLinesOf. rewrite B1, C1.
  rewrite endLine_before by reflexivity.
  change (endLine ("}" ++ ["010"%char])) with ("}" ++ ["010"%char]).
  exact S1.
Qed.

Lemma innerLine_trimmed (options : ParserOptions) (st : state) (l : str) :
  innerLine options st l = innerLine options st (trim l).
Proof. unfold innerLine. now rewrite trim_idem. Qed.

(** A block written on one line is read as the same block written on
    three lines. *)
Lemma outerLine_one_line (options : ParserOptions) (st : state)
  (b body : str) :
  b <> [] -> tight b ->
  (forall x, In x ["#"; "{"; "}"; ";"; "010"]%char -> lacks x b) ->
  body <> [] -> tight body -> endsWith ";" body = false ->
  (forall x, In x ["#"; "{"; "}"; "010"]%char -> lacks x body) ->
  outerLine options st (b ++ " { " ++ body ++ "; }")
  = (s1 <- outerLine options st (b ++ " {") ;;
     s2 <- outerLine options s1 (body ++ ";") ;;
     outerLine options s2 "}").
Proof.
  intros Nb Tb Lb N T Hs L.
  assert (Hfirst : forall t, tight (b ++ t ++ "}")).
  { intros t. destruct b as [|c r]; [contradiction|].
    replace ((c :: r) ++ t ++ "}") with (c :: (r ++ t) ++ "}")
      by (cbn [app]; now rewrite <- app_assoc).
    apply tight_snoc; [apply Tb|reflexivity]. }
  assert (Tbody : tight (body ++ ";")).
  { destruct body as [|c r]; [contradiction|].
    cbn [app]. apply tight_snoc; [apply T|reflexivity]. }
  assert (Topen : tight (b ++ " {")).
  { destruct b as [|c r]; [contradiction|].
    replace ((c :: r) ++ " {") with (c :: (r ++ " ") ++ "{")
      by (cbn [app]; now rewrite <- app_assoc).
    apply tight_snoc; [apply Tb|reflexivity]. }
  (* the one line *)
  pose proof (outerLine_tight options st [] (b ++ " { " ++ body ++ "; }")
                eq_refl) as O1.
  change ([] ++ b ++ " { " ++ body ++ "; }")
    with (b ++ " { " ++ body ++ "; }") in O1.
  rewrite O1; clear O1.
  2:{ replace (b ++ " { " ++ body ++ "; }")
        with (b ++ (" { " ++ body ++ "; ") ++ "}")
        by (cbn [app]; rewrite <- !app_assoc; reflexivity).
      apply Hfirst. }
  2:{ destruct b; [contradiction|discriminate]. }
  2:{ apply lacks_app. split; [apply Lb; cbn; tauto|].
      cbn [app]. repeat (apply lacks_cons; split; [reflexivity|]).
      apply lacks_app. split; [apply L; cbn; tauto|reflexivity]. }
  change (b ++ " { " ++ body ++ "; }")
    with (b ++ " {" ++ " " ++ body ++ "; }").
  rewrite innerLinesOf_one_line; try assumption;
    try (intros x Hx; (apply Lb || apply L); cbn in *; tauto).
  (* the three lines *)
  pose proof (outerLine_tight options st [] (b ++ " {") eq_refl Topen) as O2.
  change ([] ++ b ++ " {") with (b ++ " {") in O2.
  rewrite O2; clear O2.
  2:{ destruct b; [contradiction|discriminate]. }
  2:{ apply lacks_app. split; [apply Lb; cbn; tauto|reflexivity]. }
  rewrite innerLinesOf_open; try assumption;
    try (intros x Hx; apply Lb; cbn in *; tauto).
  cbn [forEach].
  destruct (innerLine options st b) as [s1|e]; [|reflexivity].
  cbn [Js.bind].
  destruct (innerLine options s1 " {") as [s2|e]; [|reflexivity].
  cbn [Js.bind]. rewrite innerLine_empty. cbn [Js.bind].
  pose proof (outerLine_tight options s2 [] (body ++ ";") eq_refl Tbody)
    as O3.
  change ([] ++ body ++ ";") with (body ++ ";") in O3.
  rewrite O3; clear O3.
  2:{ destruct body; discriminate. }
  2:{ apply lacks_app. split; [apply L; cbn; tauto|reflexivity]. }
  rewrite innerLinesOf_terminated by (apply L; cbn; tauto).
  cbn [forEach].
  rewrite (innerLine_trimmed options s2 (" " ++ body ++ "; ")).
  replace (trim (" " ++ body ++ "; ")) with (body ++ ";").
  2:{ symmetry. rewrite trim_lead by reflexivity.
      replace (body ++ "; ") with ((body ++ ";") ++ " ")
        by (now rewrite <- app_assoc).
      apply trim_trail; [assumption|reflexivity]. }
  destruct (innerLine options s2 (body ++ ";")) as [s3|e]; [|reflexivity].
  cbn [Js.bind]. rewrite innerLine_empty. cbn [Js.bind].
  pose proof (outerLine_tight options s3 [] "}" eq_refl
                (conj eq_refl eq_refl)) as O4.
  change ([] ++ "}") with ("}" : str) in O4.
  rewrite O4; [|discriminate|reflexivity].
  change (innerLinesOf "}") with ["}" : str]. cbn [forEach].
  destruct (innerLine options s3 "}") as [s4|e]; reflexivity.
Qed.

(** X7.  In a text without tab, a block with one directive written on one
    line is read exactly as the same block written on three lines. *)
Theorem one_line_block (options : ParserOptions) (pre : list str)
  (b body after : str) :
  Forall (lacks "010"%char) pre ->
  b <> [] -> tight b ->
  (forall x, In x ["#"; "{"; "}"; ";"; "010"]%char -> lacks x b) ->
  body <> [] -> tight body -> endsWith ";" body = false ->
  (forall x, In x ["#"; "{"; "}"; "010"]%char -> lacks x body) ->
  lacks "009"%char
    (concat (map (fun l => l ++ ["010"%char]) pre)
     ++ (b ++ " { " ++ body ++ "; }") ++ "010"%char :: after) ->
  toJSON (concat (map (fun l => l ++ ["010"%char]) pre)
          ++ (b ++ " { " ++ body ++ "; }") ++ "010"%char :: after) options
  = toJSON (concat (map (fun l => l ++ ["010"%char]) pre)
            ++ (b ++ " {")
            ++ "010"%char :: (body ++ ";")
            ++ "010"%char :: "}" ++ "010"%char :: after) options.
Proof.
  intros Hpre Nb Tb Lb N T Hs L Htab.
  assert (Htab' : lacks "009"%char
                    (concat (map (fun l => l ++ ["010"%char]) pre)
                     ++ (b ++ " {")
                     ++ "010"%char :: (body ++ ";")
                     ++ "010"%char :: "}" ++ "010"%char :: after)).
  { apply lacks_app in Htab. destruct Htab as [T1 T2].
    apply lacks_app in T2. destruct T2 as [T2 T3].
    apply lacks_app in T2. destruct T2 as [Tb' T2].
    apply lacks_app in T2. destruct T2 as [_ T2].
    apply lacks_app in T2. destruct T2 as [Tbody _].
    apply lacks_cons in T3. destruct T3 as [_ T3].
    apply lacks_app. split; [assumption|].
    apply lacks_app. split.
    { apply lacks_app. split; [assumption|reflexivity]. }
    apply lacks_cons. split; [reflexivity|].
    apply lacks_app. split.
    { apply lacks_app. split; [assumption|reflexivity]. }
    apply lacks_cons. split; [reflexivity|].
    apply lacks_cons. split; [reflexivity|].
    apply lacks_cons. split; [reflexivity|assumption]. }
  rewrite !toJSON_runText by assumption.
  f_equal. apply runText_after; [assumption|]. intros st.
  rewrite (runText_line options st (b ++ " { " ++ body ++ "; }") after).
  2:{ apply lacks_app. split; [apply Lb; cbn; tauto|].
      cbn [app]. repeat (apply lacks_cons; split; [reflexivity|]).
      apply lacks_app. split; [apply L; cbn; tauto|reflexivity]. }
  rewrite (runText_line options st (b ++ " {")).
  2:{ apply lacks_app. split; [apply Lb; cbn; tauto|reflexivity]. }
  rewrite outerLine_one_line by assumption.
  destruct (outerLine options st (b ++ " {")) as [s1|e]; [|reflexivity].
  cbn [Js.bind]. rewrite (runText_line options s1 (body ++ ";")).
  2:{ apply lacks_app. split; [apply L; cbn; tauto|reflexivity]. }
  destruct (outerLine options s1 (body ++ ";")) as [s2|e]; [|reflexivity].
  cbn [Js.bind]. now rewrite (runText_line options s2 "}" after).
Qed.

Lemma one_line_block_witness :
  toJSON (concat (map (fun l => l ++ ["010"%char]) ["user www;"])
          ++ ("events" ++ " { " ++ "worker_connections 1024" ++ "; }")
          ++ "010"%char :: "") noOptions
  = toJSON (concat (map (fun l => l ++ ["010"%char]) ["user www;"])
            ++ ("events" ++ " {")
            ++ "010"%char :: ("worker_connections 1024" ++ ";")
            ++ "010"%char :: "}" ++ "010"%char :: "") noOptions.
Proof.
  apply (one_line_block noOptions ["user www;"] "events"
           "worker_connections 1024" "").
  - repeat constructor.
  - discriminate.
  - split; reflexivity.
  - intros x Hx. cbn in Hx.
    repeat (destruct Hx as [<-|Hx]; [reflexivity|]). contradiction.
  - discriminate.
  - split; reflexivity.
  - reflexivity.
  - intros x Hx. cbn in Hx.
    repeat (destruct Hx as [<-|Hx]; [reflexivity|]). contradiction.
  - reflexivity.
Defined.

(* ---------- a server block inside another block ---------- *)
Lemma quiet_app (a b : str) :
  forallb (fun c => negb (ceq c "{"%char) && negb (ceq c "}"%char)
                    && negb (ceq c ";"%char)) a = true ->
  forallb (fun c => negb (ceq c "{"%char) && negb (ceq c "}"%char)
                    && negb (ceq c ";"%char)) b = true ->
  forallb (fun c => negb (ceq c "{"%char) && negb (ceq c "}"%char)
                    && negb (ceq c ";"%char)) (a ++ b) = true.
Proof. intros Ha Hb. now rewrite forallb_app, Ha, Hb. Qed.

(** The text of a server block, a space and a closing brace: the block
    that holds the server block. *)
Lemma parse_nested_server (ds : list str) (after : str) :
  Forall (fun d => spaced d = true) ds ->
  exists fuel,
    Extract.parseBlockLoop fuel (" " ++ serverText ds ++ " }" ++ after)
      [] [] None
    = Some (VObj [("server", listed ds)], after).
Proof.
  intros H.
  destruct (parse_directives ds H [] (" }" ++ after)) as [fuel E].
  rewrite fold_store_listed in E.
  exists (length " server " + S (S (S fuel)))%nat.
  unfold serverText.
  replace (" " ++ ("server {" ++ concat (map (fun d => " " ++ d ++ ";") ds)
                   ++ " }") ++ " }" ++ after)
    with (" server "
          ++ "{"%char
             :: concat (map (fun d => " " ++ d ++ ";") ds)
                ++ " }" ++ " }" ++ after)
    by (cbn [app]; now rewrite <- !app_assoc).
  rewrite parseBlockLoop_run by reflexivity.
  change ("" ++ " server ") with (" "%char :: "server ").
  rewrite parseBlockLoop_open.
  rewrite (parseBlockLoop_mono _ _ _ _ _ _ (S (S fuel)) E) by lia.
  reflexivity.
Qed.

Lemma nested_text_clean (w : str) (ds : list str) :
  spaced w = true -> Forall (fun d => spaced d = true) ds ->
  Extract.collapseSpaces false
    (Extract.stripComments false (w ++ " { " ++ serverText ds ++ " }"))
  = w ++ " { " ++ serverText ds ++ " }".
Proof.
  intros Hw H.
  assert (N : w ++ " { " ++ serverText ds ++ " }"
              = w ++ " "%char
                  :: "{"%char
                     :: " "%char
                        :: "server"
                           ++ " "%char
                              :: "{"%char
                                 :: concat (map (fun d => " " ++ d ++ ";") ds)
                                    ++ " }" ++ " }").
  { unfold serverText. cbn [app]. now rewrite <- !app_assoc. }
  rewrite N.
  assert (E1 : Extract.stripComments false
                 (w ++ " "%char
                    :: "{"%char
                       :: " "%char
                          :: "server"
                             ++ " "%char
                                :: "{"%char
                                   :: concat
                                        (map (fun d => " " ++ d ++ ";") ds)
                                      ++ " }" ++ " }")
               = w ++ " "%char
                   :: "{"%char
                      :: " "%char
                         :: "server"
                            ++ " "%char
                               :: "{"%char
                                  :: concat
                                       (map (fun d => " " ++ d ++ ";") ds)
                                     ++ " }" ++ " }").
  { rewrite (stripComments_spaced w) by assumption.
    rewrite !stripComments_cons by reflexivity.
    rewrite (stripComments_spaced "server") by reflexivity.
    rewrite !stripComments_cons by reflexivity.
    now rewrite stripComments_directives. }
  rewrite E1.
  rewrite (collapseSpaces_spaced w) by assumption.
  rewrite collapseSpaces_space, collapseSpaces_plain by reflexivity.
  rewrite collapseSpaces_space.
  rewrite (collapseSpaces_spaced "server") by reflexivity.
  rewrite collapseSpaces_space, collapseSpaces_plain by reflexivity.
  now rewrite collapseSpaces_directives.
Qed.

(** X10.  A server block written inside another block, such as [http], is not
    found: the conversion returns the empty object. *)
Theorem nested_server_not_found (w : str) (ds : list str) :
  spaced w = true -> seqb "server" w = false ->
  Forall (fun d => spaced d = true) ds ->
  Extract.convert (w ++ " { " ++ serverText ds ++ " }")
  = Some (Ok (Extract.One emptyServer)).
Proof.
  intros Hw Hne H.
  assert (P : Extract.parse (w ++ " { " ++ serverText ds ++ " }")
              = Some (VObj [(w, VObj [("server", listed ds)])])).
  { unfold Extract.parse. rewrite nested_text_clean by assumption.
    unfold Extract.parseBlock.
    destruct (parse_nested_server ds "" H) as [fuel E].
    rewrite (parseBlockLoop_enough _ (length (w ++ " ") + S (S fuel))
               (w ++ " { " ++ serverText ds ++ " }") [] [] None
               (VObj [(w, VObj [("server", listed ds)])], ""));
      [reflexivity|lia|].
    replace (w ++ " { " ++ serverText ds ++ " }")
      with ((w ++ " ")
            ++ "{"%char :: " " ++ serverText ds ++ " }" ++ "")
      by (cbn [app]; now rewrite <- !app_assoc).
    rewrite parseBlockLoop_run.
    2:{ apply quiet_app; [now apply spaced_quiet|reflexivity]. }
    cbn [app]. destruct w as [|c r] eqn:K; [discriminate|]. rewrite <- K in *.
    assert (B : exists c' r', w ++ " " = c' :: r')
      by (rewrite K; cbn; eauto).
    destruct B as [c' [r' B]]. rewrite B. rewrite parseBlockLoop_open.
    rewrite <- B. cbn [app] in E.
    rewrite (parseBlockLoop_mono _ _ _ _ _ _ (S fuel) E) by lia.
    rewrite (trim_trail w " " (spaced_tight w Hw) eq_refl).
    reflexivity. }
  unfold Extract.convert. rewrite P. cbn [get_prop assoc].
  now rewrite Hne.
Qed.

Lemma nested_server_not_found_witness :
  Extract.convert ("http" ++ " { " ++ serverText ["listen 80"] ++ " }")
  = Some (Ok (Extract.One emptyServer)).
Proof.
  apply nested_server_not_found.
  - reflexivity.
  - reflexivity.
  - repeat constructor.
Defined.

(* ---------- blocks inside a server block ---------- *)
Lemma stripComments_blocks (blocks : list (str * list str)) (rest : str) :
  Forall namedBlock blocks ->
  Extract.stripComments false (blocksText blocks ++ rest)
  = blocksText blocks ++ Extract.stripComments false rest.
Proof.
  unfold blocksText.
  induction 1 as [|[name body] blocks [Hn [_ [_ Hb]]] _ IH]; [reflexivity|].
  cbn [fst snd] in *. cbn [map concat fst snd].
  set (tail := concat (map (fun b => " " ++ fst b ++ " {"
                              ++ concat (map (fun d => " " ++ d ++ ";")
                                           (snd b)) ++ " }") blocks)) in *.
  replace (((" " ++ name ++ " {"
             ++ concat (map (fun d => " " ++ d ++ ";") body) ++ " }")
            ++ tail) ++ rest)
    with (" "%char
          :: name
             ++ " "%char
                :: "{"%char
                   :: concat (map (fun d => " " ++ d ++ ";") body)
                      ++ " "%char :: "}"%char :: tail ++ rest)
    by (cbn [app]; rewrite <- !app_assoc; cbn [app];
        rewrite <- ?app_assoc; reflexivity).
  rewrite stripComments_cons by reflexivity.
  rewrite stripComments_spaced by assumption.
  rewrite !stripComments_cons by reflexivity.
  rewrite stripComments_directives by assumption.
  rewrite !stripComments_cons by reflexivity.
  rewrite IH. cbn [app]. rewrite <- !app_assoc. cbn [app].
  rewrite <- ?app_assoc. reflexivity.
Qed.

Lemma collapseSpaces_blocks (blocks : list (str * list str)) (rest : str) :
  Forall namedBlock blocks ->
  Extract.collapseSpaces false (blocksText blocks ++ rest)
  = blocksText blocks ++ Extract.collapseSpaces false rest.
Proof.
  unfold blocksText.
  induction 1 as [|[name body] blocks [Hn [_ [_ Hb]]] _ IH]; [reflexivity|].
  cbn [fst snd] in *. cbn [map concat fst snd].
  set (tail := concat (map (fun b => " " ++ fst b ++ " {"
                              ++ concat (map (fun d => " " ++ d ++ ";")
                                           (snd b)) ++ " }") blocks)) in *.
  replace (((" " ++ name ++ " {"
             ++ concat (map (fun d => " " ++ d ++ ";") body) ++ " }")
            ++ tail) ++ rest)
    with (" "%char
          :: name
             ++ " "%char
                :: "{"%char
                   :: concat (map (fun d => " " ++ d ++ ";") body)
                      ++ " "%char :: "}"%char :: tail ++ rest)
    by (cbn [app]; rewrite <- !app_assoc; cbn [app];
        rewrite <- ?app_assoc; reflexivity).
  rewrite collapseSpaces_space.
  rewrite collapseSpaces_spaced by assumption.
  rewrite collapseSpaces_space, collapseSpaces_plain by reflexivity.
  rewrite collapseSpaces_directives by assumption.
  rewrite collapseSpaces_space, collapseSpaces_plain by reflexivity.
  rewrite IH. cbn [app]. rewrite <- !app_assoc. cbn [app].
  rewrite <- ?app_assoc. reflexivity.
Qed.

Lemma serverWith_clean (ds : list str) (blocks : list (str * list str)) :
  Forall (fun d => spaced d = true) ds -> Forall namedBlock blocks ->
  Extract.collapseSpaces false
    (Extract.stripComments false (serverWith ds blocks))
  = serverWith ds blocks.
Proof.
  intros H Hb. unfold serverWith.
  change ("server {" ++ concat (map (fun d => " " ++ d ++ ";") ds)
          ++ blocksText blocks ++ " }")
    with ("server"
          ++ " "%char
             :: "{"%char
                :: concat (map (fun d => " " ++ d ++ ";") ds)
                   ++ blocksText blocks ++ " }").
  rewrite (stripComments_spaced "server") by reflexivity.
  rewrite !stripComments_cons by reflexivity.
  rewrite stripComments_directives by assumption.
  rewrite stripComments_blocks by assumption.
  change (Extract.stripComments false " }") with (" }" : str).
  rewrite (collapseSpaces_spaced "server") by reflexivity.
  rewrite collapseSpaces_space, collapseSpaces_plain by reflexivity.
  rewrite collapseSpaces_directives by assumption.
  now rewrite collapseSpaces_blocks by assumption.
Qed.

(** Directives, then whatever follows them in the block. *)
Lemma parse_directives_then (ds : list str) :
  Forall (fun d => spaced d = true) ds ->
  forall (result : list (str * value)) (rest : str) (fuel : nat)
         (x : value * str),
    Extract.parseBlockLoop fuel rest
      (fold_left (fun r d => Extract.store "_directives" (VStr d) r)
         ds result) [] None = Some x ->
    exists fuel',
      Extract.parseBlockLoop fuel'
        (concat (map (fun d => " " ++ d ++ ";") ds) ++ rest) result [] None
      = Some x.
Proof.
  induction 1 as [|d ds Hd _ IH]; intros result rest fuel x E.
  - now exists fuel.
  - destruct (IH (Extract.store "_directives" (VStr d) result) rest fuel x E)
      as [fuel' E'].
    exists (length (" " ++ d) + S fuel')%nat.
    cbn [map concat].
    replace (((" " ++ d ++ ";")
              ++ concat (map (fun d0 => " " ++ d0 ++ ";") ds)) ++ rest)
      with ((" " ++ d)
            ++ ";"%char
               :: (concat (map (fun d0 => " " ++ d0 ++ ";") ds) ++ rest))
      by (cbn [app]; now rewrite <- !app_assoc).
    rewrite parseBlockLoop_run.
    2:{ cbn [app forallb]. now rewrite spaced_quiet. }
    cbn [Extract.parseBlockLoop]. change (ceq ";" "{") with false.
    change (ceq ";" "}") with false. change (ceq ";" ";") with true.
    cbv iota. cbn [app]. unfold Extract.storeBuffer.
    pose proof (trim_lead " " d eq_refl) as TL. cbn [app] in TL.
    rewrite TL. clear TL.
    rewrite (trim_tight d (spaced_tight d Hd)).
    destruct d as [|c r]; [discriminate|]. exact E'.
Qed.

(** Blocks of directives, then whatever follows them. *)
Lemma parse_blocks_then (blocks : list (str * list str)) :
  Forall namedBlock blocks ->
  forall (result : list (str * value)) (rest : str) (fuel : nat)
         (x : value * str),
    Extract.parseBlockLoop fuel rest
      (fold_left (fun r b => Extract.store (fst b) (listed (snd b)) r)
         blocks result) [] None = Some x ->
    exists fuel',
      Extract.parseBlockLoop fuel' (blocksText blocks ++ rest) result [] None
      = Some x.
Proof.
  unfold blocksText.
  induction 1 as [|[name body] blocks [Hn [_ [_ Hb]]] _ IH];
    intros result rest fuel x E.
  - now exists fuel.
  - cbn [fst snd] in *. cbn [fold_left fst snd] in E.
    destruct (IH _ rest fuel x E) as [fuel1 E1].
    set (tail := concat (map (fun b => " " ++ fst b ++ " {"
                                ++ concat (map (fun d => " " ++ d ++ ";")
                                             (snd b)) ++ " }") blocks))
      in *.
    destruct (parse_directives body Hb [] (tail ++ rest)) as [fuel2 E2].
    rewrite fold_store_listed in E2.
    exists (length (" " ++ name ++ " ") + S (Nat.max fuel1 fuel2))%nat.
    cbn [map concat fst snd]. fold tail.
    replace (((" " ++ name ++ " {"
               ++ concat (map (fun d => " " ++ d ++ ";") body) ++ " }")
              ++ tail) ++ rest)
      with ((" " ++ name ++ " ")
            ++ "{"%char
               :: concat (map (fun d => " " ++ d ++ ";") body)
                  ++ " }" ++ tail ++ rest)
      by (cbn [app]; rewrite <- !app_assoc; cbn [app];
          rewrite <- ?app_assoc; reflexivity).
    rewrite parseBlockLoop_run.
    2:{ cbn [app forallb]. apply quiet_app; [now apply spaced_quiet|].
        reflexivity. }
    change ([] ++ " " ++ name ++ " ") with (" "%char :: name ++ " ").
    rewrite parseBlockLoop_open.
    rewrite (parseBlockLoop_mono _ _ _ _ _ _ (Nat.max fuel1 fuel2) E2)
      by apply Nat.le_max_r.
    pose proof (trim_lead " " (name ++ " ") eq_refl) as TL.
    cbn [app] in TL. rewrite TL. clear TL.
    rewrite (trim_trail name " " (spaced_tight name Hn) eq_refl).
    apply (parseBlockLoop_mono _ _ _ _ _ _ (Nat.max fuel1 fuel2) E1).
    apply Nat.le_max_l.
Qed.

Lemma assoc_store_other (k k' : str) (v : value) (r : list (str * value)) :
  seqb k k' = false -> assoc k (Extract.store k' v r) = assoc k r.
Proof.
  intros H. unfold Extract.store.
  destruct (assoc k' r) as [[]|]; rewrite assoc_obj_set, H; reflexivity.
Qed.

Lemma assoc_store_blocks (k : str) (blocks : list (str * list str)) :
  Forall (fun b => seqb k (fst b) = false) blocks ->
  forall r,
    assoc k (fold_left (fun r b => Extract.store (fst b) (listed (snd b)) r)
               blocks r)
    = assoc k r.
Proof.
  induction 1 as [|b blocks Hb _ IH]; intros r; [reflexivity|].
  cbn [fold_left]. rewrite IH. now apply assoc_store_other.
Qed.

(** What [NginxParser] makes of a server block with directives and
    blocks. *)
Lemma parse_serverWith (ds : list str) (blocks : list (str * list str)) :
  Forall (fun d => spaced d = true) ds -> Forall namedBlock blocks ->
  exists o,
    Extract.parse (serverWith ds blocks) = Some (VObj [("server", VObj o)])
    /\ assoc "_directives" o = get_prop (listed ds) "_directives"
    /\ assoc "location" o = None.
Proof.
  intros H Hb.
  set (o0 := fold_left (fun r d => Extract.store "_directives" (VStr d) r)
               ds []).
  set (o := fold_left (fun r b => Extract.store (fst b) (listed (snd b)) r)
              blocks o0).
  exists o. split; [|split].
  - unfold Extract.parse. rewrite serverWith_clean by assumption.
    unfold Extract.parseBlock.
    assert (E0 : Extract.parseBlockLoop 2 (" }" ++ "") o [] None
                 = Some (VObj o, "")) by reflexivity.
    destruct (parse_blocks_then blocks Hb o0 _ _ _ E0) as [fuel1 E1].
    destruct (parse_directives_then ds H [] _ _ _ E1) as [fuel2 E2].
    rewrite (parseBlockLoop_enough _ (length "server " + S (S fuel2))
               (serverWith ds blocks) [] [] None
               (VObj [("server", VObj o)], "")); [reflexivity|lia|].
    unfold serverWith.
    change ("server {" ++ concat (map (fun d => " " ++ d ++ ";") ds)
            ++ blocksText blocks ++ " }")
      with ("server "
            ++ "{"%char
               :: concat (map (fun d => " " ++ d ++ ";") ds)
                  ++ blocksText blocks ++ " }" ++ "").
    rewrite parseBlockLoop_run by reflexivity.
    change ("" ++ "server ") with ("s"%char :: "erver ").
    rewrite parseBlockLoop_open.
    rewrite (parseBlockLoop_mono _ _ _ _ _ _ (S fuel2) E2) by lia.
    reflexivity.
  - unfold o. rewrite assoc_store_blocks.
    + unfold o0. pose proof (fold_store_listed ds) as F.
      unfold listed in *. injection F as ->. now destruct ds as [|? [|? ?]].
    + apply Forall_forall. intros b Hin.
      rewrite Forall_forall in Hb. now destruct (Hb b Hin) as [_ [_ [? _]]].
  - unfold o. rewrite assoc_store_blocks.
    + unfold o0. pose proof (fold_store_listed ds) as F.
      unfold listed in *. injection F as ->. now destruct ds as [|? [|? ?]].
    + apply Forall_forall. intros b Hin.
      rewrite Forall_forall in Hb. now destruct (Hb b Hin) as [_ [? _]].
Qed.

(** X11.  Blocks whose name has an argument, such as [location /api], leave no
    trace in the conversion of a server block: the result is that of the
    directives alone. *)
Theorem named_blocks_are_dropped (ds : list str)
  (blocks : list (str * list str)) :
  Forall (fun d => spaced d = true) ds -> Forall namedBlock blocks ->
  Extract.convert (serverWith ds blocks)
  = Some (config <- Extract.parseServer (listed ds) ;;
          Ok (Extract.One config)).
Proof.
  intros H Hb. unfold Extract.convert.
  destruct (parse_serverWith ds blocks H Hb) as [o [P [Ed El]]].
  rewrite P. cbn [get_prop assoc]. change (seqb "server" "server") with true.
  cbv iota. f_equal.
  change (Extract.arrayOf (VObj o)) with [VObj o].
  cbn [Extract.mapServers].
  assert (S : Extract.parseServer (VObj o) = Extract.parseServer (listed ds)).
  { unfold Extract.parseServer. cbn [get_prop]. rewrite Ed, El.
    assert (L : get_prop (listed ds) "location" = None)
      by now destruct ds as [|? [|? ?]].
    rewrite L. reflexivity. }
  rewrite S. destruct (Extract.parseServer (listed ds)); reflexivity.
Qed.

Lemma named_blocks_are_dropped_witness :
  Extract.convert
    (serverWith ["listen 80"] [("location /", ["root /var/www"])])
  = Some (config <- Extract.parseServer (listed ["listen 80"]) ;;
          Ok (Extract.One config)).
Proof.
  apply named_blocks_are_dropped.
  - repeat constructor.
  - repeat constructor.
Defined.

(* ---------- the static template, generated and read back ---------- *)
Lemma word_facts (w : str) :
  word w = true -> w <> [] /\ forallb plainChar w = true.
Proof. destruct w; [discriminate|]. intros H. split; [discriminate|exact H]. Qed.

Lemma plainChar_not_space (c : ascii) :
  plainChar c = true -> ceq c " "%char = false.
Proof.
  unfold plainChar. intros H. char_facts.
  unfold is_ws in *. now destruct (ceq c " "%char).
Qed.

Lemma word_spaced (w : str) : word w = true -> spaced w = true.
Proof.
  intros H. destruct (word_facts w H) as [N A]. clear H.
  induction w as [|c w IH]; [contradiction|].
  cbn [forallb] in A. apply andb_true_iff in A. destruct A as [Hc A].
  cbn [spaced]. rewrite Hc. destruct w as [|s w]; [reflexivity|].
  assert (Hs : ceq s " "%char = false).
  { cbn in A. apply andb_true_iff in A. now apply plainChar_not_space. }
  rewrite Hs. apply IH; [discriminate|assumption].
Qed.

Lemma spaced_after_word (w r : str) :
  word w = true -> spaced r = true -> spaced (w ++ " " ++ r) = true.
Proof.
  intros H Hr. destruct (word_facts w H) as [N A]. clear H.
  induction w as [|c w IH]; [contradiction|].
  cbn [forallb] in A. apply andb_true_iff in A. destruct A as [Hc A].
  cbn [app spaced]. rewrite Hc. destruct w as [|s w].
  - cbn [app]. now rewrite ceq_refl.
  - assert (Hs : ceq s " "%char = false).
    { cbn in A. apply andb_true_iff in A. now apply plainChar_not_space. }
    cbn [app]. rewrite Hs. apply IH; [discriminate|assumption].
Qed.

Lemma word_lacks (x : ascii) (w : str) :
  In x ["#"; " "]%char -> word w = true -> lacks x w.
Proof.
  intros Hx H. destruct (word_facts w H) as [_ A]. revert A.
  apply forallb_lacks. intros c Hc.
  destruct (ceq c x) eqn:E; [|reflexivity].
  apply ceq_eq in E. subst c. cbn in Hx.
  destruct Hx as [<-|[<-|[]]]; vm_compute in Hc; discriminate.
Qed.

Lemma word_after (a w : str) :
  forallb plainChar a = true -> word w = true -> word (a ++ w) = true.
Proof.
  intros Ha H. destruct (word_facts w H) as [N A].
  destruct a as [|c a]; [exact H|].
  cbn [app word]. change (c :: a ++ w) with ((c :: a) ++ w).
  now rewrite forallb_app, Ha, A.
Qed.

Lemma stripComments_lacks (t : str) :
  lacks "#"%char t -> Extract.stripComments false t = t.
Proof.
  induction t as [|c t IH]; [reflexivity|]. intros H.
  apply lacks_cons in H. destruct H as [Hc H].
  cbn [Extract.stripComments]. now rewrite Hc, IH.
Qed.


(** The white space of a text in pieces: what follows a piece starts in
    a run of white space exactly when the piece ends with white space. *)
Lemma collapseSpaces_piece (a rest : str) :
  forall b,
    Extract.collapseSpaces b (a ++ rest)
    = Extract.collapseSpaces b a
      ++ Extract.collapseSpaces
           (match a with [] => b | c :: _ => is_ws (last a c) end) rest.
Proof.
  induction a as [|c a IH]; intros b; [reflexivity|].
  assert (F : forall b',
             match a with [] => b' | c' :: _ => is_ws (last a c') end
             = match a with
               | [] => b'
               | _ :: _ => is_ws (last (c :: a) c)
               end).
  { intros b'. destruct a as [|c' a']; [reflexivity|].
    change (last (c :: c' :: a') c) with (last (c' :: a') c).
    now rewrite (last_indep (c' :: a') c c'). }
  cbn [app Extract.collapseSpaces]. destruct (is_ws c) eqn:W.
  - rewrite IH, F. destruct b, a; cbn [app last]; rewrite ?W; reflexivity.
  - rewrite IH, F. destruct a; cbn [app last]; rewrite ?W; reflexivity.
Qed.

Ltac collapse_step :=
  match goal with
  | |- context [Extract.collapseSpaces ?b (?a ++ ?rest)] =>
      first
        [ rewrite (collapseSpaces_spaced a rest) by (assumption || reflexivity)
        | rewrite (collapseSpaces_piece a rest b);
          let v := eval vm_compute in (Extract.collapseSpaces b a) in
          change (Extract.collapseSpaces b a) with v;
          let w := eval vm_compute in
                     (match a with
                      | [] => b
                      | c :: _ => is_ws (last a c)
                      end) in
          change (match a with [] => b | c :: _ => is_ws (last a c) end)
            with w ]
  end.

(** The directives and the blocks of the server block that the [static]
    template makes. *)
Lemma static_text_cleaned (d rootPath : str) (sslEnabled : option bool) :
  word d = true -> word rootPath = true -> truthyBool sslEnabled = false ->
  Extract.collapseSpaces false
    (Extract.stripComments false
       (fst (generateNginxConfig
               (Templates.static
                  {| Templates.st_domain := d;
                     Templates.st_rootPath := rootPath;
                     Templates.st_sslEnabled := sslEnabled |}))))
  = serverWith
      ["listen 80"; "server_name " ++ d ++ " www." ++ d; "gzip on";
       "gzip_types " ++ gzipTypesDefault]
      [("location /",
        ["root " ++ rootPath; "index index.html";
         "try_files $uri $uri/ =404"]);
       ("location /assets",
        ["root " ++ rootPath; "expires 30d";
         "add_header Cache-Control public"])].
Proof.
  intros Hd Hr Hssl.
  pose proof (word_spaced d Hd) as Sd.
  pose proof (word_spaced rootPath Hr) as Sr.
  pose proof (word_lacks "#"%char d ltac:(cbn; tauto) Hd) as Ld.
  pose proof (word_lacks "#"%char rootPath ltac:(cbn; tauto) Hr) as Lr.
  destruct rootPath as [|c r] eqn:K; [discriminate|]. rewrite <- K in *.
  assert (T : fst (generateNginxConfig
                     (Templates.static
                        {| Templates.st_domain := d;
                           Templates.st_rootPath := rootPath;
                           Templates.st_sslEnabled := sslEnabled |}))
              = "server {" ++ nl
                ++ "    listen 80;" ++ nl
                ++ "    server_name " ++ d ++ " www." ++ d ++ ";" ++ nl ++ nl
                ++ "    gzip on;" ++ nl
                ++ "    gzip_types " ++ gzipTypesDefault ++ ";" ++ nl ++ nl
                ++ "    location / {" ++ nl
                ++ "        root " ++ rootPath ++ ";" ++ nl
                ++ "        index index.html;" ++ nl
                ++ "        try_files $uri $uri/ =404;" ++ nl
                ++ "    }" ++ nl ++ nl
                ++ "    location /assets {" ++ nl
                ++ "        root " ++ rootPath ++ ";" ++ nl
                ++ "        expires 30d;" ++ nl
                ++ "        add_header Cache-Control public;" ++ nl
                ++ "    }" ++ nl
                ++ "}").
  { rewrite K.
    unfold generateNginxConfig, Templates.static, forcedRedirect,
      Templates.sslOf, Templates.portOf.
    cbn [upstreams ssl microservices locations fst
         Templates.st_sslEnabled Templates.st_domain Templates.st_rootPath].
    rewrite Hssl. cbv -[app gzipTypesDefault]; same_text. }
  rewrite T. clear T.
  rewrite stripComments_lacks.
  2:{ unfold nl.
      repeat (apply lacks_app; split); try reflexivity; assumption. }
  unfold nl. repeat collapse_step.
  match goal with
  | |- context [Extract.collapseSpaces ?b ?a] =>
      let v := eval vm_compute in (Extract.collapseSpaces b a) in
      change (Extract.collapseSpaces b a) with v
  end.
  unfold serverWith, blocksText. cbn [map concat fst snd].
  same_text.
Qed.


Lemma serverDirective_server_name (config : ServerConfig) (d : str) :
  word d = true ->
  Extract.serverDirective config ("server_name " ++ d ++ " www." ++ d)
  = Ok (Extract.set_sc_domain (Some d)
          (Extract.set_sc_serverName (Some (d ++ " www." ++ d)) config)).
Proof.
  intros Hd.
  pose proof (word_lacks " "%char d ltac:(cbn; tauto) Hd) as Ld.
  assert (Lw : lacks " "%char ("www." ++ d)).
  { apply (word_lacks " "%char); [cbn; tauto|].
    now apply (word_after "www." d). }
  unfold Extract.serverDirective.
  rewrite startsWith_app.
  change ("server_name " ++ d ++ " www." ++ d)
    with ("server_name" ++ " "%char :: d ++ " "%char :: "www." ++ d).
  rewrite (split_app " "%char "server_name") by reflexivity.
  rewrite (split_app " "%char d) by assumption.
  rewrite split_lacks by assumption.
  cbn [tl]. change (join " " [d; "www." ++ d]) with (d ++ " " ++ "www." ++ d).
  unfold Extract.extractDomainFromServerName.
  change (d ++ " " ++ "www." ++ d) with (d ++ " "%char :: "www." ++ d).
  rewrite (split_app " "%char d) by assumption.
  reflexivity.
Qed.

Lemma serverDirective_listen_80 (config : ServerConfig) :
  Extract.serverDirective config "listen 80"
  = Ok (Extract.set_sc_port (Some (Int 80)) config).
Proof. vm_compute. reflexivity. Qed.

Lemma serverDirective_gzip_on (config : ServerConfig) :
  Extract.serverDirective config "gzip on"
  = Ok (Extract.set_sc_gzip (Some true) config).
Proof. vm_compute. reflexivity. Qed.

Lemma serverDirective_gzip_types (config : ServerConfig) :
  Extract.serverDirective config ("gzip_types " ++ gzipTypesDefault)
  = Ok (Extract.set_sc_gzipTypes (Some (split " "%char gzipTypesDefault))
          config).
Proof. vm_compute. reflexivity. Qed.

Lemma parseServer_static (d : str) :
  word d = true ->
  Extract.parseServer
    (listed ["listen 80"; "server_name " ++ d ++ " www." ++ d; "gzip on";
             "gzip_types " ++ gzipTypesDefault])
  = Ok {| sc_serverName := Some (d ++ " www." ++ d);
          sc_domain := Some d;
          sc_port := Some (Int 80);
          sc_ssl := None; sc_clientMaxBodySize := None;
          sc_gzip := Some true;
          sc_gzipTypes := Some (split " "%char gzipTypesDefault);
          sc_security := None; sc_locations := None |}.
Proof.
  intros Hd. unfold Extract.parseServer, listed.
  cbn [get_prop assoc]. change (seqb "_directives" "_directives") with true.
  cbv iota.
  cbn [Extract.truthy Extract.withDefault Extract.arrayOf map
         Extract.asStrings Js.bind forEach].
  rewrite serverDirective_listen_80.
  cbn [Js.bind]. rewrite serverDirective_server_name by assumption.
  cbn [Js.bind]. rewrite serverDirective_gzip_on.
  cbn [Js.bind]. rewrite serverDirective_gzip_types.
  cbn [Js.bind].
  vm_compute. reflexivity.
Qed.

Lemma static_directives_spaced (d : str) :
  word d = true ->
  Forall (fun x => spaced x = true)
    ["listen 80"; "server_name " ++ d ++ " www." ++ d;
     "gzip on"; "gzip_types " ++ gzipTypesDefault].
Proof.
  intros Hd.
  assert (S : spaced ("server_name " ++ d ++ " www." ++ d) = true).
  { apply (spaced_after_word "server_name" (d ++ " www." ++ d));
      [reflexivity|].
    apply (spaced_after_word d ("www." ++ d)); [assumption|].
    apply word_spaced. now apply (word_after "www." d). }
  constructor; [vm_compute; reflexivity|].
  constructor; [exact S|].
  constructor; [vm_compute; reflexivity|].
  constructor; [vm_compute; reflexivity|constructor].
Qed.

Lemma static_blocks_named (rootPath : str) :
  word rootPath = true ->
  Forall namedBlock
    [("location /",
      ["root " ++ rootPath; "index index.html";
       "try_files $uri $uri/ =404"]);
     ("location /assets",
      ["root " ++ rootPath; "expires 30d";
       "add_header Cache-Control public"])].
Proof.
  intros Hr.
  assert (Hroot : spaced ("root " ++ rootPath) = true).
  { apply (spaced_after_word "root" rootPath); [reflexivity|].
    now apply word_spaced. }
  constructor; [|constructor; [|constructor]].
  - split; [vm_compute; reflexivity|].
    split; [vm_compute; reflexivity|].
    split; [vm_compute; reflexivity|].
    cbn [snd]. constructor; [exact Hroot|].
    constructor; [vm_compute; reflexivity|].
    constructor; [vm_compute; reflexivity|constructor].
  - split; [vm_compute; reflexivity|].
    split; [vm_compute; reflexivity|].
    split; [vm_compute; reflexivity|].
    cbn [snd]. constructor; [exact Hroot|].
    constructor; [vm_compute; reflexivity|].
    constructor; [vm_compute; reflexivity|constructor].
Qed.

(** X12.  What the extractor reads back from the text generated for the
    [static] template without SSL: the server name, its first name as
    the domain, the port and the gzip settings, and neither of the two
    location blocks. *)
Theorem static_site_read_back (d rootPath : str) (sslEnabled : option bool) :
  word d = true -> word rootPath = true -> truthyBool sslEnabled = false ->
  Extract.convert
    (fst (generateNginxConfig
            (Templates.static
               {| Templates.st_domain := d;
                  Templates.st_rootPath := rootPath;
                  Templates.st_sslEnabled := sslEnabled |})))
  = Some (Ok (Extract.One
                {| sc_serverName := Some (d ++ " www." ++ d);
                   sc_domain := Some d;
                   sc_port := Some (Int 80);
                   sc_ssl := None; sc_clientMaxBodySize := None;
                   sc_gzip := Some true;
                   sc_gzipTypes := Some (split " "%char gzipTypesDefault);
                   sc_security := None; sc_locations := None |})).
Proof.
  intros Hd Hr Hssl.
  pose proof (static_directives_spaced d Hd) as Hds.
  pose proof (static_blocks_named rootPath Hr) as Hbs.
  destruct (parse_serverWith _ _ Hds Hbs) as [o [P [Ed El]]].
  assert (C : Extract.parse
                (fst (generateNginxConfig
                        (Templates.static
                           {| Templates.st_domain := d;
                              Templates.st_rootPath := rootPath;
                              Templates.st_sslEnabled := sslEnabled |})))
              = Some (VObj [("server", VObj o)])).
  { rewrite <- P. unfold Extract.parse.
    rewrite static_text_cleaned by assumption.
    now rewrite serverWith_clean by assumption. }
  unfold Extract.convert. rewrite C. cbn [get_prop assoc].
  change (seqb "server" "server") with true. cbv iota. f_equal.
  change (Extract.arrayOf (VObj o)) with [VObj o].
  cbn [Extract.mapServers].
  assert (S : Extract.parseServer (VObj o)
              = Extract.parseServer
                  (listed ["listen 80"; "server_name " ++ d ++ " www." ++ d;
                           "gzip on"; "gzip_types " ++ gzipTypesDefault])).
  { unfold Extract.parseServer. cbn [get_prop]. rewrite Ed, El. reflexivity. }
  rewrite S, parseServer_static by assumption. reflexivity.
Qed.

Lemma static_site_read_back_witness :
  Extract.convert
    (fst (generateNginxConfig
            (Templates.static
               {| Templates.st_domain := "example.com";
                  Templates.st_rootPath := "/var/www";
                  Templates.st_sslEnabled := None |})))
  = Some (Ok (Extract.One
                {| sc_serverName := Some ("example.com" ++ " www."
                                          ++ "example.com");
                   sc_domain := Some "example.com";
                   sc_port := Some (Int 80);
                   sc_ssl := None; sc_clientMaxBodySize := None;
                   sc_gzip := Some true;
                   sc_gzipTypes := Some (split " "%char gzipTypesDefault);
                   sc_security := None; sc_locations := None |})).
Proof.
  apply (static_site_read_back "example.com" "/var/www" None).
  - vm_compute. reflexivity.
  - vm_compute. reflexivity.
  - reflexivity.
Defined.

(* ---------- the handlers of server.ts ---------- *)
Lemma resolveSetLoop_object (o : list (str * value)) (components : list str)
  (val : value) (cur' : value) :
  resolveSetLoop (Some (VObj o)) components val = Ok (Some cur') ->
  exists o', cur' = VObj o'.
Proof.
  destruct components as [|k rest]; [discriminate|].
  cbn [resolveSetLoop isObject]. destruct rest as [|k' rest].
  - cbn [set_prop Js.bind]. intros H. injection H as <-. eauto.
  - destruct (resolveSetLoop _ (k' :: rest) val) as [[child|]|e];
      cbn [Js.bind set_prop]; intros H; try discriminate.
    injection H as <-. eauto.
Qed.

Lemma resolveSet_object (o : list (str * value)) (path : str) (val : value)
  (json' : value) (b : bool) :
  resolveSet (VObj o) path val = Ok (json', b) -> exists o', json' = VObj o'.
Proof.
  unfold resolveSet.
  destruct (resolveSetLoop (Some (VObj o)) (split "."%char path) val)
    as [[cur'|]|e] eqn:E; cbn [Js.bind]; intros H; try discriminate.
  - injection H as <- _. exact (resolveSetLoop_object _ _ _ _ E).
  - injection H as <- _. eauto.
Qed.

Lemma resolveAppendSet_object (o : list (str * value)) (key : str)
  (val : value) (json' : value) (b : bool) :
  resolveAppendSet (VObj o) key val = Ok (json', b) ->
  exists o', json' = VObj o'.
Proof.
  unfold resolveAppendSet.
  destruct (resolve (VObj o) key) as [[existing|]|e]; cbn [Js.bind];
    try discriminate.
  - match goal with
    | |- context [resolveSet (VObj o) key ?v] =>
        destruct (resolveSet (VObj o) key v) as [[j c]|e] eqn:E
    end; cbn [Js.bind]; intros H; [|discriminate].
    injection H as <- _. exact (resolveSet_object _ _ _ _ _ E).
  - destruct (resolveSet (VObj o) key val) as [[j c]|e] eqn:E;
      cbn [Js.bind]; intros H; [|discriminate].
    injection H as <- _. exact (resolveSet_object _ _ _ _ _ E).
Qed.

Lemma appendValue_object (o : list (str * value)) (key : str) (val : value)
  (parent : str) (json' : value) (b : bool) :
  appendValue (VObj o) key val parent = Ok (json', b) ->
  exists o', json' = VObj o'.
Proof.
  unfold appendValue. destruct parent; apply resolveAppendSet_object.
Qed.

(** The tree stays an object through every line. *)
Lemma innerLine_object (options : ParserOptions) (st st' : state)
  (line : str) :
  (exists o, json st = VObj o) ->
  innerLine options st line = Ok st' ->
  exists o', json st' = VObj o'.
Proof.
  intros [o Ho]. unfold innerLine.
  destruct (trim line) as [|c l]; [intros H; injection H as <-; eauto|].
  destruct (isInLuaBlock st && negb (endsWith "}" (c :: l)));
    [intros H; injection H as <-; cbn; eauto|].
  match goal with
  | |- context [endsWith "{" ?x] => set (full := x)
  end.
  destruct (endsWith "{" full).
  { rewrite Ho.
    match goal with
    | |- context [appendValue (VObj o) ?k ?v ?p] =>
        destruct (appendValue (VObj o) k v p) as [[j b]|e] eqn:E
    end; cbn [Js.bind]; [|discriminate].
    destruct (appendValue_object _ _ _ _ _ _ E) as [o' ->].
    destruct b.
    - match goal with
      | |- context [resolve (VObj o') ?k] =>
          destruct (resolve (VObj o') k) as [array|e]
      end; cbn [Js.bind]; [|discriminate].
      destruct (lengthOf array); cbn [Js.bind]; [|discriminate].
      intros H. injection H as <-. cbn. eauto.
    - intros H. injection H as <-. cbn. eauto. }
  destruct (startsWith "include" full && parseIncludes options);
    [intros H; injection H as <-; cbn; eauto|].
  destruct (endsWith ";" full).
  { unfold handlePropertyLine. rewrite Ho.
    match goal with
    | |- context [appendValue (VObj o) ?k ?v ?p] =>
        destruct (appendValue (VObj o) k v p) as [[j b]|e] eqn:E
    end; cbn [Js.bind]; [|discriminate].
    destruct (appendValue_object _ _ _ _ _ _ E) as [o' ->].
    intros H. injection H as <-. cbn. eauto. }
  destruct (endsWith "}" full).
  { unfold handleClosingBrace. rewrite Ho.
    destruct (isInLuaBlock st).
    - match goal with
      | |- context [appendValue (VObj o) ?k ?v ?p] =>
          destruct (appendValue (VObj o) k v p) as [[j b]|e] eqn:E
      end; cbn [Js.bind]; [|discriminate].
      destruct (appendValue_object _ _ _ _ _ _ E) as [o' ->].
      destruct (popParent _ _). intros H. injection H as <-. cbn. eauto.
    - cbn [Js.bind]. destruct (popParent _ _).
      intros H. injection H as <-. cbn. eauto. }
  intros H. injection H as <-. cbn. eauto.
Qed.

Lemma forEach_object {A : Type} (f : state -> A -> res state) :
  (forall st st' x, (exists o, json st = VObj o) -> f st x = Ok st' ->
                    exists o', json st' = VObj o') ->
  forall (l : list A) (st st' : state),
    (exists o, json st = VObj o) -> forEach f l st = Ok st' ->
    exists o', json st' = VObj o'.
Proof.
  intros Hf. induction l as [|x l IH]; intros st st' Ho H.
  - cbn in H. injection H as <-. exact Ho.
  - cbn [forEach] in H. destruct (f st x) as [s1|e] eqn:E; [|discriminate].
    cbn [Js.bind] in H. exact (IH _ _ (Hf _ _ _ Ho E) H).
Qed.

Lemma outerLine_object (options : ParserOptions) (st st' : state)
  (line : str) :
  (exists o, json st = VObj o) ->
  outerLine options st line = Ok st' ->
  exists o', json st' = VObj o'.
Proof.
  intros Ho. unfold outerLine.
  destruct (trim line) as [|c l]; [intros H; injection H as <-; exact Ho|].
  destruct (startsWith "#" (c :: l));
    [intros H; injection H as <-; exact Ho|].
  apply forEach_object; [|exact Ho].
  intros s s' x. apply innerLine_object.
Qed.

(** What [toJSON] returns is an object, never a string. *)
Lemma toJSON_object (conf : str) (options : ParserOptions) (v : value)
  (d : list includeCall) :
  toJSON conf options = Ok (v, d) -> exists o, v = VObj o.
Proof.
  unfold toJSON, runLines.
  destruct (forEach (outerLine options) (linesOf conf) initState)
    as [st|e] eqn:E; cbn [Js.bind]; [|discriminate].
  intros H. injection H as <- _.
  apply (forEach_object (outerLine options)
           (fun s s' x => outerLine_object options s s' x)
           (linesOf conf) initState st); [|exact E].
  exists []. reflexivity.
Qed.

(** X24.  The handlers that read the configuration never answer: when the
    file cannot be read they throw what [readConfigFile] throws, and when
    it is read and parsed they hand the tree to [toJSON], which throws a
    [TypeError]. *)
Theorem read_handlers_always_throw (fs : Fs) (this : instance) :
  snd (Server.readConfig fs this)
  = match snd (readConfigFile fs this Server.configFile None) with
    | Ok _ => Throw TypeError
    | Throw e => Throw e
    end
  /\ forall blockName,
       snd (Server.readBlock fs this blockName)
       = match snd (readConfigFile fs this Server.configFile None) with
         | Ok _ => Throw TypeError
         | Throw e => Throw e
         end.
Proof.
  unfold Server.readConfig, Server.readBlock.
  destruct (readConfigFile fs this Server.configFile None) as [this' r] eqn:E.
  cbn [snd].
  assert (O : forall config d, r = Ok (config, d) -> exists o, config = VObj o).
  { intros config d ->. unfold readConfigFile in E.
    injection E as _ E.
    destruct (readTextFile fs Server.configFile); [|discriminate].
    unfold parse in E. exact (toJSON_object _ _ _ _ E). }
  destruct r as [[config d]|e]; [|split; reflexivity].
  destruct (O config d eq_refl) as [o ->].
  split; reflexivity.
Qed.
